(** * AutoClick lead management: the lead extractor, the lead handlers and
      the seed script, embedded and checked against their specification.

    Sources embedded here:
    - [server.js]: [extractLeadFromEmail], the token check
      [authenticateToken], and the handlers of [POST /api/auth/login],
      [GET /api/auth/profile], [GET /api/leads], [POST /api/leads],
      [PUT /api/leads/:id], [POST /api/process-email] and
      [GET /api/analytics];
    - the seed script ([setupDatabase]) with the schema it declares.

    Conventions of the embedding.
    - A JavaScript string is the list of its code units.  Code units are
      modelled by [ascii], so the strings covered are those whose code
      units lie in 0..255; on that range [toLowerCase] is the one of
      ECMAScript (A-Z and the upper-case Latin-1 letters move by 32).
    - A value that reaches the handlers comes from a parsed JSON body; it is
      a [value].  Calling a string method on anything but a string raises a
      [TypeError], as it does in JavaScript for JSON-born values.
    - The PostgreSQL database is a record of tables (lists of rows, in
      insertion order) with the counters of their SERIAL columns.  A query
      either fails (the promise rejects) or yields its rows and the new
      database.
    - An INSERT or an UPDATE goes through its checks in the order of the
      server: the parameters are brought to the types of their columns when
      the statement is prepared (acceptable text, the length of a VARCHAR,
      the input and the range of an INTEGER and of a TIMESTAMP), whether or
      not a row is concerned; then an INSERT draws its key from the
      sequence; then the row goes through NOT NULL, the unique indexes and
      the foreign keys.  The INTEGER input is the one of PostgreSQL 16 and
      later.  A point in time is a number of microseconds from 1970-01-01
      00:00:00, and each statement reads the clock for itself. *)

From Stdlib Require Import String Ascii Bool Arith ZArith NArith Lia List.
Import ListNotations.

(* ================================================================== *)
(** * JavaScript strings *)
(* ================================================================== *)

Definition jstring := list ascii.

Notation "'str' x" := (list_ascii_of_string x%string)
  (at level 9, x at level 0, only parsing).

Definition code (c : ascii) : N := N_of_ascii c.

Definition between (lo hi : N) (c : ascii) : bool :=
  (N.leb lo (code c) && N.leb (code c) hi)%bool.

Definition is_digit : ascii -> bool := between 48 57.
Definition is_upper : ascii -> bool := between 65 90.
Definition is_lower : ascii -> bool := between 97 122.
Definition is_alnum (c : ascii) : bool := is_upper c || is_lower c || is_digit c.
Definition is_char (x c : ascii) : bool := Ascii.eqb c x.

(** [\w] of a regular expression without the [u] and [i] flags. *)
Definition is_word (c : ascii) : bool := is_alnum c || is_char "_" c.

(** [Character.toLowerCase] on the code units 0..255. *)
Definition lower_char (c : ascii) : ascii :=
  if is_upper c || between 192 214 c || between 216 222 c
  then ascii_of_N (code c + 32) else c.

(** [String.prototype.toLowerCase]. *)
Definition toLowerCase (s : jstring) : jstring := map lower_char s.

Fixpoint startsWith (v s : jstring) : bool :=
  match v, s with
  | [], _ => true
  | _ :: _, [] => false
  | a :: v', b :: s' => Ascii.eqb a b && startsWith v' s'
  end.

(** [String.prototype.includes]: some position of [s] starts with [v]. *)
Fixpoint includes (s v : jstring) : bool :=
  startsWith v s ||
  match s with
  | [] => false
  | _ :: s' => includes s' v
  end.

(** [String.prototype.split] with a one-character separator. *)
Fixpoint split (sep : ascii) (s : jstring) : list jstring :=
  match s with
  | [] => [[]]
  | c :: s' =>
      if Ascii.eqb c sep then [] :: split sep s'
      else match split sep s' with
           | h :: t => (c :: h) :: t
           | [] => [[c]]
           end
  end.

(** [s.replace(/[._]/g, ' ')]. *)
Definition replace_dots_underscores (s : jstring) : jstring :=
  map (fun c => if is_char "." c || is_char "_" c then " "%char else c) s.

(** [String.prototype.substring(0, n)]. *)
Definition substring0 (n : nat) (s : jstring) : jstring := firstn n s.

(* ================================================================== *)
(** * Regular expressions: the fragment used by the two literals *)
(* ================================================================== *)

Module Regex.

Inductive regex : Type :=
| Class (p : ascii -> bool)              (* one character of a class *)
| Boundary                               (* \b *)
| Exactly (n : nat) (p : ascii -> bool)  (* class{n} *)
| Many (min : nat) (p : ascii -> bool)   (* class{min,}, greedy; + is {1,} *)
| Opt (p : ascii -> bool)                (* class?, greedy *)
| Cat (r1 r2 : regex).

(** A position of the subject: the character before it (if any) and the
    characters from it on. *)
Definition position : Type := (option ascii * jstring)%type.

Definition word_before (prev : option ascii) : bool :=
  match prev with Some c => is_word c | None => false end.

Definition word_after (s : jstring) : bool :=
  match s with c :: _ => is_word c | [] => false end.

Definition at_boundary (prev : option ascii) (s : jstring) : bool :=
  xorb (word_before prev) (word_after s).

Fixpoint exactly (n : nat) (p : ascii -> bool) (prev : option ascii)
  (s : jstring) : list position :=
  match n with
  | O => [(prev, s)]
  | S n' => match s with
            | c :: s' => if p c then exactly n' p (Some c) s' else []
            | [] => []
            end
  end.

(** Greedy repetition: the longer matches come first, the backtracking
    order of the ECMAScript matcher. *)
Fixpoint many (min : nat) (p : ascii -> bool) (prev : option ascii)
  (s : jstring) : list position :=
  let stop := match min with O => [(prev, s)] | S _ => [] end in
  match s with
  | c :: s' => if p c then many (pred min) p (Some c) s' ++ stop else stop
  | [] => stop
  end.

(** All the ways [r] matches at a position, in the order in which the
    backtracking matcher tries them; each is the position after the match. *)
Fixpoint run (r : regex) (prev : option ascii) (s : jstring) : list position :=
  match r with
  | Class p => match s with
               | c :: s' => if p c then [(Some c, s')] else []
               | [] => []
               end
  | Boundary => if at_boundary prev s then [(prev, s)] else []
  | Exactly n p => exactly n p prev s
  | Many min p => many min p prev s
  | Opt p => match s with
             | c :: s' => if p c then [(Some c, s'); (prev, s)] else [(prev, s)]
             | [] => [(prev, s)]
             end
  | Cat r1 r2 => flat_map (fun q => run r2 (fst q) (snd q)) (run r1 prev s)
  end.

(** The match the engine reports at a position: the first one tried. *)
Definition match_here (r : regex) (prev : option ascii) (s : jstring)
  : option jstring :=
  match run r prev s with
  | (_, rest) :: _ => Some (firstn (length s - length rest) s)
  | [] => None
  end.

(** [RegExpBuiltinExec] without the [g] and [y] flags: start positions are
    tried from left to right, the end of the string included. *)
Fixpoint exec_from (r : regex) (prev : option ascii) (s : jstring)
  : option jstring :=
  match match_here r prev s with
  | Some m => Some m
  | None => match s with
            | c :: s' => exec_from r (Some c) s'
            | [] => None
            end
  end.

(** The character before the position reached after reading [w] from a
    position whose previous character is [prev]. *)
Definition prev_after (prev : option ascii) (w : jstring) : option ascii :=
  last (map Some w) prev.

(** [s.match(r)?.[0]]: the matched text, or [None] for [undefined]. *)
Definition match0 (r : regex) (s : jstring) : option jstring :=
  exec_from r None s.

End Regex.
Import Regex.

(** [/\b[A-Za-z0-9._%+-]+@[A-Za-z0-9.-]+\.[A-Z|a-z]{2,}\b/] *)
Definition local_char (c : ascii) : bool :=
  is_alnum c || is_char "." c || is_char "_" c || is_char "%" c
  || is_char "+" c || is_char "-" c.
Definition domain_char (c : ascii) : bool :=
  is_alnum c || is_char "." c || is_char "-" c.
(** The class [[A-Z|a-z]]: inside brackets the bar is an ordinary member. *)
Definition tld_char (c : ascii) : bool :=
  is_upper c || is_char "|" c || is_lower c.

Definition emailRegex : regex :=
  Cat Boundary
   (Cat (Many 1 local_char)
     (Cat (Class (is_char "@"))
       (Cat (Many 1 domain_char)
         (Cat (Class (is_char "."))
           (Cat (Many 2 tld_char) Boundary))))).

(** [/\b\d{3}[-.]?\d{3}[-.]?\d{4}\b/] *)
Definition is_sep (c : ascii) : bool := is_char "-" c || is_char "." c.

Definition phoneRegex : regex :=
  Cat Boundary
   (Cat (Exactly 3 is_digit)
     (Cat (Opt is_sep)
       (Cat (Exactly 3 is_digit)
         (Cat (Opt is_sep)
           (Cat (Exactly 4 is_digit) Boundary))))).

(* ================================================================== *)
(** * JavaScript values and completions *)
(* ================================================================== *)

(** The values a parsed JSON body holds, with [undefined] for a missing
    property.  A number is identified with its canonical decimal text (the
    result of [Number.prototype.toString]), which is all the program can
    observe of it. *)
#[warnings="-register-all"]
Inductive value : Type :=
| VUndefined
| VNull
| VBool (b : bool)
| VNumber (text : jstring)
| VString (s : jstring)
| VArray (items : list value)
| VObject (props : list (jstring * value)).

Inductive error : Type :=
| TypeError.

(** The outcome of evaluating an expression or a block. *)
Inductive completion (A : Type) : Type :=
| Normal (a : A)
| Throw (e : error).

Arguments Normal {A} a.
Arguments Throw {A} e.

Definition bind {A B : Type} (c : completion A) (k : A -> completion B)
  : completion B :=
  match c with
  | Normal a => k a
  | Throw e => Throw e
  end.

Notation "x <- c ;; k" := (bind c (fun x => k))
  (at level 61, c at next level, right associativity).

Definition jstring_eqb (a b : jstring) : bool :=
  if list_eq_dec ascii_dec a b then true else false.

Definition has_own (key : jstring) (props : list (jstring * value)) : bool :=
  existsb (fun kv => jstring_eqb (fst kv) key) props.

(** [ToString], as a template literal applies it.  An array joins its
    elements with commas, [null] and [undefined] elements printing as the
    empty string.  A plain object prints through [Object.prototype.toString]
    unless an own [toString] property (never callable in parsed JSON) hides
    it, in which case [OrdinaryToPrimitive] finds no usable method. *)
Fixpoint ToString (v : value) : completion jstring :=
  match v with
  | VUndefined => Normal (str "undefined")
  | VNull => Normal (str "null")
  | VBool true => Normal (str "true")
  | VBool false => Normal (str "false")
  | VNumber text => Normal text
  | VString s => Normal s
  | VArray items =>
      let element (x : value) : completion jstring :=
        match x with
        | VUndefined | VNull => Normal []
        | _ => ToString x
        end in
      (fix join (l : list value) : completion jstring :=
         match l with
         | [] => Normal []
         | [x] => element x
         | x :: rest =>
             a <- element x ;;
             b <- join rest ;;
             Normal (a ++ str "," ++ b)
         end) items
  | VObject props =>
      if has_own (str "toString") props then Throw TypeError
      else Normal (str "[object Object]")
  end.

(** [v.m(...)] for a method [m] of [String.prototype]: on [undefined] and
    [null] the property read throws; on the other non-strings the property
    is missing (or, for a parsed object, not callable) and the call throws. *)
Definition string_method {A : Type} (v : value) (m : jstring -> A)
  : completion A :=
  match v with
  | VString s => Normal (m s)
  | _ => Throw TypeError
  end.

(* ================================================================== *)
(** * [extractLeadFromEmail] *)
(* ================================================================== *)

Record LeadData : Type := mkLeadData {
  name : jstring;
  email : option jstring;      (* [None] is [undefined] *)
  phone : option jstring;
  vehicle : jstring;
  notes : jstring
}.

Definition vehicles : list jstring :=
  [str "toyota"; str "honda"; str "ford"; str "chevrolet";
   str "nissan"; str "bmw"; str "mercedes"; str "audi"].

(** [vs.find(v => body.toLowerCase().includes(v) ||
                  subject.toLowerCase().includes(v))]:
    the right operand of [||] is evaluated only when the left one is false. *)
Fixpoint find_vehicle (vs : list jstring) (body subject : value)
  : completion (option jstring) :=
  match vs with
  | [] => Normal None
  | v :: vs' =>
      b <- string_method body toLowerCase ;;
      if includes b v then Normal (Some v)
      else
        s <- string_method subject toLowerCase ;;
        if includes s v then Normal (Some v)
        else find_vehicle vs' body subject
  end.

Definition newline : ascii := ascii_of_N 10.

(** The block guarded by [try]. *)
Definition extract_body (from subject body : value) : completion LeadData :=
  email_m <- string_method from (match0 emailRegex) ;;
  phone_m <- string_method body (match0 phoneRegex) ;;
  parts <- string_method from (split "@") ;;
  name_v <- match parts with
            | first :: _ => Normal (replace_dots_underscores first)
            | [] => Throw TypeError
            end ;;
  vehicleMatch <- find_vehicle vehicles body subject ;;
  subject_text <- ToString subject ;;
  body_prefix <- string_method body (substring0 500) ;;
  Normal {| name := name_v;
            email := email_m;
            phone := phone_m;
            vehicle := match vehicleMatch with
                       | Some v => v
                       | None => str "Not specified"
                       end;
            notes := str "Email Subject: " ++ subject_text
                     ++ [newline; newline] ++ str "Email Body: "
                     ++ body_prefix ++ str "..." |}.

(** [try { ... } catch (error) { console.error(...); return null; }]:
    [None] is the [null] result. *)
Definition extractLeadFromEmail (from subject body : value)
  : completion (option LeadData) :=
  match extract_body from subject body with
  | Normal lead => Normal (Some lead)
  | Throw _ => Normal None
  end.


(* ================================================================== *)
(** * The declarative reading of a pattern *)
(* ================================================================== *)

(** [Matches r p q] when [r] can
    consume the characters between the positions [p] and [q]. *)
Inductive Matches : regex -> position -> position -> Prop :=
| M_Class p prev c s :
    p c = true -> Matches (Class p) (prev, c :: s) (Some c, s)
| M_Boundary prev s :
    at_boundary prev s = true -> Matches Boundary (prev, s) (prev, s)
| M_Exactly_0 p prev s :
    Matches (Exactly 0 p) (prev, s) (prev, s)
| M_Exactly_S n p prev c s q :
    p c = true -> Matches (Exactly n p) (Some c, s) q ->
    Matches (Exactly (S n) p) (prev, c :: s) q
| M_Many_stop p prev s :
    Matches (Many 0 p) (prev, s) (prev, s)
| M_Many_step min p prev c s q :
    p c = true -> Matches (Many (pred min) p) (Some c, s) q ->
    Matches (Many min p) (prev, c :: s) q
| M_Opt_take p prev c s :
    p c = true -> Matches (Opt p) (prev, c :: s) (Some c, s)
| M_Opt_skip p prev s :
    Matches (Opt p) (prev, s) (prev, s)
| M_Cat r1 r2 p m q :
    Matches r1 p m -> Matches r2 m q -> Matches (Cat r1 r2) p q.


(* ================================================================== *)
(** * The database: schema, rows and statements *)
(* ================================================================== *)

(** A point in time, in microseconds from 1970-01-01 00:00:00: what
    [NOW()] answers, what a column TIMESTAMP holds, and what the driver
    sends for a JavaScript [Date] (its time value, a thousand microseconds
    for each millisecond). *)
Definition timestamp := Z.
Bind Scope Z_scope with timestamp.

(** The values a column TIMESTAMP takes: from 4714-11-24 BC, the day of
    Julian day number 0, to the end of the year 294276. *)
Definition min_timestamp : timestamp := (- 210866803200000000)%Z.
Definition end_timestamp : timestamp := 9224318016000000000%Z.

Definition in_timestamp_range (t : timestamp) : bool :=
  (Z.leb min_timestamp t && Z.ltb t end_timestamp)%bool.

(** One table per record; a nullable column is an [option].  The tables
    [activities] and [email_logs] are created by the seed script and never
    read or written by the code embedded here; they are left out. *)
Module Dealership.
Record t : Type := mk {
  id : Z;
  name : jstring;
  address : option jstring;
  phone : option jstring;
  email : option jstring;
  created_at : option timestamp
}.
End Dealership.

Module User.
Record t : Type := mk {
  id : Z;
  email : jstring;
  password : jstring;
  name : jstring;
  role : option jstring;
  dealership_id : option Z;
  created_at : option timestamp;
  updated_at : option timestamp
}.
End User.

Module Lead.
Record t : Type := mk {
  id : Z;
  customer_name : jstring;
  customer_email : option jstring;
  customer_phone : option jstring;
  vehicle_interest : option jstring;
  source : option jstring;
  notes : option jstring;
  priority : option jstring;
  status : option jstring;
  assigned_to : option Z;
  dealership_id : option Z;
  created_at : option timestamp;
  updated_at : option timestamp
}.
End Lead.

(** The rows are kept in insertion order; each [_id_seq] is the value the
    SERIAL column hands out next. *)
Record database : Type := mkDatabase {
  dealerships : list Dealership.t;
  dealerships_id_seq : Z;
  users : list User.t;
  users_id_seq : Z;
  leads : list Lead.t;
  leads_id_seq : Z
}.

(** The tables right after their creation. *)
Definition empty_database : database :=
  {| dealerships := []; dealerships_id_seq := 1;
     users := []; users_id_seq := 1;
     leads := []; leads_id_seq := 1 |}.

(** What [await pool.query(...)] does: it yields a result and the new
    database, or it throws and leaves the database as the failed statement
    left it (a statement that fails changes no row, but a value drawn from
    a sequence is not given back). *)
Inductive outcome (A : Type) : Type :=
| Resolved (a : A) (db : database)
| Rejected (db : database).

Arguments Resolved {A} a db.
Arguments Rejected {A} db.

Module Sql.

(** ** Input of values *)

(** A query parameter in text format; [None] is NULL ([null] and
    [undefined] are both sent as NULL by the driver). *)
Definition param := option jstring.

Definition is_nul (c : ascii) : bool := N.eqb (code c) 0.

(** A text value is refused when it holds the character of code 0. *)
Definition text_in (s : jstring) : option jstring :=
  if existsb is_nul s then None else Some s.

(** Storing into VARCHAR(n): a value of at most [n] characters is stored
    as it is; a longer one is refused, unless what exceeds is spaces only,
    which are then cut. *)
Definition varchar (n : nat) (s : jstring) : option jstring :=
  if length s <=? n then Some s
  else if forallb (is_char " ") (skipn n s) then Some (firstn n s)
  else None.

(** The outer [None] is a refusal, the inner one NULL. *)
Definition store_varchar (n : nat) (p : param) : option (option jstring) :=
  match p with
  | None => Some None
  | Some s => match text_in s with
              | None => None
              | Some s' => option_map Some (varchar n s')
              end
  end.

Definition store_text (p : param) : option (option jstring) :=
  match p with
  | None => Some None
  | Some s => option_map Some (text_in s)
  end.

Definition is_space (c : ascii) : bool :=
  is_char " " c || between 9 13 c.

Fixpoint skip_spaces (s : jstring) : jstring :=
  match s with
  | c :: s' => if is_space c then skip_spaces s' else s
  | [] => []
  end.

Definition in_int4 (z : Z) : bool :=
  (Z.leb (- 2147483648) z && Z.leb z 2147483647)%bool.

(** The value of a digit of the base: [0]-[9], then [a]-[f] in either
    case. *)
Definition digit_value (base : Z) (c : ascii) : option Z :=
  let n := Z.of_N (code c) in
  let v := if is_digit c then Some (n - 48)%Z
           else if between 97 102 c then Some (n - 87)%Z
           else if between 65 70 c then Some (n - 55)%Z
           else None in
  match v with
  | Some d => if Z.ltb d base then Some d else None
  | None => None
  end.

(** The digits of a number, as the INTEGER input of PostgreSQL 16 and later
    reads them: digits of the base, with single underscores each followed
    by a digit.  [underscore] tells whether an underscore may stand here
    (not in front of a decimal number), [seen] whether anything was read.
    The result is the value, whether anything was read, and what follows
    the digits; [None] is a misplaced underscore. *)
Fixpoint digits_in (base : Z) (underscore seen : bool) (acc : Z)
  (s : jstring) : option (Z * bool * jstring) :=
  match s with
  | [] => Some (acc, seen, [])
  | c :: s' =>
      match digit_value base c with
      | Some d => digits_in base true true (base * acc + d) s'
      | None =>
          if is_char "_" c
          then if underscore
               then match s' with
                    | c' :: _ =>
                        match digit_value base c' with
                        | Some _ => digits_in base true true acc s'
                        | None => None
                        end
                    | [] => None
                    end
               else None
          else Some (acc, seen, s)
      end
  end.

(** After the sign: [0x], [0o] or [0b] in either case and a number of that
    base, or else a decimal number. *)
Definition unsigned_in (s : jstring) : option (Z * bool * jstring) :=
  match s with
  | zero :: letter :: s' =>
      if is_char "0" zero && (is_char "x" letter || is_char "X" letter)
      then digits_in 16 true false 0 s'
      else if is_char "0" zero && (is_char "o" letter || is_char "O" letter)
      then digits_in 8 true false 0 s'
      else if is_char "0" zero && (is_char "b" letter || is_char "B" letter)
      then digits_in 2 true false 0 s'
      else digits_in 10 false false 0 s
  | _ => digits_in 10 false false 0 s
  end.

(** Input of an INTEGER from text (PostgreSQL 16 and later): blanks, a
    sign, the number with at least one digit, blanks, and the range of 32
    bits. *)
Definition int4_in (s : jstring) : option Z :=
  let number (neg : bool) (s : jstring) : option Z :=
    match unsigned_in s with
    | Some (v, true, rest) =>
        match skip_spaces rest with
        | [] => let z := if neg then (- v)%Z else v in
                if in_int4 z then Some z else None
        | _ :: _ => None
        end
    | _ => None
    end in
  match skip_spaces s with
  | c :: s' => if is_char "-" c then number true s'
               else if is_char "+" c then number false s'
               else number false (c :: s')
  | [] => None
  end.

Definition store_int4 (p : param) : option (option Z) :=
  match p with
  | None => Some None
  | Some s => option_map Some (int4_in s)
  end.

(** A number given for an INTEGER parameter: the driver writes it in
    decimal and the input reads it back, within the range of 32 bits. *)
Definition send_int4 (v : option Z) : option (option Z) :=
  match v with
  | None => Some None
  | Some z => if in_int4 z then Some (Some z) else None
  end.

(** ** Comparisons under SQL's three-valued logic, as a WHERE clause uses
    them: a comparison with NULL does not select the row. *)

Definition eq_int (column : option Z) (p : option Z) : bool :=
  match column, p with
  | Some a, Some b => Z.eqb a b
  | _, _ => false
  end.

Definition eq_text (column : option jstring) (p : option jstring) : bool :=
  match column, p with
  | Some a, Some b => jstring_eqb a b
  | _, _ => false
  end.

(** ** ORDER BY created_at DESC (NULLs first), keeping the stored order of
    rows with equal keys *)

Definition later_or_equal (a b : option timestamp) : bool :=
  match a, b with
  | None, _ => true
  | Some _, None => false
  | Some x, Some y => Z.leb y x
  end.

Fixpoint insert_desc (l : Lead.t) (sorted : list Lead.t) : list Lead.t :=
  match sorted with
  | [] => [l]
  | x :: rest =>
      if later_or_equal (Lead.created_at l) (Lead.created_at x)
      then l :: sorted
      else x :: insert_desc l rest
  end.

Definition order_by_created_at_desc (rows : list Lead.t) : list Lead.t :=
  fold_right insert_desc [] rows.

(** ** Referential checks *)

Definition dealership_exists (db : database) (d : Z) : bool :=
  existsb (fun r => Z.eqb (Dealership.id r) d) (dealerships db).

Definition user_exists (db : database) (u : Z) : bool :=
  existsb (fun r => Z.eqb (User.id r) u) (users db).

Definition lead_exists (db : database) (l : Z) : bool :=
  existsb (fun r => Z.eqb (Lead.id r) l) (leads db).

(** A foreign key column holds NULL or the key of an existing row. *)
Definition references (exists_ : Z -> bool) (v : option Z) : bool :=
  match v with
  | None => true
  | Some k => exists_ k
  end.

End Sql.

(* ================================================================== *)
(** * The statements the code issues *)
(* ================================================================== *)

Module Statements.
Import Sql.

Definition with_dealerships (db : database) (rows : list Dealership.t)
  (seq : Z) : database :=
  {| dealerships := rows; dealerships_id_seq := seq;
     users := users db; users_id_seq := users_id_seq db;
     leads := leads db; leads_id_seq := leads_id_seq db |}.

Definition with_users (db : database) (rows : list User.t) (seq : Z)
  : database :=
  {| dealerships := dealerships db;
     dealerships_id_seq := dealerships_id_seq db;
     users := rows; users_id_seq := seq;
     leads := leads db; leads_id_seq := leads_id_seq db |}.

Definition with_leads (db : database) (rows : list Lead.t) (seq : Z)
  : database :=
  {| dealerships := dealerships db;
     dealerships_id_seq := dealerships_id_seq db;
     users := users db; users_id_seq := users_id_seq db;
     leads := rows; leads_id_seq := seq |}.

(** [INSERT INTO dealerships (name, address, phone, email)
     VALUES ($1, $2, $3, $4) ON CONFLICT DO NOTHING RETURNING id].
    The table has one unique index, its primary key, and the key comes from
    the sequence: the insertion is skipped only when the key drawn is
    already taken.  The parameters are brought to the types of their
    columns first; then the key is drawn, and the row with its key goes
    through NOT NULL and the primary key. *)
Definition insert_dealership (now : timestamp)
  (name address phone email : param) (db : database) : outcome (list Z) :=
  match store_varchar 255 name, store_text address,
        store_varchar 20 phone, store_varchar 255 email with
  | Some name', Some address', Some phone', Some email' =>
      let id := dealerships_id_seq db in
      let drawn := with_dealerships db (dealerships db) (id + 1) in
      match name' with
      | None => Rejected drawn                      (* NOT NULL *)
      | Some name'' =>
          if dealership_exists db id
          then Resolved [] drawn
          else
            let row := {| Dealership.id := id;
                          Dealership.name := name'';
                          Dealership.address := address';
                          Dealership.phone := phone';
                          Dealership.email := email';
                          Dealership.created_at := Some now |} in
            Resolved [id]
              (with_dealerships db (dealerships db ++ [row]) (id + 1))
      end
  | _, _, _, _ => Rejected db
  end.

(** [SELECT id FROM dealerships LIMIT 1] *)
Definition select_first_dealership_id (db : database) : outcome (list Z) :=
  Resolved (firstn 1 (map Dealership.id (dealerships db))) db.

Definition upsert_fields (password name : jstring) (role : option jstring)
  (dealership_id : option Z) (u : User.t) : User.t :=
  {| User.id := User.id u;
     User.email := User.email u;
     User.password := password;
     User.name := name;
     User.role := role;
     User.dealership_id := dealership_id;
     User.created_at := User.created_at u;
     User.updated_at := User.updated_at u |}.

(** [INSERT INTO users (email, password, name, role, dealership_id)
     VALUES ($1, $2, $3, $4, $5)
     ON CONFLICT (email) DO UPDATE SET password = EXCLUDED.password,
       name = EXCLUDED.name, role = EXCLUDED.role,
       dealership_id = EXCLUDED.dealership_id] *)
Definition upsert_user (now : timestamp) (email password name role : param)
  (dealership_id : option Z) (db : database) : outcome unit :=
  match store_varchar 255 email, store_varchar 255 password,
        store_varchar 255 name, store_varchar 50 role,
        send_int4 dealership_id with
  | Some email', Some password', Some name', Some role',
    Some dealership_id' =>
      let id := users_id_seq db in
      let drawn := with_users db (users db) (id + 1) in
      match email', password', name' with
      | Some email'', Some password'', Some name'' =>
          if negb (references (dealership_exists db) dealership_id')
          then Rejected drawn
          else if existsb (fun u => jstring_eqb (User.email u) email'')
                    (users db)
          then
            Resolved tt
              (with_users db
                 (map (fun u => if jstring_eqb (User.email u) email''
                                then upsert_fields password'' name'' role'
                                       dealership_id' u
                                else u) (users db))
                 (id + 1))
          else if user_exists db id then Rejected drawn
          else
            let row := {| User.id := id;
                          User.email := email'';
                          User.password := password'';
                          User.name := name'';
                          User.role := role';
                          User.dealership_id := dealership_id';
                          User.created_at := Some now;
                          User.updated_at := Some now |} in
            Resolved tt (with_users db (users db ++ [row]) (id + 1))
      | _, _, _ => Rejected drawn                   (* NOT NULL *)
      end
  | _, _, _, _, _ => Rejected db
  end.

(** [SELECT id FROM users WHERE email = $1] *)
Definition select_user_id (email : jstring) (db : database)
  : outcome (list Z) :=
  Resolved
    (map User.id
       (filter (fun u => jstring_eqb (User.email u) email) (users db)))
    db.

(** A value given for a column TIMESTAMP: it is refused outside the range
    of the type. *)
Definition store_timestamp (t : timestamp) : option timestamp :=
  if in_timestamp_range t then Some t else None.

(** What [created_at] takes: the parameter given for it, or [NOW()] when
    the statement writes that or leaves the column to its default. *)
Definition created_at_value (now : timestamp) (given : option timestamp)
  : option timestamp :=
  match given with
  | Some t => store_timestamp t
  | None => Some now
  end.

(** [INSERT INTO leads (...) VALUES (...) [ON CONFLICT DO NOTHING]
     RETURNING *].  [created_at] is the parameter given for that column, if
    any.  The parameters are brought to the types of their columns first;
    then the key is drawn, and the row with its key goes through NOT NULL,
    the primary key and the foreign keys, so that a statement refused
    there has moved the sequence. *)
Definition insert_lead (on_conflict_do_nothing : bool) (now : timestamp)
  (customer_name customer_email customer_phone vehicle_interest source
   notes priority status : param)
  (assigned_to dealership_id : option Z) (created_at : option timestamp)
  (db : database) : outcome (list Lead.t) :=
  match store_varchar 255 customer_name, store_varchar 255 customer_email,
        store_varchar 20 customer_phone, store_varchar 255 vehicle_interest,
        store_varchar 100 source, store_text notes,
        store_varchar 20 priority, store_varchar 50 status,
        send_int4 assigned_to, send_int4 dealership_id,
        created_at_value now created_at with
  | Some customer_name', Some customer_email', Some customer_phone',
    Some vehicle_interest', Some source', Some notes', Some priority',
    Some status', Some assigned_to', Some dealership_id',
    Some created_at' =>
      let id := leads_id_seq db in
      let drawn := with_leads db (leads db) (id + 1) in
      match customer_name' with
      | None => Rejected drawn                      (* NOT NULL *)
      | Some customer_name'' =>
          if lead_exists db id
          then if on_conflict_do_nothing then Resolved [] drawn
               else Rejected drawn
          else if negb (references (user_exists db) assigned_to'
                        && references (dealership_exists db) dealership_id')
          then Rejected drawn
          else
            let row := {| Lead.id := id;
                          Lead.customer_name := customer_name'';
                          Lead.customer_email := customer_email';
                          Lead.customer_phone := customer_phone';
                          Lead.vehicle_interest := vehicle_interest';
                          Lead.source := source';
                          Lead.notes := notes';
                          Lead.priority := priority';
                          Lead.status := status';
                          Lead.assigned_to := assigned_to';
                          Lead.dealership_id := dealership_id';
                          Lead.created_at := Some created_at';
                          Lead.updated_at := Some now |} in
            Resolved [row] (with_leads db (leads db ++ [row]) (id + 1))
      end
  | _, _, _, _, _, _, _, _, _, _, _ => Rejected db
  end.

End Statements.

(* ================================================================== *)
(** * The seed script: [setupDatabase] *)
(* ================================================================== *)

Module Seed.
Import Sql Statements.

(** A step of the script: a query awaited in the [try] block. *)
Definition script (A : Type) : Type := database -> outcome A.

Definition ret {A : Type} (a : A) : script A := fun db => Resolved a db.

(** A JavaScript exception between two queries. *)
Definition throw {A : Type} : script A := fun db => Rejected db.

Definition then_ {A B : Type} (m : script A) (k : A -> script B) : script B :=
  fun db => match m db with
            | Resolved a db' => k a db'
            | Rejected db' => Rejected db'
            end.

Notation "x <~ m ;; k" := (then_ m (fun x => k))
  (at level 61, m at next level, right associativity).
Notation "m ;;; k" := (then_ m (fun _ => k))
  (at level 61, right associativity).

(** [CREATE TABLE IF NOT EXISTS] and [CREATE INDEX IF NOT EXISTS]: the
    tables of [database] exist, and an existing table or index is left as
    it is. *)
Definition create_if_not_exists : script unit := ret tt.

(** What the outside world answers during one run: the clock, and the two
    salted bcrypt hashes of ['password123'].  [now env k] is what [NOW()]
    answers in the INSERT number [k] of the run: 0 for the dealership, 1
    and 2 for the two users, 3 and on for the sample leads. *)
Record run_env : Type := mkEnv {
  now : nat -> timestamp;
  adminPassword : jstring;
  repPassword : jstring
}.

Record sample_lead : Type := mkSample {
  sl_name : jstring;
  sl_email : jstring;
  sl_phone : jstring;
  sl_vehicle : jstring;
  sl_source : jstring;
  sl_notes : jstring;
  sl_priority : jstring
}.

Definition sampleLeads : list sample_lead :=
  [ mkSample (str "John Smith") (str "john.smith@email.com")
      (str "(555) 123-4567") (str "Toyota Camry") (str "website")
      (str "Interested in 2024 model, financing needed") (str "high");
    mkSample (str "Sarah Johnson") (str "sarah.j@email.com")
      (str "(555) 987-6543") (str "Honda Accord") (str "email")
      (str "Looking for reliable family car") (str "medium");
    mkSample (str "Mike Wilson") (str "mike.wilson@email.com")
      (str "(555) 456-7890") (str "Ford F-150") (str "phone")
      (str "Needs truck for work, cash buyer") (str "high") ].

Definition seed_name : jstring := str "AutoClick Motors".

(** [rows[0].id]: reading [id] of a missing first row throws. *)
Definition first_id (rows : list Z) : script Z :=
  match rows with
  | id :: _ => ret id
  | [] => throw
  end.

(** [for (const lead of sampleLeads) { await pool.query(...) }], the first
    of these statements being the INSERT number [k] of the run. *)
Fixpoint insert_samples (env : run_env) (adminUserId dealershipId : Z)
  (k : nat) (samples : list sample_lead) : script unit :=
  match samples with
  | [] => ret tt
  | lead :: rest =>
      insert_lead true (now env k)
        (Some (sl_name lead)) (Some (sl_email lead)) (Some (sl_phone lead))
        (Some (sl_vehicle lead)) (Some (sl_source lead))
        (Some (sl_notes lead)) (Some (sl_priority lead)) (Some (str "new"))
        (Some adminUserId) (Some dealershipId) None ;;;
      insert_samples env adminUserId dealershipId (S k) rest
  end.

(** The [try] block. *)
Definition setup_steps (env : run_env) : script unit :=
  create_if_not_exists ;;;                          (* dealerships *)
  create_if_not_exists ;;;                          (* users *)
  create_if_not_exists ;;;                          (* leads *)
  create_if_not_exists ;;;                          (* activities *)
  create_if_not_exists ;;;                          (* email_logs *)
  dealershipResult <~
    insert_dealership (now env 0)
      (Some seed_name) (Some (str "123 Main Street, Anytown, USA"))
      (Some (str "(555) 123-4567")) (Some (str "info@autoclick.com")) ;;
  dealershipId <~
    match dealershipResult with
    | id :: _ => ret id
    | [] => existing <~ select_first_dealership_id ;; first_id existing
    end ;;
  upsert_user (now env 1)
    (Some (str "admin@autoclick.com")) (Some (adminPassword env))
    (Some (str "Admin User")) (Some (str "admin")) (Some dealershipId) ;;;
  upsert_user (now env 2)
    (Some (str "rep@autoclick.com")) (Some (repPassword env))
    (Some (str "Sales Representative")) (Some (str "sales_rep"))
    (Some dealershipId) ;;;
  adminUser <~ select_user_id (str "admin@autoclick.com") ;;
  adminUserId <~ first_id adminUser ;;
  insert_samples env adminUserId dealershipId 3 sampleLeads ;;;
  create_if_not_exists ;;;                          (* idx_leads_status *)
  create_if_not_exists ;;;                          (* idx_leads_dealership *)
  create_if_not_exists ;;;                          (* idx_leads_assigned *)
  create_if_not_exists.                             (* idx_leads_created *)

(** [try { ... } catch (error) { console.error(...) } finally
    { await pool.end() }]: the statements are not wrapped in a transaction,
    so what ran before a failure stays. *)
Definition setupDatabase (env : run_env) (db : database) : database :=
  match setup_steps env db with
  | Resolved _ db' => db'
  | Rejected db' => db'
  end.

End Seed.

(* ================================================================== *)
(** * The request handlers *)
(* ================================================================== *)

Module Handlers.
Import Sql Statements.

(** [req.user]: the payload of the verified token.  [dealership_id] is
    [None] when the payload has no such property ([undefined], which the
    driver sends as NULL). *)
Record token_payload : Type := mkPayload {
  userId : Z;
  user_email : jstring;
  role : option jstring;
  dealership_id : option Z
}.

(** The payload [POST /api/auth/login] signs:
    [{ userId: user.id, email: user.email, role: user.role }]. *)
Definition login_payload (u : User.t) : token_payload :=
  {| userId := User.id u;
     user_email := User.email u;
     role := User.role u;
     dealership_id := None |}.

Inductive json : Type :=
| JLeads (rows : list Lead.t)                   (* result.rows *)
| JLead (row : Lead.t)                          (* result.rows[0] *)
| JCreated (lead : option Lead.t)               (* { success: true, lead } *)
| JNotExtracted (message : jstring)             (* { success: false, message } *)
| JError (error : jstring).                     (* { error } *)

Record response : Type := mkResponse {
  status_code : nat;
  payload : json
}.

(** [req.user.role !== 'admin'] *)
Definition not_admin (user : token_payload) : bool :=
  match role user with
  | Some r => negb (jstring_eqb r (str "admin"))
  | None => true
  end.

(** Truthiness of a query-string parameter: present and not empty. *)
Definition truthy (p : option jstring) : bool :=
  match p with
  | Some (_ :: _) => true
  | _ => false
  end.

(** The optional [AND dealership_id = $1] of [GET /api/leads]. *)
Inductive dealership_clause : Type :=
| NoClause
| DealershipIs (p : option (option Z)).   (* refused, NULL or a key *)

(** [SELECT * FROM leads WHERE 1=1 [AND dealership_id = $1]
     [AND status = $n] ORDER BY created_at DESC]; [None] when a parameter
    is refused. *)
Definition select_leads (dealer : dealership_clause)
  (status : option jstring) (db : database) : option (list Lead.t) :=
  let dealer_test : option (Lead.t -> bool) :=
    match dealer with
    | NoClause => Some (fun _ => true)
    | DealershipIs None => None
    | DealershipIs (Some p) => Some (fun l => eq_int (Lead.dealership_id l) p)
    end in
  let status_test : option (Lead.t -> bool) :=
    match status with
    | None => Some (fun _ => true)
    | Some s => option_map (fun s' l => eq_text (Lead.status l) (Some s'))
                  (text_in s)
    end in
  match dealer_test, status_test with
  | Some by_dealer, Some by_status =>
      Some (order_by_created_at_desc
              (filter (fun l => by_dealer l && by_status l) (leads db)))
  | _, _ => None
  end.

(** [app.get('/api/leads', authenticateToken, ...)], past the token check;
    [status] and [dealership_id] are the two properties of [req.query]. *)
Definition get_leads (db : database) (user : token_payload)
  (status dealership_id_param : option jstring) : response :=
  let dealer :=
    if not_admin user then DealershipIs (Some (dealership_id user))
    else if truthy dealership_id_param
         then DealershipIs (store_int4 dealership_id_param)
         else NoClause in
  let status_clause := if truthy status then status else None in
  match select_leads dealer status_clause db with
  | Some rows => mkResponse 200 (JLeads rows)
  | None => mkResponse 500 (JError (str "Failed to get leads"))
  end.

(** The properties [PUT /api/leads/:id] reads from [req.body], as the
    parameters the driver sends. *)
Record lead_update : Type := mkUpdate {
  new_customer_name : param;
  new_customer_email : param;
  new_customer_phone : param;
  new_vehicle_interest : param;
  new_status : param;
  new_notes : param;
  new_priority : param;
  new_assigned_to : param
}.

(** [COALESCE($n, column)] *)
Definition coalesce {A : Type} (p : option A) (column : option A) : option A :=
  match p with
  | Some v => Some v
  | None => column
  end.

(** [column = COALESCE($n, column)] for a VARCHAR(n) column: a value taken
    from the parameter goes through the length rule of the column. *)
Definition set_varchar (n : nat) (p : param) (column : option jstring)
  : option (option jstring) :=
  match p with
  | Some v => option_map Some (varchar n v)
  | None => Some column
  end.

(** The SET list applied to one row; [None] when a value is refused.
    [assigned_to] is the parameter after its input as an INTEGER; a changed
    value must be the key of a user. *)
Definition updated_row (now : timestamp) (b : lead_update)
  (assigned_to : option Z) (db : database) (l : Lead.t) : option Lead.t :=
  match set_varchar 255 (new_customer_name b) (Some (Lead.customer_name l)),
        set_varchar 255 (new_customer_email b) (Lead.customer_email l),
        set_varchar 20 (new_customer_phone b) (Lead.customer_phone l),
        set_varchar 255 (new_vehicle_interest b) (Lead.vehicle_interest l),
        set_varchar 50 (new_status b) (Lead.status l),
        set_varchar 20 (new_priority b) (Lead.priority l) with
  | Some (Some customer_name'), Some customer_email', Some customer_phone',
    Some vehicle_interest', Some status', Some priority' =>
      let assigned' := coalesce assigned_to (Lead.assigned_to l) in
      if match assigned_to with
         | Some u => negb (eq_int (Lead.assigned_to l) (Some u))
                     && negb (user_exists db u)
         | None => false
         end
      then None
      else Some {| Lead.id := Lead.id l;
                   Lead.customer_name := customer_name';
                   Lead.customer_email := customer_email';
                   Lead.customer_phone := customer_phone';
                   Lead.vehicle_interest := vehicle_interest';
                   Lead.source := Lead.source l;
                   Lead.notes := coalesce (new_notes b) (Lead.notes l);
                   Lead.priority := priority';
                   Lead.status := status';
                   Lead.assigned_to := assigned';
                   Lead.dealership_id := Lead.dealership_id l;
                   Lead.created_at := Lead.created_at l;
                   Lead.updated_at := Some now |}
  | _, _, _, _, _, _ => None
  end.

(** [WHERE id = $9 AND dealership_id = $10] *)
Definition in_scope (id : Z) (dealer : option Z) (l : Lead.t) : bool :=
  Z.eqb (Lead.id l) id && eq_int (Lead.dealership_id l) dealer.

(** The rows of the table after the update and the rows RETURNING gives;
    [None] when some selected row cannot take its new values. *)
Fixpoint update_rows (now : timestamp) (b : lead_update)
  (assigned_to : option Z) (id : Z) (dealer : option Z) (db : database)
  (rows : list Lead.t) : option (list Lead.t * list Lead.t) :=
  match rows with
  | [] => Some ([], [])
  | l :: rest =>
      match update_rows now b assigned_to id dealer db rest with
      | None => None
      | Some (table, returned) =>
          if in_scope id dealer l
          then match updated_row now b assigned_to db l with
               | Some l' => Some (l' :: table, l' :: returned)
               | None => None
               end
          else Some (l :: table, returned)
      end
  end.

(** A parameter the statement takes. *)
Definition accepted {A : Type} (stored : option A) : bool :=
  match stored with
  | Some _ => true
  | None => false
  end.

(** The text parameters of the SET list, each brought to the type of the
    column it is assigned to. *)
Definition text_parameters_accepted (b : lead_update) : bool :=
  accepted (store_varchar 255 (new_customer_name b))
  && accepted (store_varchar 255 (new_customer_email b))
  && accepted (store_varchar 20 (new_customer_phone b))
  && accepted (store_varchar 255 (new_vehicle_interest b))
  && accepted (store_varchar 50 (new_status b))
  && accepted (store_text (new_notes b))
  && accepted (store_varchar 20 (new_priority b)).

(** [UPDATE leads SET ... WHERE id = $9 AND dealership_id = $10
     RETURNING *]: the parameters are read and brought to the types of
    their columns when the statement is prepared (the text ones must be
    acceptable text that fits its column, [$8], [$9] and [$10] integers),
    so that a refused parameter fails the statement whether or not a row
    is selected; then the rows are updated. *)
Definition update_lead (now : timestamp) (b : lead_update) (id : jstring)
  (dealer : option Z) (db : database) : outcome (list Lead.t) :=
  if negb (text_parameters_accepted b)
  then Rejected db
  else
    match store_int4 (new_assigned_to b), int4_in id, send_int4 dealer with
    | Some assigned_to, Some id', Some dealer' =>
        match update_rows now b assigned_to id' dealer' db (leads db) with
        | Some (table, returned) =>
            Resolved returned (with_leads db table (leads_id_seq db))
        | None => Rejected db
        end
    | _, _, _ => Rejected db
    end.

(** [app.put('/api/leads/:id', authenticateToken, ...)], past the token
    check; [now] is the value of [NOW()]. *)
Definition put_lead (now : timestamp) (db : database) (user : token_payload)
  (id : jstring) (b : lead_update) : response * database :=
  match update_lead now b id (dealership_id user) db with
  | Resolved [] db' => (mkResponse 404 (JError (str "Lead not found")), db')
  | Resolved (row :: _) db' => (mkResponse 200 (JLead row), db')
  | Rejected db' => (mkResponse 500 (JError (str "Failed to update lead")), db')
  end.

(** [req.body] of [POST /api/process-email].  [receivedDate] is the number
    of milliseconds from 1970-01-01 00:00:00 that [new Date(receivedDate)]
    is made from; [None] when there is none, as for a missing
    [receivedDate] or a text that is no date, which give an Invalid
    Date. *)
Record email_request : Type := mkEmail {
  from : value;
  subject : value;
  body : value;
  receivedDate : option Z
}.

(** The time value of a [Date]: a number of milliseconds beyond
    8.64e15 on either side gives an Invalid Date. *)
Definition time_clip (ms : Z) : option Z :=
  if Z.leb (Z.abs ms) 8640000000000000 then Some ms else None.

(** [new Date(receivedDate)] as the parameter the driver sends, a point in
    time written to the millisecond; [None] for an Invalid Date, which the
    driver writes as a text that is no timestamp. *)
Definition date_parameter (received : option Z) : option timestamp :=
  match received with
  | Some ms => option_map (Z.mul 1000) (time_clip ms)
  | None => None
  end.

(** [app.post('/api/process-email', ...)]; the route has no token check. *)
Definition process_email (now : timestamp) (db : database)
  (req : email_request) : response * database :=
  let failed := mkResponse 500 (JError (str "Failed to process email")) in
  match extractLeadFromEmail (from req) (subject req) (body req) with
  | Throw _ => (failed, db)
  | Normal None =>
      (mkResponse 400
         (JNotExtracted (str "Could not extract lead information from email")),
       db)
  | Normal (Some leadData) =>
      match date_parameter (receivedDate req) with
      | None => (failed, db)               (* the date is not valid input *)
      | Some date =>
          match insert_lead false now
                  (Some (name leadData)) (email leadData) (phone leadData)
                  (Some (vehicle leadData)) (Some (str "email"))
                  (Some (notes leadData)) (Some (str "medium"))
                  (Some (str "new")) None (Some 1%Z) (Some date) db with
          | Resolved rows db' =>
              (mkResponse 201 (JCreated (hd_error rows)), db')
          | Rejected db' => (failed, db')
          end
      end
  end.

End Handlers.

(* ================================================================== *)
(** * The token check, login, profile, lead creation and analytics *)
(* ================================================================== *)

Module Routes.
Import Sql Statements Handlers.

(** What [authenticateToken] does with a request: it answers with a bare
    status, or hands the request over with [req.user] set. *)
Inductive auth_outcome : Type :=
| SendStatus (code : nat)
| Next (user : token_payload).

(** The columns of a user that login and profile answer with. *)
Record public_user : Type := mkPublic {
  pu_id : Z;
  pu_email : jstring;
  pu_name : jstring;
  pu_role : option jstring;
  pu_dealership_id : option Z
}.

Definition public (u : User.t) : public_user :=
  {| pu_id := User.id u;
     pu_email := User.email u;
     pu_name := User.name u;
     pu_role := User.role u;
     pu_dealership_id := User.dealership_id u |}.

(** [req.body] of [POST /api/auth/login]: each property is a string, or
    [None] when it is missing or [null]. *)
Record login_request : Type := mkLogin {
  login_email : option jstring;
  login_password : option jstring
}.

Inductive login_reply : Type :=
| LoginOk (token : jstring) (user : public_user)   (* 200 { token, user } *)
| LoginRefused                        (* 401 { error: 'Invalid credentials' } *)
| LoginFailed.                        (* 500 { error: 'Login failed' } *)

Definition login_status (r : login_reply) : nat :=
  match r with
  | LoginOk _ _ => 200
  | LoginRefused => 401
  | LoginFailed => 500
  end.

(** [SELECT * FROM users WHERE email = $1]; [None] when the parameter is
    refused. *)
Definition select_users_by_email (email : param) (db : database)
  : option (list User.t) :=
  match store_text email with
  | None => None
  | Some None => Some []
  | Some (Some e) =>
      Some (filter (fun u => jstring_eqb (User.email u) e) (users db))
  end.


Section WithLibraries.

(** The two libraries, with the server's secret and at the time of the
    request: [jwt.verify] gives the payload of a token it accepts,
    [jwt.sign] the token for a payload, [bcrypt.compare] whether a password
    matches a stored hash. *)
Variable jwt_verify : jstring -> option token_payload.
Variable jwt_sign : token_payload -> jstring.
Variable bcrypt_compare : jstring -> jstring -> bool.

(** [authHeader && authHeader.split(' ')[1]]: [None] is [undefined]. *)
Definition bearer_token (authHeader : option jstring) : option jstring :=
  match authHeader with
  | None => None
  | Some [] => Some []
  | Some h => nth_error (split " " h) 1
  end.

(** [authenticateToken]; [authHeader] is [req.headers['authorization']]. *)
Definition authenticateToken (authHeader : option jstring) : auth_outcome :=
  match bearer_token authHeader with
  | None => SendStatus 401
  | Some [] => SendStatus 401
  | Some token =>
      match jwt_verify token with
      | None => SendStatus 403
      | Some user => Next user
      end
  end.

(** [app.post('/api/auth/login', ...)].  [bcrypt.compare] is reached only
    when a user was found, and rejects a password that is not a string. *)
Definition login (db : database) (req : login_request) : login_reply :=
  match select_users_by_email (login_email req) db with
  | None => LoginFailed
  | Some [] => LoginRefused
  | Some (user :: _) =>
      match login_password req with
      | None => LoginFailed
      | Some password =>
          if bcrypt_compare password (User.password user)
          then LoginOk (jwt_sign (login_payload user)) (public user)
          else LoginRefused
      end
  end.

End WithLibraries.


(** The properties [POST /api/leads] reads from [req.body]: each is a
    string, or [None] when it is missing or [null]. *)
Record lead_input : Type := mkInput {
  in_customer_name : option jstring;
  in_customer_email : option jstring;
  in_customer_phone : option jstring;
  in_vehicle_interest : option jstring;
  in_source : option jstring;
  in_notes : option jstring;
  in_priority : option jstring
}.

(** [priority || 'medium'] *)
Definition priority_or_medium (priority : option jstring) : jstring :=
  match priority with
  | Some (c :: p) => c :: p
  | _ => str "medium"
  end.

Inductive create_reply : Type :=
| Created (row : option Lead.t)       (* 201 result.rows[0] *)
| CreateFailed.                       (* 500 { error: 'Failed to create lead' } *)

(** [app.post('/api/leads', authenticateToken, ...)], past the token
    check; [now] is the value of [NOW()]. *)
Definition create_lead (now : timestamp) (db : database)
  (user : token_payload) (b : lead_input) : create_reply * database :=
  match insert_lead false now
          (in_customer_name b) (in_customer_email b) (in_customer_phone b)
          (in_vehicle_interest b) (in_source b) (in_notes b)
          (Some (priority_or_medium (in_priority b))) (Some (str "new"))
          (Some (userId user)) (dealership_id user) None db with
  | Resolved rows db' => (Created (hd_error rows), db')
  | Rejected db' => (CreateFailed, db')
  end.










End Routes.

(* ================================================================== *)
(** * The vocabulary of the extractor's specification *)
(* ================================================================== *)

Module ExtractSpec.

(** [v] occurs in [s] as a run of consecutive characters. *)
Definition occurs_in (v s : jstring) : Prop :=
  exists pre post, s = pre ++ v ++ post.

(** The keyword [k] (lower case) occurs in [s] up to letter case. *)
Definition occurs_ci (k s : jstring) : Prop :=
  exists pre w post, s = pre ++ w ++ post /\ toLowerCase w = k.

(** [k] is the first entry of the vocabulary, in its order, for which [occ]
    holds. *)
Definition first_keyword (occ : jstring -> Prop) (k : jstring) : Prop :=
  exists before after,
    vehicles = before ++ k :: after /\ occ k /\
    forall k', In k' before -> ~ occ k'.

Definition is_string (v : value) : Prop := exists s, v = VString s.

(** The last character of a text, if it has one. *)
Definition last_char (w : jstring) : option ascii := prev_after None w.

(** A word boundary lies between [left] and [right]: exactly one of the two
    characters around the junction is a word character. *)
Definition word_boundary (left right : jstring) : Prop :=
  at_boundary (last_char left) right = true.

Definition all_in (p : ascii -> bool) (w : jstring) : Prop :=
  Forall (fun c => p c = true) w.

Definition digits (n : nat) (w : jstring) : Prop :=
  length w = n /\ all_in is_digit w.

(** Nothing, a dot or a hyphen. *)
Definition separator (w : jstring) : Prop :=
  w = [] \/ exists c, w = [c] /\ is_sep c = true.

(** 3 digits, optional dot or hyphen, 3 digits, optional dot or hyphen,
    4 digits. *)
Definition phone_shape (tok : jstring) : Prop :=
  exists a s1 b s2 c,
    tok = a ++ s1 ++ b ++ s2 ++ c /\
    digits 3 a /\ separator s1 /\ digits 3 b /\ separator s2 /\ digits 4 c.

(** [tok] is a phone token of [body] starting at offset [i], at word
    boundaries on both sides. *)
Definition phone_at (body : jstring) (i : nat) (tok : jstring) : Prop :=
  exists pre post,
    body = pre ++ tok ++ post /\ length pre = i /\ phone_shape tok /\
    word_boundary pre (tok ++ post) /\ word_boundary (pre ++ tok) post.

Definition is_letter (c : ascii) : bool := is_upper c || is_lower c.

(** The email pattern as the specification words it: local part, [@],
    domain, a dot, and a top-level domain of at least two letters. *)
Definition spec_email_pattern : regex :=
  Cat (Many 1 local_char)
   (Cat (Class (is_char "@"))
     (Cat (Many 1 domain_char)
       (Cat (Class (is_char "."))
         (Many 2 is_letter)))).

(** [s] holds, somewhere, a token of the pattern [r]. *)
Definition has_token (r : regex) (s : jstring) : Prop :=
  exists pre suf q, s = pre ++ suf /\ Matches r (last_char pre, suf) q.

(** [tok] is a match of [r] in [s] at offset [i]. *)
Definition token_at (r : regex) (s : jstring) (i : nat) (tok : jstring)
  : Prop :=
  exists pre post,
    s = pre ++ tok ++ post /\ length pre = i /\
    Matches r (last_char pre, tok ++ post) (prev_after (last_char pre) tok, post).

(** A pattern that leaves the matcher no choice: at each position it has
    at most one match. *)
Definition at_most_one (r : regex) : Prop :=
  forall prev s, length (run r prev s) <= 1.

(** The test the callback of [find] performs once both texts are known to
    be strings. *)
Definition mentions (body subject v : jstring) : bool :=
  includes (toLowerCase body) v || includes (toLowerCase subject) v.

(** [local] is the part of the sender before its first [@] (all of it
    when it has none). *)
Definition local_part (sender local : jstring) : Prop :=
  exists rest,
    sender = local ++ rest /\ ~ In "@"%char local /\
    (rest = [] \/ exists t, rest = "@"%char :: t).

(** The text of the notes for a subject and a body prefix. *)
Definition notes_text (subject prefix : jstring) : jstring :=
  str "Email Subject: " ++ subject ++ [newline; newline]
  ++ str "Email Body: " ++ prefix ++ str "...".

End ExtractSpec.

(* ================================================================== *)
(** * The vocabulary of the claims about the database *)
(* ================================================================== *)

Module DbSpec.
Import Sql Statements Seed Handlers.

(** The rows of [dealerships] that carry the seed name. *)
Definition seed_dealerships (db : database) : list Dealership.t :=
  filter (fun d => jstring_eqb (Dealership.name d) seed_name) (dealerships db).

(** The state of a SERIAL column nobody wrote by hand: every stored key was
    drawn from the sequence. *)
Definition dealership_keys_drawn (db : database) : Prop :=
  forall d, In d (dealerships db) ->
            (Dealership.id d < dealerships_id_seq db)%Z.

Definition same_dealerships (db db' : database) : Prop :=
  dealerships db' = dealerships db /\
  dealerships_id_seq db' = dealerships_id_seq db.

(** The database a step ends with, whether it resolved or threw. *)
Definition after {A : Type} (o : outcome A) : database :=
  match o with
  | Resolved _ db => db
  | Rejected db => db
  end.

(** A step that leaves the table [dealerships] and its sequence alone. *)
Definition keeps_dealerships {A : Type} (m : script A) : Prop :=
  forall db, same_dealerships db (after (m db)).

(** A step that leaves the table [users] alone. *)
Definition keeps_users {A : Type} (m : script A) : Prop :=
  forall db, users (after (m db)) = users db.

(** The row the seed script inserts into [dealerships]. *)
Definition seed_dealership (now : timestamp) (id : Z) : Dealership.t :=
  {| Dealership.id := id;
     Dealership.name := seed_name;
     Dealership.address := Some (str "123 Main Street, Anytown, USA");
     Dealership.phone := Some (str "(555) 123-4567");
     Dealership.email := Some (str "info@autoclick.com");
     Dealership.created_at := Some now |}.

(** Two runs of the clock and of bcrypt, for the examples: each INSERT of
    a run comes ten microseconds after the one before. *)
Definition first_run : run_env :=
  mkEnv (fun k => 1000 + 10 * Z.of_nat k)%Z
    (str "$2a$10$first.run.admin") (str "$2a$10$first.run.rep").
Definition second_run : run_env :=
  mkEnv (fun k => 2000 + 10 * Z.of_nat k)%Z
    (str "$2a$10$second.run.admin") (str "$2a$10$second.run.rep").

(** The database after one run of the seed script on fresh tables. *)
Definition seeded : database := setupDatabase first_run empty_database.

(** A sales representative of dealership 1, as a token that carries the
    dealership would describe them. *)
Definition demo_rep : token_payload :=
  mkPayload 2 (str "rep@autoclick.com") (Some (str "sales_rep")) (Some 1%Z).

(** A request to [POST /api/process-email] from the given sender. *)
Definition enquiry (sender : value) (received : option Z)
  : email_request :=
  mkEmail sender (VString (str "Enquiry")) (VString (str "A Toyota, please"))
    received.

(** A sender of 256 characters. *)
Definition long_sender : jstring := repeat "a"%char 256.

(** A lead as [PUT /api/leads/:id] relates it to its stored state: every
    column the request can set holds the supplied value (cut to the column
    when only spaces exceed) or, when none is supplied, the stored value;
    [updated_at] is the time of the update; no other column moves. *)
Definition set_or_kept (n : nat) (supplied : param)
  (stored new : option jstring) : Prop :=
  match supplied with
  | Some v => exists v', varchar n v = Some v' /\ new = Some v'
  | None => new = stored
  end.

Definition updated_from (now : timestamp) (b : lead_update)
  (assigned_to : option Z) (l l' : Lead.t) : Prop :=
  Lead.id l' = Lead.id l /\
  set_or_kept 255 (new_customer_name b)
    (Some (Lead.customer_name l)) (Some (Lead.customer_name l')) /\
  set_or_kept 255 (new_customer_email b)
    (Lead.customer_email l) (Lead.customer_email l') /\
  set_or_kept 20 (new_customer_phone b)
    (Lead.customer_phone l) (Lead.customer_phone l') /\
  set_or_kept 255 (new_vehicle_interest b)
    (Lead.vehicle_interest l) (Lead.vehicle_interest l') /\
  set_or_kept 50 (new_status b) (Lead.status l) (Lead.status l') /\
  Lead.notes l' = coalesce (new_notes b) (Lead.notes l) /\
  set_or_kept 20 (new_priority b) (Lead.priority l) (Lead.priority l') /\
  Lead.assigned_to l' = coalesce assigned_to (Lead.assigned_to l) /\
  Lead.source l' = Lead.source l /\
  Lead.dealership_id l' = Lead.dealership_id l /\
  Lead.created_at l' = Lead.created_at l /\
  Lead.updated_at l' = Some now.

(** Row by row: a lead outside the scope of the request is as it was, a
    lead inside it is updated. *)
Definition updated_in_scope (now : timestamp) (b : lead_update)
  (assigned_to : option Z) (id : Z) (dealer : option Z)
  (l l' : Lead.t) : Prop :=
  if in_scope id dealer l then updated_from now b assigned_to l l'
  else l' = l.





(** A number of the payload that an INTEGER parameter takes. *)
Definition is_integer (v : option Z) : Prop :=
  forall z, v = Some z -> (- 2147483648 <= z <= 2147483647)%Z.

(** A received date, in milliseconds from 1970-01-01, that a column
    TIMESTAMP takes: not before 4714-11-24 BC, and not after the last
    instant a JavaScript [Date] has. *)
Definition date_storable (ms : Z) : Prop :=
  (- 210866803200000 <= ms <= 8640000000000000)%Z.

(** The candidate's texts are acceptable to the columns they go to. *)
Definition candidate_fits (r : LeadData) : Prop :=
  store_varchar 255 (Some (name r)) <> None /\
  store_varchar 255 (email r) <> None /\
  store_varchar 20 (phone r) <> None /\
  store_varchar 255 (Some (vehicle r)) <> None /\
  store_text (Some (notes r)) <> None.

End DbSpec.

(* ================================================================== *)
(** * The vocabulary of the further properties *)
(* ================================================================== *)

Module RouteSpec.
Import Sql Statements Seed Handlers Routes ExtractSpec DbSpec.

(** [word] is the second of the pieces of [header] that single spaces
    separate, and it is not empty. *)
Definition second_word (header word : jstring) : Prop :=
  exists first rest,
    header = first ++ " "%char :: word ++ rest /\
    ~ In " "%char first /\ ~ In " "%char word /\ word <> [] /\
    (rest = [] \/ exists r, rest = " "%char :: r).

(** No two users share an email (the UNIQUE constraint of the column). *)
Definition emails_unique (db : database) : Prop :=
  NoDup (map User.email (users db)).

(** The unique constraints of the table [users]: no two rows share a key,
    no two share an email. *)
Definition users_unique (db : database) : Prop :=
  NoDup (map User.id (users db)) /\ NoDup (map User.email (users db)).

(** A property of the database that a step keeps, whether it resolves or
    throws. *)
Definition preserves {A : Type} (P : database -> Prop) (m : script A)
  : Prop :=
  forall db, P db -> P (after (m db)).

(** Every stored lead key was drawn from the sequence. *)
Definition lead_keys_drawn (db : database) : Prop :=
  forall l, In l (leads db) -> (Lead.id l < leads_id_seq db)%Z.

(** Every stored user key was drawn from the sequence. *)
Definition user_keys_drawn (db : database) : Prop :=
  forall u, In u (users db) -> (User.id u < users_id_seq db)%Z.

(** The rows are in the order of ORDER BY created_at DESC: each row is at
    least as recent as every row after it (a NULL date counting as the most
    recent). *)
Definition newest_first (rows : list Lead.t) : Prop :=
  ForallOrdPairs
    (fun a b => later_or_equal (Lead.created_at a) (Lead.created_at b) = true)
    rows.

(** A toy signature scheme for the examples: the token is the text [tok.]
    followed by the email of the payload, and only the token of the demo
    sales representative verifies. *)
Definition toy_sign (p : token_payload) : jstring :=
  str "tok." ++ user_email p.

Definition demo_rep_user : User.t :=
  {| User.id := 2;
     User.email := str "rep@autoclick.com";
     User.password := repPassword first_run;
     User.name := str "Sales Representative";
     User.role := Some (str "sales_rep");
     User.dealership_id := Some 1%Z;
     User.created_at := Some 1020%Z;
     User.updated_at := Some 1020%Z |}.

Definition toy_verify (token : jstring) : option token_payload :=
  if jstring_eqb token (toy_sign (login_payload demo_rep_user))
  then Some (login_payload demo_rep_user)
  else None.

(** A password check for the examples: the stored hash of the first run
    matches the password [password123] only. *)
Definition toy_compare (password hash : jstring) : bool :=
  jstring_eqb password (str "password123")
  && jstring_eqb hash (repPassword first_run).

(** A text with no character of code 0. *)
Definition nul_free (s : jstring) : Prop := existsb is_nul s = false.







Definition nameless_lead : lead_input :=
  mkInput None None None None None None None.

(** Tables in which a dealership was stored under key 1 by hand, the
    sequence still standing at 1. *)
Definition hand_keyed : database :=
  with_dealerships empty_database [seed_dealership 0 1] 1.

End RouteSpec.

(* ================================================================== *)
(** * The shape of the texts the extractor returns *)
(* ================================================================== *)

Module FieldSpec.
Import ExtractSpec.

(** The email literal, read piece by piece: one or more characters of the
    local class, [@], one or more of the domain class, a dot, two or more
    of the class [[A-Z|a-z]]. *)
Definition email_shape (tok : jstring) : Prop :=
  exists l d t,
    tok = l ++ "@"%char :: d ++ "."%char :: t /\
    1 <= length l /\ all_in local_char l /\
    1 <= length d /\ all_in domain_char d /\
    2 <= length t /\ all_in tld_char t.

(** [tok] is a match of the email literal in [sender] at offset [i],
    between two word boundaries. *)
Definition email_at (sender : jstring) (i : nat) (tok : jstring) : Prop :=
  exists pre post,
    sender = pre ++ tok ++ post /\ length pre = i /\ email_shape tok /\
    word_boundary pre (tok ++ post) /\ word_boundary (pre ++ tok) post.

End FieldSpec.
(* ================================================================== *)
(** * What the regular-expression engine computes *)
(* ================================================================== *)

Module RegexFacts.

#[local] Hint Constructors Matches : core.

Lemma exactly_Matches n p : forall prev s q,
  In q (exactly n p prev s) <-> Matches (Exactly n p) (prev, s) q.
Proof.
  induction n as [|n IH]; intros prev s q; simpl.
  - split.
    + intros [<-|[]]. constructor.
    + intros H. inversion H; subst. now left.
  - destruct s as [|c s].
    + split; [intros [] | intros H; inversion H].
    + destruct (p c) eqn:E.
      * rewrite IH. split; intros H.
        -- now constructor.
        -- now inversion H; subst.
      * split; [intros [] | intros H; inversion H; congruence].
Qed.

Lemma many_Matches p : forall s min prev q,
  In q (many min p prev s) <-> Matches (Many min p) (prev, s) q.
Proof.
  induction s as [|c s IH]; intros min prev q.
  - simpl. destruct min; simpl.
    + split.
      * intros [<-|[]]. constructor.
      * intros H. inversion H; subst. now left.
    + split; [intros [] | intros H; inversion H].
  - simpl. destruct (p c) eqn:E.
    + rewrite in_app_iff, IH. split.
      * intros [H|H]; [now constructor|].
        destruct min; simpl in H; [|contradiction].
        destruct H as [<-|[]]. constructor.
      * intros H. inversion H; subst; [right; now left | now left].
    + split.
      * destruct min; simpl; [|contradiction].
        intros [<-|[]]. constructor.
      * intros H. inversion H; subst; [now left | congruence].
Qed.

(** The engine enumerates exactly the matches of the pattern. *)
Lemma run_Matches r : forall prev s q,
  In q (run r prev s) <-> Matches r (prev, s) q.
Proof.
  induction r as [p| |n p|min p|p|r1 IH1 r2 IH2]; intros prev s q.
  - simpl. destruct s as [|c s].
    + split; [intros [] | intros H; inversion H].
    + destruct (p c) eqn:E.
      * split.
        -- intros [<-|[]]. now constructor.
        -- intros H. inversion H; subst. now left.
      * split; [intros [] | intros H; inversion H; congruence].
  - simpl. destruct (at_boundary prev s) eqn:E.
    + split.
      * intros [<-|[]]. now constructor.
      * intros H. inversion H; subst. now left.
    + split; [intros [] | intros H; inversion H; congruence].
  - apply exactly_Matches.
  - apply many_Matches.
  - simpl. destruct s as [|c s].
    + split.
      * intros [<-|[]]. constructor.
      * intros H. inversion H; subst. now left.
    + destruct (p c) eqn:E.
      * split.
        -- intros [<-|[<-|[]]]; [now constructor | constructor].
        -- intros H. inversion H; subst; [now left | right; now left].
      * split.
        -- intros [<-|[]]. constructor.
        -- intros H. inversion H; subst; [congruence | now left].
  - simpl. rewrite in_flat_map. split.
    + intros [[pm sm] [H1 H2]]. simpl in H2.
      apply IH1 in H1. apply IH2 in H2. econstructor; eauto.
    + intros H. inversion H; subst. destruct m as [pm sm].
      exists (pm, sm). split; [now apply IH1 | now apply IH2].
Qed.

Lemma prev_after_cons prev c w :
  prev_after prev (c :: w) = prev_after (Some c) w.
Proof.
  unfold prev_after. revert prev c.
  induction w as [|d w IH]; intros prev c; [reflexivity|].
  change (last (map Some (c :: d :: w)) prev)
    with (last (map Some (d :: w)) prev).
  rewrite IH. symmetry. apply IH.
Qed.

Lemma prev_after_app prev u w :
  prev_after prev (u ++ w) = prev_after (prev_after prev u) w.
Proof.
  revert prev. induction u as [|c u IH]; intros prev; [reflexivity|].
  simpl app. now rewrite !prev_after_cons, IH.
Qed.

Lemma prev_after_nonempty prev prev' w :
  w <> [] -> prev_after prev w = prev_after prev' w.
Proof.
  destruct w as [|c w]; [congruence|]. intros _.
  now rewrite !prev_after_cons.
Qed.

(** A match consumes a prefix of what lies ahead. *)
Lemma Matches_consumes r p q :
  Matches r p q ->
  exists w, snd p = w ++ snd q /\ fst q = prev_after (fst p) w.
Proof.
  induction 1; simpl in *;
    try (exists []; split; reflexivity);
    try (exists [c]; split; reflexivity).
  - destruct IHMatches as (w & -> & ->). exists (c :: w).
    split; [reflexivity | now rewrite prev_after_cons].
  - destruct IHMatches as (w & -> & ->). exists (c :: w).
    split; [reflexivity | now rewrite prev_after_cons].
  - destruct IHMatches1 as (w1 & E1 & F1), IHMatches2 as (w2 & E2 & F2).
    exists (w1 ++ w2). rewrite E1, E2, F2, F1, prev_after_app.
    split; [now rewrite app_assoc | reflexivity].
Qed.

Lemma firstn_consumed (w rest : jstring) :
  firstn (length (w ++ rest) - length rest) (w ++ rest) = w.
Proof.
  rewrite length_app, Nat.add_sub, firstn_app, Nat.sub_diag, firstn_all.
  simpl. apply app_nil_r.
Qed.

(** What [match_here] answers: the text consumed by the first match tried. *)
Lemma match_here_Some r prev s m :
  match_here r prev s = Some m ->
  exists rest, s = m ++ rest /\ Matches r (prev, s) (prev_after prev m, rest).
Proof.
  unfold match_here. destruct (run r prev s) as [|[p' rest] l] eqn:E; [discriminate|].
  intros [= <-].
  assert (M : Matches r (prev, s) (p', rest))
    by (apply run_Matches; rewrite E; now left).
  destruct (Matches_consumes _ _ _ M) as (w & Hw & Hp). simpl in Hw, Hp. subst s p'.
  rewrite firstn_consumed. eauto.
Qed.

Lemma match_here_None r prev s :
  match_here r prev s = None <-> forall q, ~ Matches r (prev, s) q.
Proof.
  unfold match_here. split.
  - destruct (run r prev s) as [|[p' rest] l] eqn:E; [|discriminate].
    intros _ q M. apply run_Matches in M. now rewrite E in M.
  - intros H. destruct (run r prev s) as [|[p' rest] l] eqn:E; [reflexivity|].
    exfalso. apply (H (p', rest)), run_Matches. rewrite E. now left.
Qed.

(** [exec_from] answers with a match at the leftmost position that has
    one, and with nothing only when no position has one. *)
Lemma exec_from_Some r : forall s prev m,
  exec_from r prev s = Some m ->
  exists pre suf,
    s = pre ++ suf /\
    match_here r (prev_after prev pre) suf = Some m /\
    forall pre' suf', s = pre' ++ suf' -> length pre' < length pre ->
      match_here r (prev_after prev pre') suf' = None.
Proof.
  induction s as [|c s IH]; intros prev m; simpl.
  - destruct (match_here r prev []) eqn:E; [|discriminate].
    intros [= <-]. exists [], []. repeat split; auto.
    intros pre' suf' _ L. simpl in L. lia.
  - destruct (match_here r prev (c :: s)) eqn:E.
    + intros [= <-]. exists [], (c :: s). repeat split; auto.
      intros pre' suf' _ L. simpl in L. lia.
    + intros H. destruct (IH _ _ H) as (pre & suf & -> & Hm & Hmin).
      exists (c :: pre), suf. rewrite prev_after_cons. repeat split; auto.
      intros [|c' pre'] suf' Eq L.
      * simpl in Eq. subst suf'. exact E.
      * simpl in Eq. injection Eq as <- Eq. rewrite prev_after_cons.
        apply Hmin; [exact Eq | simpl in L; lia].
Qed.

Lemma exec_from_None r : forall s prev,
  exec_from r prev s = None ->
  forall pre suf, s = pre ++ suf ->
    match_here r (prev_after prev pre) suf = None.
Proof.
  induction s as [|c s IH]; intros prev; simpl.
  - destruct (match_here r prev []) eqn:E; [discriminate|].
    intros _ [|c pre] suf Eq; [|discriminate]. simpl in Eq. now subst.
  - destruct (match_here r prev (c :: s)) eqn:E; [discriminate|].
    intros H [|c' pre] suf Eq.
    + simpl in Eq. now subst.
    + simpl in Eq. injection Eq as <- Eq. rewrite prev_after_cons.
      now apply IH.
Qed.

End RegexFacts.

(* ================================================================== *)
(** * The extractor on strings *)
(* ================================================================== *)

Module ExtractFacts.
Import RegexFacts ExtractSpec.

Lemma startsWith_spec v : forall s,
  startsWith v s = true <-> exists post, s = v ++ post.
Proof.
  induction v as [|a v IH]; intros s; simpl.
  - split; [intros _; now exists s | reflexivity].
  - destruct s as [|b s].
    + split; [discriminate | intros [post E]; discriminate].
    + rewrite andb_true_iff, Ascii.eqb_eq, IH. split.
      * intros [-> [post ->]]. now exists post.
      * intros [post E]. injection E as -> ->. split; [reflexivity | now exists post].
Qed.

Lemma includes_spec v : forall s, includes s v = true <-> occurs_in v s.
Proof.
  unfold occurs_in. induction s as [|c s IH].
  - simpl. rewrite orb_false_r, startsWith_spec. split.
    + intros [post E]. now exists [], post.
    + intros ([|c pre] & post & E); [now exists post | discriminate].
  - simpl. rewrite orb_true_iff, startsWith_spec, IH. split.
    + intros [[post E] | (pre & post & E)].
      * now exists [], post.
      * exists (c :: pre), post. simpl. now rewrite E.
    + intros ([|c' pre] & post & E).
      * left. now exists post.
      * right. injection E as <- E. now exists pre, post.
Qed.

(** Lower-casing works character by character, so a keyword found in the
    lower-cased text is a keyword present up to case, and conversely. *)
Lemma occurs_ci_lower k s : occurs_in k (toLowerCase s) <-> occurs_ci k s.
Proof.
  unfold occurs_in, occurs_ci, toLowerCase. split.
  - intros (pre & post & E).
    apply map_eq_app in E. destruct E as (pre' & rest & -> & <- & E).
    apply map_eq_app in E. destruct E as (w & post' & -> & <- & <-).
    now exists pre', w, post'.
  - intros (pre & w & post & -> & <-).
    exists (map lower_char pre), (map lower_char post).
    now rewrite !map_app.
Qed.

Lemma includes_lower k s :
  includes (toLowerCase s) k = true <-> occurs_ci k s.
Proof. now rewrite includes_spec, occurs_ci_lower. Qed.

Lemma Normal_Some_inj (A : Type) (a b : A) :
  Normal (Some a) = Normal (Some b) -> a = b.
Proof. now intros [= ->]. Qed.

Lemma split_nonempty sep s : exists first rest, split sep s = first :: rest.
Proof.
  destruct s as [|c s]; simpl; [now eauto|].
  destruct (Ascii.eqb c sep); [now eauto|].
  destruct (split sep s); eauto.
Qed.

Lemma split_first_is_local_part s :
  local_part s (hd [] (split "@" s)).
Proof.
  unfold local_part. induction s as [|c s IH]; simpl.
  - exists []. repeat split; auto.
  - destruct (Ascii.eqb c "@") eqn:E.
    + apply Ascii.eqb_eq in E. subst c. exists ("@"%char :: s).
      repeat split; auto. right. now exists s.
    + destruct IH as (rest & Es & Hno & Hrest).
      assert (Hc : c <> "@"%char)
        by (intros ->; now rewrite Ascii.eqb_refl in E).
      destruct (split "@" s) as [|h t]; simpl in *; exists rest;
        (split; [now rewrite Es at 1 | split; [|exact Hrest]]).
      * intros [Heq|[]]. now apply Hc.
      * intros [Heq|Hin]; [now apply Hc | now apply Hno].
Qed.

Lemma find_vehicle_strings body subject vs :
  find_vehicle vs (VString body) (VString subject)
  = Normal (find (mentions body subject) vs).
Proof.
  unfold mentions. induction vs as [|v vs IH]; simpl; [reflexivity|].
  destruct (includes (toLowerCase body) v); simpl; [reflexivity|].
  destruct (includes (toLowerCase subject) v); simpl; [reflexivity|].
  exact IH.
Qed.

(** On three strings no step of the guarded block throws, and the record
    it builds is this one. *)
Lemma extract_strings from subject body :
  extractLeadFromEmail (VString from) (VString subject) (VString body)
  = Normal (Some
      {| name := replace_dots_underscores (hd [] (split "@" from));
         email := match0 emailRegex from;
         phone := match0 phoneRegex body;
         vehicle := match find (mentions body subject) vehicles with
                    | Some v => v
                    | None => str "Not specified"
                    end;
         notes := notes_text subject (substring0 500 body) |}).
Proof.
  unfold extractLeadFromEmail, extract_body.
  cbn [string_method bind ToString].
  destruct (split_nonempty "@" from) as (first & rest & ->).
  cbn [bind hd]. rewrite find_vehicle_strings. reflexivity.
Qed.

Lemma find_first (A : Type) (f : A -> bool) (l : list A) k :
  find f l = Some k <->
  exists before after,
    l = before ++ k :: after /\ f k = true /\
    forall k', In k' before -> f k' = false.
Proof.
  induction l as [|x l IH]; simpl.
  - split; [discriminate|]. intros ([|? ?] & after & E & _); discriminate.
  - destruct (f x) eqn:Fx.
    + split.
      * intros [= <-]. exists [], l. repeat split; auto. intros k' [].
      * intros ([|y before] & after & E & Fk & Hb).
        -- now injection E as ->.
        -- injection E as <- _. rewrite (Hb x) in Fx; [discriminate | now left].
    + rewrite IH. split.
      * intros (before & after & -> & Fk & Hb).
        exists (x :: before), after. repeat split; auto.
        intros k' [<-|Hin]; auto.
      * intros ([|y before] & after & E & Fk & Hb).
        -- injection E as -> _. congruence.
        -- injection E as <- ->. exists before, after. repeat split; auto.
           intros k' Hin. apply Hb. now right.
Qed.

Lemma mentions_spec body subject v :
  mentions body subject v = true <->
  occurs_ci v body \/ occurs_ci v subject.
Proof. unfold mentions. now rewrite orb_true_iff, !includes_lower. Qed.

Lemma mentions_false body subject v :
  mentions body subject v = false <->
  ~ (occurs_ci v body \/ occurs_ci v subject).
Proof.
  rewrite <- mentions_spec. destruct (mentions body subject v).
  - split; [discriminate | intros H; now elim H].
  - split; [intros _; discriminate | reflexivity].
Qed.

End ExtractFacts.

Module ExtractInversion.
Import RegexFacts ExtractSpec ExtractFacts.

(** Whatever the three values are, a result that is not [null] was built
    from a string sender and a string body, with these fields. *)
Lemma extract_Some_inv from subject body r :
  extractLeadFromEmail from subject body = Normal (Some r) ->
  exists f b subject_text vehicleMatch,
    from = VString f /\ body = VString b /\
    ToString subject = Normal subject_text /\
    find_vehicle vehicles body subject = Normal vehicleMatch /\
    name r = replace_dots_underscores (hd [] (split "@" f)) /\
    email r = match0 emailRegex f /\
    phone r = match0 phoneRegex b /\
    vehicle r = match vehicleMatch with
                | Some v => v
                | None => str "Not specified"
                end /\
    notes r = notes_text subject_text (substring0 500 b).
Proof.
  unfold extractLeadFromEmail, extract_body.
  destruct from as [| | | |f| |]; try discriminate.
  destruct body as [| | | |b| |]; try discriminate.
  cbn [string_method bind].
  destruct (split_nonempty "@" f) as (first & rest & Ef).
  rewrite Ef. cbn [bind].
  destruct (find_vehicle vehicles (VString b) subject) as [vm|e] eqn:Ev;
    cbn [bind]; [|discriminate].
  destruct (ToString subject) as [st|e] eqn:Es; cbn [bind]; [|discriminate].
  intros [= <-]. exists f, b, st, vm. rewrite Ef. cbn.
  repeat split; reflexivity.
Qed.

(** A thrown exception never leaves the function. *)
Lemma extract_never_throws from subject body :
  exists r, extractLeadFromEmail from subject body = Normal r.
Proof.
  unfold extractLeadFromEmail.
  destruct (extract_body from subject body); eauto.
Qed.

Lemma extract_null_not_strings from subject body :
  extractLeadFromEmail from subject body = Normal None ->
  ~ (is_string from /\ is_string subject /\ is_string body).
Proof.
  intros H ([f ->] & [s ->] & [b ->]).
  rewrite extract_strings in H. discriminate.
Qed.

(** The vehicle field on two strings, in the words of the specification. *)
Lemma vehicle_first_keyword body subject k :
  first_keyword (fun v => occurs_ci v body \/ occurs_ci v subject) k ->
  find (mentions body subject) vehicles = Some k.
Proof.
  intros (before & after & E & Hk & Hb). apply find_first.
  exists before, after. repeat split; auto.
  - now apply mentions_spec.
  - intros k' Hin. apply mentions_false. now apply Hb.
Qed.

Lemma vehicle_no_keyword body subject :
  (forall k, In k vehicles -> ~ (occurs_ci k body \/ occurs_ci k subject)) ->
  find (mentions body subject) vehicles = None.
Proof.
  intros H. destruct (find (mentions body subject) vehicles) as [k|] eqn:E;
    [|reflexivity].
  exfalso. apply find_some in E. destruct E as [Hin Hm].
  apply (H k Hin). now apply mentions_spec.
Qed.

(** ** Leftmost matches, for any pattern *)

Lemma match0_none_iff r s : match0 r s = None <-> ~ has_token r s.
Proof.
  unfold match0, has_token, last_char. split.
  - intros E (pre & suf & q & Es & M).
    pose proof (exec_from_None _ _ _ E pre suf Es) as Hn.
    exact (proj1 (match_here_None _ _ _) Hn _ M).
  - intros H. destruct (exec_from r None s) as [m|] eqn:E; [|reflexivity].
    exfalso. apply H. apply exec_from_Some in E.
    destruct E as (pre & suf & Es & Hm & _).
    destruct (match_here_Some _ _ _ _ Hm) as (rest & _ & M).
    exists pre, suf. eauto.
Qed.

Lemma match0_some_leftmost r s tok :
  match0 r s = Some tok ->
  exists i, token_at r s i tok /\
            forall j tok', j < i -> ~ token_at r s j tok'.
Proof.
  unfold match0, token_at, last_char. intros E. apply exec_from_Some in E.
  destruct E as (pre & suf & Es & Hm & Hleft).
  destruct (match_here_Some _ _ _ _ Hm) as (rest & -> & M).
  exists (length pre). split.
  - exists pre, rest. repeat split; auto.
  - intros j tok' Lt (pre' & post' & Es' & L' & M').
    rewrite Es in Es'. subst j.
    specialize (Hleft pre' (tok' ++ post')). rewrite Es in Hleft.
    specialize (Hleft Es' Lt).
    exact (proj1 (match_here_None _ _ _) Hleft _ M').
Qed.

End ExtractInversion.

(* ================================================================== *)
(** * The phone pattern *)
(* ================================================================== *)

Module PhoneFacts.
Import RegexFacts ExtractSpec.

Lemma Exactly_inv n p : forall prev s q,
  Matches (Exactly n p) (prev, s) q <->
  exists w, s = w ++ snd q /\ length w = n /\ all_in p w /\
            fst q = prev_after prev w.
Proof.
  unfold all_in. induction n as [|n IH]; intros prev s q.
  - split.
    + intros H. inversion H; subst. exists []. repeat split. constructor.
    + intros (w & -> & L & _ & F). destruct w; [|discriminate].
      destruct q as [p' s']. simpl in *. subst. constructor.
  - split.
    + intros H. inversion H; subst.
      apply IH in H6. destruct H6 as (w & -> & L & A & F).
      exists (c :: w). rewrite prev_after_cons. repeat split; simpl; auto.
    + intros (w & -> & L & A & F). destruct w as [|c w]; [discriminate|].
      inversion A; subst. simpl. constructor; [assumption|].
      apply IH. exists w. rewrite prev_after_cons in F.
      repeat split; auto.
Qed.

Lemma Opt_inv p prev s q :
  Matches (Opt p) (prev, s) q <->
  exists w, s = w ++ snd q /\ (w = [] \/ exists c, w = [c] /\ p c = true) /\
            fst q = prev_after prev w.
Proof.
  split.
  - intros H. inversion H; subst.
    + exists [c]. repeat split. right. eauto.
    + exists []. repeat split. now left.
  - intros (w & -> & [->|(c & -> & Pc)] & F); destruct q as [p' s'];
      simpl in *; subst; now constructor.
Qed.

Lemma Boundary_inv prev s q :
  Matches Boundary (prev, s) q <-> q = (prev, s) /\ at_boundary prev s = true.
Proof.
  split.
  - intros H. inversion H; subst. now split.
  - intros [-> B]. now constructor.
Qed.

Lemma Cat_inv r1 r2 p q :
  Matches (Cat r1 r2) p q <-> exists m, Matches r1 p m /\ Matches r2 m q.
Proof.
  split.
  - intros H. inversion H; subst. eauto.
  - intros (m & H1 & H2). econstructor; eauto.
Qed.

(** The matches of the phone literal are the phone-shaped texts standing
    between two word boundaries. *)
Lemma phone_Matches prev s p' s' :
  Matches phoneRegex (prev, s) (p', s') <->
  exists tok, s = tok ++ s' /\ phone_shape tok /\
              at_boundary prev s = true /\
              at_boundary (prev_after prev tok) s' = true /\
              p' = prev_after prev tok.
Proof.
  unfold phoneRegex, phone_shape, digits, separator. split.
  - intros H.
    apply Cat_inv in H. destruct H as (m0 & H0 & H).
    apply Boundary_inv in H0. destruct H0 as [-> B0].
    apply Cat_inv in H. destruct H as ([p1 t1] & H1 & H).
    apply Exactly_inv in H1. destruct H1 as (a & -> & La & Aa & Fa).
    apply Cat_inv in H. destruct H as ([p2 t2] & H2 & H).
    apply Opt_inv in H2. destruct H2 as (s1 & E1 & S1 & F1).
    apply Cat_inv in H. destruct H as ([p3 t3] & H3 & H).
    apply Exactly_inv in H3. destruct H3 as (b & E3 & Lb & Ab & Fb).
    apply Cat_inv in H. destruct H as ([p4 t4] & H4 & H).
    apply Opt_inv in H4. destruct H4 as (s2 & E4 & S2 & F2).
    apply Cat_inv in H. destruct H as ([p5 t5] & H5 & H).
    apply Exactly_inv in H5. destruct H5 as (c & E5 & Lc & Ac & Fc).
    apply Boundary_inv in H. destruct H as [E B1].
    injection E as -> ->. simpl in *. subst.
    exists (a ++ s1 ++ b ++ s2 ++ c).
    rewrite !prev_after_app, <- !app_assoc.
    repeat split; auto. exists a, s1, b, s2, c. repeat split; auto.
  - intros (tok & -> & (a & s1 & b & s2 & c & -> & [La Aa] & S1 & [Lb Ab]
                        & S2 & [Lc Ac]) & B0 & B1 & ->).
    rewrite <- !app_assoc in *. rewrite !prev_after_app in *.
    apply Cat_inv. eexists. split; [apply Boundary_inv; split; eauto|].
    apply Cat_inv. exists (prev_after prev a, s1 ++ b ++ s2 ++ c ++ s').
    split; [apply Exactly_inv; exists a; repeat split; auto|].
    apply Cat_inv.
    exists (prev_after (prev_after prev a) s1, b ++ s2 ++ c ++ s').
    split; [apply Opt_inv; exists s1; repeat split; auto|].
    apply Cat_inv. eexists (_, s2 ++ c ++ s').
    split; [apply Exactly_inv; exists b; repeat split; eauto|].
    apply Cat_inv. eexists (_, c ++ s').
    split; [apply Opt_inv; exists s2; repeat split; eauto|].
    apply Cat_inv. eexists (_, s').
    split; [apply Exactly_inv; exists c; repeat split; eauto|].
    apply Boundary_inv. split; [reflexivity | exact B1].
Qed.

(** ** At one position the phone literal has at most one match *)

Lemma exactly_at_most_one n p : at_most_one (Exactly n p).
Proof.
  intros prev s. simpl. revert prev s.
  induction n as [|n IH]; intros prev s; simpl; [lia|].
  destruct s as [|c s]; simpl; [lia|]. destruct (p c); simpl; [apply IH | lia].
Qed.

Lemma boundary_at_most_one : at_most_one Boundary.
Proof. intros prev s. simpl. destruct (at_boundary prev s); simpl; lia. Qed.

Lemma cat_at_most_one r1 r2 :
  at_most_one r1 -> at_most_one r2 -> at_most_one (Cat r1 r2).
Proof.
  intros H1 H2 prev s. simpl. specialize (H1 prev s).
  destruct (run r1 prev s) as [|q [|q' l]]; simpl in *; [lia | | lia].
  rewrite app_nil_r. apply H2.
Qed.

Lemma sep_not_digit c : is_sep c = true -> is_digit c = false.
Proof.
  unfold is_sep, is_char. rewrite orb_true_iff, !Ascii.eqb_eq.
  intros [->| ->]; reflexivity.
Qed.

(** After an optional separator the next item is a digit, and no separator
    is a digit: skipping a separator that is there leads nowhere. *)
Lemma opt_sep_at_most_one n r :
  at_most_one r ->
  at_most_one (Cat (Opt is_sep) (Cat (Exactly (S n) is_digit) r)).
Proof.
  intros Hr prev s.
  set (k := Cat (Exactly (S n) is_digit) r).
  assert (Hk : at_most_one k)
    by (apply cat_at_most_one; [apply exactly_at_most_one | exact Hr]).
  assert (Hsep : forall c t, is_sep c = true -> run k prev (c :: t) = []).
  { intros c t Sc. unfold k. cbn [run exactly].
    now rewrite (sep_not_digit c Sc). }
  change (run (Cat (Opt is_sep) k) prev s)
    with (flat_map (fun q => run k (fst q) (snd q)) (run (Opt is_sep) prev s)).
  clearbody k. destruct s as [|c s]; cbn [run flat_map fst snd].
  - rewrite app_nil_r. apply Hk.
  - destruct (is_sep c) eqn:Sc; cbn [flat_map fst snd].
    + rewrite (Hsep c s Sc), !app_nil_r. apply Hk.
    + rewrite app_nil_r. apply Hk.
Qed.

Lemma phone_at_most_one : at_most_one phoneRegex.
Proof.
  unfold phoneRegex.
  apply cat_at_most_one; [apply boundary_at_most_one|].
  apply cat_at_most_one; [apply exactly_at_most_one|].
  apply opt_sep_at_most_one. apply opt_sep_at_most_one.
  apply boundary_at_most_one.
Qed.

Lemma at_most_one_unique r prev s q1 q2 :
  at_most_one r ->
  Matches r (prev, s) q1 -> Matches r (prev, s) q2 -> q1 = q2.
Proof.
  intros H M1 M2. apply run_Matches in M1, M2. specialize (H prev s).
  destruct (run r prev s) as [|q [|q' l]]; simpl in *.
  - contradiction.
  - destruct M1 as [<-|[]], M2 as [<-|[]]. reflexivity.
  - lia.
Qed.

Lemma last_char_app pre tok :
  last_char (pre ++ tok) = prev_after (last_char pre) tok.
Proof. apply prev_after_app. Qed.

(** A phone token at an offset is a match of the literal at that offset. *)
Lemma phone_at_Matches body i tok :
  phone_at body i tok <->
  exists pre post,
    body = pre ++ tok ++ post /\ length pre = i /\
    Matches phoneRegex (last_char pre, tok ++ post)
      (prev_after (last_char pre) tok, post).
Proof.
  unfold phone_at, word_boundary. split.
  - intros (pre & post & -> & L & Sh & B0 & B1). exists pre, post.
    repeat split; auto. apply phone_Matches. exists tok.
    rewrite last_char_app in B1. repeat split; auto.
  - intros (pre & post & -> & L & M). exists pre, post.
    apply phone_Matches in M. destruct M as (tok' & E & Sh & B0 & B1 & F).
    apply app_inv_tail in E. subst tok'. rewrite last_char_app.
    repeat split; auto.
Qed.

Lemma same_length_prefix (A : Type) (p1 p2 s1 s2 : list A) :
  p1 ++ s1 = p2 ++ s2 -> length p1 = length p2 -> p1 = p2 /\ s1 = s2.
Proof.
  revert p2. induction p1 as [|x p1 IH]; intros [|y p2] E L;
    try discriminate; simpl in *; [now split|].
  injection E as -> E. injection L as L.
  destruct (IH _ E L) as [-> ->]. now split.
Qed.

(** What [body.match(phoneRegex)?.[0]] is, in the words of the
    specification. *)
Lemma match0_phone_first body i tok :
  phone_at body i tok ->
  (forall j tok', j < i -> ~ phone_at body j tok') ->
  match0 phoneRegex body = Some tok.
Proof.
  intros Hat Hmin. unfold match0.
  pose proof Hat as Hat'. apply phone_at_Matches in Hat'.
  destruct Hat' as (pre & post & Eb & L & M).
  destruct (exec_from phoneRegex None body) as [m|] eqn:E.
  - apply exec_from_Some in E.
    destruct E as (pre0 & suf0 & Eb0 & Hm & Hleft).
    destruct (match_here_Some _ _ _ _ Hm) as (rest & Es & M0).
    assert (At0 : phone_at body (length pre0) m).
    { apply phone_at_Matches. exists pre0, rest. subst suf0.
      repeat split; auto. }
    destruct (Nat.lt_trichotomy (length pre0) i) as [Lt|[Eq|Gt]].
    + exfalso. exact (Hmin _ _ Lt At0).
    + rewrite Eb in Eb0. rewrite <- L in Eq.
      destruct (same_length_prefix _ _ _ _ _ Eb0 (eq_sym Eq)) as [<- Es0].
      rewrite <- Es0 in Es, M0.
      pose proof (at_most_one_unique _ _ _ _ _ phone_at_most_one M M0) as Q.
      injection Q as _ Q. rewrite <- Q in Es.
      apply app_inv_tail in Es. now rewrite Es.
    + exfalso. rewrite <- L in Gt.
      specialize (Hleft pre (tok ++ post) Eb Gt).
      exact (proj1 (match_here_None _ _ _) Hleft _ M).
  - exfalso.
    pose proof (exec_from_None _ _ _ E pre (tok ++ post) Eb) as Hn.
    exact (proj1 (match_here_None _ _ _) Hn _ M).
Qed.

Lemma match0_phone_none body :
  (forall i tok, ~ phone_at body i tok) -> match0 phoneRegex body = None.
Proof.
  intros Hno. unfold match0.
  destruct (exec_from phoneRegex None body) as [m|] eqn:E; [|reflexivity].
  exfalso. apply exec_from_Some in E.
  destruct E as (pre0 & suf0 & Eb0 & Hm & _).
  destruct (match_here_Some _ _ _ _ Hm) as (rest & Es & M0).
  apply (Hno (length pre0) m), phone_at_Matches.
  exists pre0, rest. subst suf0. repeat split; auto.
Qed.

End PhoneFacts.

(* ================================================================== *)
(** * The email pattern *)
(* ================================================================== *)

Module EmailFacts.
Import RegexFacts ExtractSpec PhoneFacts FieldSpec.

Lemma Many_inv p : forall s min prev q,
  Matches (Many min p) (prev, s) q <->
  exists w, s = w ++ snd q /\ min <= length w /\ all_in p w /\
            fst q = prev_after prev w.
Proof.
  unfold all_in. induction s as [|c s IH]; intros min prev q.
  - split.
    + intros H. inversion H; subst. exists []. repeat split; auto.
    + intros (w & E & L & A & F). destruct w; [|discriminate].
      destruct q as [p' s']. simpl in *. subst.
      assert (min = 0) as -> by lia. constructor.
  - split.
    + intros H. inversion H; subst.
      * exists []. repeat split; auto.
      * match goal with
        | M : Matches (Many _ _) _ _ |- _ =>
            apply IH in M; destruct M as (w & -> & L & A & F)
        end.
        exists (c :: w). rewrite prev_after_cons.
        repeat split; simpl; auto. lia.
    + intros (w & E & L & A & F). destruct w as [|c' w].
      * destruct q as [p' s']. simpl in *. subst.
        assert (min = 0) as -> by lia. constructor.
      * simpl in E. injection E as <- E. inversion A; subst.
        constructor; [assumption|]. apply IH. exists w.
        rewrite prev_after_cons in F. repeat split; auto.
        simpl in L. lia.
Qed.

Lemma Class_inv p prev s q :
  Matches (Class p) (prev, s) q <->
  exists c, s = c :: snd q /\ p c = true /\ fst q = Some c.
Proof.
  split.
  - intros H. inversion H; subst. eauto.
  - intros (c & -> & Pc & F). destruct q as [p' s']. simpl in *. subst.
    now constructor.
Qed.

Lemma is_char_eq x c : is_char x c = true <-> c = x.
Proof. unfold is_char. apply Ascii.eqb_eq. Qed.

(** The matches of the email literal are the email-shaped texts standing
    between two word boundaries. *)
Lemma email_Matches prev s p' s' :
  Matches emailRegex (prev, s) (p', s') <->
  exists tok, s = tok ++ s' /\ email_shape tok /\
              at_boundary prev s = true /\
              at_boundary (prev_after prev tok) s' = true /\
              p' = prev_after prev tok.
Proof.
  unfold emailRegex, email_shape. split.
  - intros H.
    apply Cat_inv in H. destruct H as (m0 & H0 & H).
    apply Boundary_inv in H0. destruct H0 as [-> B0].
    apply Cat_inv in H. destruct H as ([p1 t1] & H1 & H).
    apply Many_inv in H1. destruct H1 as (l & -> & Ll & Al & Fl).
    apply Cat_inv in H. destruct H as ([p2 t2] & H2 & H).
    apply Class_inv in H2. destruct H2 as (c1 & E2 & C1 & F2).
    apply is_char_eq in C1. subst c1.
    apply Cat_inv in H. destruct H as ([p3 t3] & H3 & H).
    apply Many_inv in H3. destruct H3 as (d & E3 & Ld & Ad & Fd).
    apply Cat_inv in H. destruct H as ([p4 t4] & H4 & H).
    apply Class_inv in H4. destruct H4 as (c2 & E4 & C2 & F4).
    apply is_char_eq in C2. subst c2.
    apply Cat_inv in H. destruct H as ([p5 t5] & H5 & H).
    apply Many_inv in H5. destruct H5 as (t & E5 & Lt & At & Ft).
    apply Boundary_inv in H. destruct H as [E B1].
    injection E as -> ->. simpl in *. subst.
    exists (l ++ "@"%char :: d ++ "."%char :: t).
    assert (P : prev_after prev (l ++ "@"%char :: d ++ "."%char :: t)
                = prev_after (Some "."%char) t).
    { rewrite prev_after_app, prev_after_cons, prev_after_app,
        prev_after_cons. reflexivity. }
    rewrite P. rewrite <- !app_assoc. simpl. rewrite <- !app_assoc. simpl.
    repeat split; auto. exists l, d, t. repeat split; auto.
  - intros (tok & -> & (l & d & t & -> & Ll & Al & Ld & Ad & Lt & At)
            & B0 & B1 & ->).
    assert (P : prev_after prev (l ++ "@"%char :: d ++ "."%char :: t)
                = prev_after (Some "."%char) t).
    { rewrite prev_after_app, prev_after_cons, prev_after_app,
        prev_after_cons. reflexivity. }
    rewrite P in *.
    rewrite <- !app_assoc in *. simpl in *. rewrite <- !app_assoc in *.
    simpl in *.
    apply Cat_inv. eexists. split; [apply Boundary_inv; split; eauto|].
    apply Cat_inv.
    exists (prev_after prev l, "@"%char :: d ++ "."%char :: t ++ s').
    split; [apply Many_inv; exists l; repeat split; auto|].
    apply Cat_inv. exists (Some "@"%char, d ++ "."%char :: t ++ s').
    split; [apply Class_inv; exists "@"%char; repeat split; auto|].
    apply Cat_inv.
    exists (prev_after (Some "@"%char) d, "."%char :: t ++ s').
    split; [apply Many_inv; exists d; repeat split; auto|].
    apply Cat_inv. exists (Some "."%char, t ++ s').
    split; [apply Class_inv; exists "."%char; repeat split; auto|].
    apply Cat_inv. exists (prev_after (Some "."%char) t, s').
    split; [apply Many_inv; exists t; repeat split; auto|].
    apply Boundary_inv. split; [reflexivity | exact B1].
Qed.

(** An email token at an offset is a match of the literal at that
    offset. *)
Lemma email_at_token_at sender i tok :
  email_at sender i tok <-> token_at emailRegex sender i tok.
Proof.
  unfold email_at, token_at, word_boundary. split.
  - intros (pre & post & -> & L & Sh & B0 & B1). exists pre, post.
    repeat split; auto. apply email_Matches. exists tok.
    rewrite last_char_app in B1. repeat split; auto.
  - intros (pre & post & -> & L & M). exists pre, post.
    apply email_Matches in M. destruct M as (tok' & E & Sh & B0 & B1 & F).
    apply app_inv_tail in E. subst tok'. rewrite last_char_app.
    repeat split; auto.
Qed.

Lemma has_token_email_at sender :
  has_token emailRegex sender <-> exists i tok, email_at sender i tok.
Proof.
  unfold has_token. split.
  - intros (pre & suf & [p' s'] & -> & M).
    destruct (Matches_consumes _ _ _ M) as (w & Hw & Hp). simpl in Hw, Hp.
    subst suf p'. exists (length pre), w. apply email_at_token_at.
    exists pre, s'. repeat split; auto.
  - intros (i & tok & H). apply email_at_token_at in H.
    destruct H as (pre & post & -> & _ & M). exists pre, (tok ++ post).
    eauto.
Qed.

End EmailFacts.

(* ================================================================== *)
(** * The texts the extractor returns *)
(* ================================================================== *)

Module FieldFacts.
Import RegexFacts ExtractSpec ExtractFacts ExtractInversion PhoneFacts.
Import FieldSpec EmailFacts Sql RouteSpec.

Lemma match0_occurs r s tok : match0 r s = Some tok -> occurs_in tok s.
Proof.
  intros H. apply match0_some_leftmost in H.
  destruct H as (i & (pre & post & -> & _) & _). now exists pre, post.
Qed.

Lemma occurs_length v s : occurs_in v s -> length v <= length s.
Proof. intros (pre & post & ->). rewrite !length_app. lia. Qed.

Lemma nul_free_app a b : nul_free (a ++ b) <-> nul_free a /\ nul_free b.
Proof. unfold nul_free. rewrite existsb_app. apply orb_false_iff. Qed.

Lemma nul_free_occurs v s : occurs_in v s -> nul_free s -> nul_free v.
Proof.
  intros (pre & post & ->) H.
  apply nul_free_app in H. destruct H as [_ H].
  apply nul_free_app in H. tauto.
Qed.

Lemma nul_free_firstn n s : nul_free s -> nul_free (firstn n s).
Proof.
  intros H. rewrite <- (firstn_skipn n s) in H.
  apply nul_free_app in H. tauto.
Qed.

Lemma nul_free_replace s : nul_free s -> nul_free (replace_dots_underscores s).
Proof.
  unfold nul_free, replace_dots_underscores.
  induction s as [|c s IH]; simpl; [reflexivity|].
  rewrite !orb_false_iff. intros [Hc Hs]. split; [|now apply IH].
  destruct (is_char "." c || is_char "_" c); [reflexivity | exact Hc].
Qed.

Lemma store_varchar_accepts n s :
  nul_free s -> length s <= n -> store_varchar n (Some s) = Some (Some s).
Proof.
  unfold nul_free, store_varchar, text_in, varchar. intros -> L.
  apply Nat.leb_le in L. now rewrite L.
Qed.

Lemma digits_length n w : digits n w -> length w = n.
Proof. now intros [L _]. Qed.

Lemma separator_length w : separator w -> length w <= 1.
Proof. intros [->|(c & -> & _)]; simpl; lia. Qed.

Lemma phone_shape_length tok : phone_shape tok -> 10 <= length tok <= 12.
Proof.
  intros (a & s1 & b & s2 & c & -> & Ha & H1 & Hb & H2 & Hc).
  rewrite !length_app.
  rewrite (digits_length _ _ Ha), (digits_length _ _ Hb),
    (digits_length _ _ Hc).
  pose proof (separator_length _ H1). pose proof (separator_length _ H2).
  lia.
Qed.

Lemma phone_shape_chars tok :
  phone_shape tok -> all_in (fun c => is_digit c || is_sep c) tok.
Proof.
  unfold all_in.
  intros (a & s1 & b & s2 & c & -> & [_ Ha] & H1 & [_ Hb] & H2 & [_ Hc]).
  assert (D : forall w, all_in is_digit w ->
                Forall (fun c => is_digit c || is_sep c = true) w).
  { intros w Hw. eapply Forall_impl; [|exact Hw]. intros x Hx. cbn in Hx.
    now rewrite Hx. }
  assert (S : forall w, separator w ->
                Forall (fun c => is_digit c || is_sep c = true) w).
  { intros w [->|(x & -> & Hx)]; [constructor|].
    repeat constructor. rewrite Hx. apply orb_true_r. }
  repeat (apply Forall_app; split); auto.
Qed.

Lemma match0_phone_shape body tok :
  match0 phoneRegex body = Some tok -> phone_shape tok.
Proof.
  intros H. apply match0_some_leftmost in H.
  destruct H as (i & (pre & post & -> & _ & M) & _).
  apply phone_Matches in M. destruct M as (tok' & E & Sh & _).
  apply app_inv_tail in E. now subst.
Qed.

Lemma local_part_facts sender local :
  local_part sender local ->
  ~ In "@"%char local /\ length local <= length sender /\
  (nul_free sender -> nul_free local).
Proof.
  intros (rest & -> & Hno & _). split; [exact Hno|]. split.
  - rewrite length_app. lia.
  - intros H. apply nul_free_app in H. tauto.
Qed.

Lemma replace_keeps_out s x :
  ~ In x s -> x <> " "%char -> ~ In x (replace_dots_underscores s).
Proof.
  unfold replace_dots_underscores. intros Hno Hx Hin.
  apply in_map_iff in Hin. destruct Hin as (c & E & Hc).
  destruct (is_char "." c || is_char "_" c).
  - now apply Hx.
  - subst. contradiction.
Qed.

Lemma replace_removes s :
  ~ In "."%char (replace_dots_underscores s) /\
  ~ In "_"%char (replace_dots_underscores s).
Proof.
  unfold replace_dots_underscores.
  split; intros Hin; apply in_map_iff in Hin; destruct Hin as (c & E & _).
  - destruct (is_char "." c || is_char "_" c) eqn:T; [discriminate|].
    subst c. discriminate.
  - destruct (is_char "." c || is_char "_" c) eqn:T; [discriminate|].
    subst c. discriminate.
Qed.

Lemma vehicle_in_vocabulary body subject :
  match find (mentions body subject) vehicles with
  | Some v => In v vehicles
  | None => True
  end.
Proof.
  destruct (find (mentions body subject) vehicles) as [v|] eqn:E; [|exact I].
  now apply find_some in E.
Qed.

Lemma vocabulary_fits v :
  In v vehicles -> store_varchar 255 (Some v) = Some (Some v).
Proof.
  intros H. repeat (destruct H as [<-|H]; [reflexivity|]). destruct H.
Qed.

End FieldFacts.

(* ================================================================== *)
(** * Numbers given for INTEGER parameters *)
(* ================================================================== *)

Module SqlFacts.
Import Sql DbSpec.

Lemma send_int4_same v v' : send_int4 v = Some v' -> v' = v.
Proof.
  unfold send_int4. destruct v as [z|]; [|now intros [= <-]].
  destruct (in_int4 z); [now intros [= <-] | discriminate].
Qed.

Lemma send_int4_integer v : is_integer v <-> send_int4 v = Some v.
Proof.
  unfold is_integer, send_int4, in_int4. destruct v as [z|].
  - split.
    + intros H. specialize (H z eq_refl).
      assert (E1 : Z.leb (- 2147483648) z = true) by (apply Z.leb_le; lia).
      assert (E2 : Z.leb z 2147483647 = true) by (apply Z.leb_le; lia).
      now rewrite E1, E2.
    + intros H z' E. assert (z' = z) by congruence. subst z'.
      destruct (Z.leb (- 2147483648) z) eqn:E1;
        destruct (Z.leb z 2147483647) eqn:E2; cbn [andb] in H;
        try discriminate.
      apply Z.leb_le in E1, E2. lia.
  - split; [reflexivity | discriminate].
Qed.

End SqlFacts.

(* ================================================================== *)
(** * The seed script and the table of dealerships *)
(* ================================================================== *)

Module SeedFacts.
Import Sql Statements Seed DbSpec.

Lemma same_dealerships_refl db : same_dealerships db db.
Proof. now split. Qed.

Lemma same_dealerships_trans a b c :
  same_dealerships a b -> same_dealerships b c -> same_dealerships a c.
Proof. intros [E1 E2] [E3 E4]. split; congruence. Qed.

Lemma keeps_ret (A : Type) (a : A) : keeps_dealerships (ret a).
Proof. intros db. apply same_dealerships_refl. Qed.

Lemma keeps_throw (A : Type) : keeps_dealerships (@throw A).
Proof. intros db. apply same_dealerships_refl. Qed.

Lemma keeps_then (A B : Type) (m : script A) (k : A -> script B) :
  keeps_dealerships m -> (forall a, keeps_dealerships (k a)) ->
  keeps_dealerships (then_ m k).
Proof.
  intros Hm Hk db. unfold then_. specialize (Hm db).
  destruct (m db) as [a db'|db']; simpl in *; [|exact Hm].
  eapply same_dealerships_trans; [exact Hm | apply Hk].
Qed.

Lemma keeps_first_id rows : keeps_dealerships (first_id rows).
Proof. destruct rows; [apply keeps_throw | apply keeps_ret]. Qed.

Lemma keeps_select_first : keeps_dealerships select_first_dealership_id.
Proof. intros db. apply same_dealerships_refl. Qed.

Lemma keeps_select_user email : keeps_dealerships (select_user_id email).
Proof. intros db. apply same_dealerships_refl. Qed.

Lemma keeps_upsert_user now email password name role dealer :
  keeps_dealerships (upsert_user now email password name role dealer).
Proof.
  intros db. unfold upsert_user.
  repeat match goal with
         | |- context [match ?x with _ => _ end] => destruct x
         end; simpl; split; reflexivity.
Qed.

Lemma keeps_insert_lead flag now p1 p2 p3 p4 p5 p6 p7 p8 a d c :
  keeps_dealerships (insert_lead flag now p1 p2 p3 p4 p5 p6 p7 p8 a d c).
Proof.
  intros db. unfold insert_lead.
  repeat match goal with
         | |- context [match ?x with _ => _ end] => destruct x
         end; simpl; split; reflexivity.
Qed.

Lemma keeps_insert_samples env admin dealer samples : forall k,
  keeps_dealerships (insert_samples env admin dealer k samples).
Proof.
  induction samples as [|lead rest IH]; intros k; simpl.
  - apply keeps_ret.
  - apply keeps_then; [apply keeps_insert_lead | intros _; apply IH].
Qed.

Lemma drawn_not_stored db :
  dealership_keys_drawn db ->
  dealership_exists db (dealerships_id_seq db) = false.
Proof.
  unfold dealership_keys_drawn, dealership_exists. intros H.
  destruct (existsb _ (dealerships db)) eqn:E; [|reflexivity].
  apply existsb_exists in E. destruct E as (d & Hin & Heq).
  apply Z.eqb_eq in Heq. specialize (H d Hin). lia.
Qed.

Lemma after_then (A B : Type) (m : script A) (k : A -> script B) db :
  after (then_ m k db)
  = match m db with
    | Resolved a db' => after (k a db')
    | Rejected db' => db'
    end.
Proof. unfold then_. now destruct (m db). Qed.

Lemma insert_seed_dealership now db :
  dealership_keys_drawn db ->
  insert_dealership now
    (Some seed_name) (Some (str "123 Main Street, Anytown, USA"))
    (Some (str "(555) 123-4567")) (Some (str "info@autoclick.com")) db
  = Resolved [dealerships_id_seq db]
      (with_dealerships db
         (dealerships db ++ [seed_dealership now (dealerships_id_seq db)])
         (dealerships_id_seq db + 1)).
Proof.
  intros H. unfold insert_dealership.
  change (store_varchar 255 (Some seed_name)) with (Some (Some seed_name)).
  change (store_text (Some (str "123 Main Street, Anytown, USA")))
    with (Some (Some (str "123 Main Street, Anytown, USA"))).
  change (store_varchar 20 (Some (str "(555) 123-4567")))
    with (Some (Some (str "(555) 123-4567"))).
  change (store_varchar 255 (Some (str "info@autoclick.com")))
    with (Some (Some (str "info@autoclick.com"))).
  cbv beta iota. now rewrite (drawn_not_stored db H).
Qed.

(** One run on a table whose keys were all drawn from the sequence appends
    the seed row under a new key, whatever happens afterwards. *)
Lemma setup_appends_seed_dealership env db :
  dealership_keys_drawn db ->
  dealerships (setupDatabase env db)
  = dealerships db ++ [seed_dealership (now env 0) (dealerships_id_seq db)] /\
  dealerships_id_seq (setupDatabase env db) = (dealerships_id_seq db + 1)%Z.
Proof.
  intros Hdrawn.
  enough (S : same_dealerships
                (with_dealerships db
                   (dealerships db
                    ++ [seed_dealership (now env 0) (dealerships_id_seq db)])
                   (dealerships_id_seq db + 1))
                (setupDatabase env db))
    by (destruct S as [-> ->]; split; reflexivity).
  change (setupDatabase env db) with (after (setup_steps env db)).
  unfold setup_steps.
  do 5 (rewrite after_then; unfold create_if_not_exists at 1;
        unfold ret at 1; cbv beta iota).
  rewrite after_then, (insert_seed_dealership (now env 0) db Hdrawn).
  match goal with
  | |- context [after (?m ?d)] =>
      assert (K : keeps_dealerships m); [|exact (K d)]
  end.
  repeat first
      [ apply keeps_ret | apply keeps_upsert_user | apply keeps_select_user
      | apply keeps_select_first
      | apply keeps_first_id | apply keeps_insert_samples
      | apply keeps_then; [|intros ?] ].
Qed.

Lemma setup_keeps_keys_drawn env db :
  dealership_keys_drawn db -> dealership_keys_drawn (setupDatabase env db).
Proof.
  intros H. destruct (setup_appends_seed_dealership env db H) as [E1 E2].
  unfold dealership_keys_drawn. rewrite E1, E2. intros d Hin.
  apply in_app_or in Hin. destruct Hin as [Hin|[<-|[]]].
  - specialize (H d Hin). lia.
  - simpl. lia.
Qed.

Lemma setup_adds_one_seed_dealership env db :
  dealership_keys_drawn db ->
  length (seed_dealerships (setupDatabase env db))
  = S (length (seed_dealerships db)).
Proof.
  intros H. unfold seed_dealerships.
  rewrite (proj1 (setup_appends_seed_dealership env db H)).
  rewrite filter_app, length_app. simpl. lia.
Qed.

End SeedFacts.

(* ================================================================== *)
(** * The seed script and the demo users *)
(* ================================================================== *)

Module SeedUserFacts.
Import Sql Statements Seed DbSpec SqlFacts SeedFacts.

Lemma then_Resolved (A B : Type) (m : script A) (k : A -> script B) db b db' :
  then_ m k db = Resolved b db' ->
  exists a db1, m db = Resolved a db1 /\ k a db1 = Resolved b db'.
Proof.
  unfold then_. destruct (m db) as [a db1|db1]; [eauto | discriminate].
Qed.

Lemma jstring_eqb_eq a b : jstring_eqb a b = true <-> a = b.
Proof.
  unfold jstring_eqb.
  destruct (list_eq_dec ascii_dec a b) as [E|E]; split; intros H; auto;
    discriminate || contradiction.
Qed.

Lemma store_varchar_short n s v :
  length s <= n -> store_varchar n (Some s) = Some v -> v = Some s.
Proof.
  intros L. unfold store_varchar, text_in.
  destruct (existsb is_nul s); [discriminate|].
  unfold varchar. apply Nat.leb_le in L. rewrite L. cbn.
  now intros [= <-].
Qed.

(** What an accepted upsert leaves in [users]: every row of the given email
    carries the given values, there is such a row, and the rows of another
    email are rows that were there, unchanged. *)
Lemma upsert_user_resolved now e p n r d db db' :
  length e <= 255 -> length p <= 255 -> length n <= 255 -> length r <= 50 ->
  upsert_user now (Some e) (Some p) (Some n) (Some r) d db = Resolved tt db' ->
  (forall u, In u (users db') -> User.email u = e ->
     User.password u = p /\ User.name u = n /\ User.role u = Some r /\
     User.dealership_id u = d) /\
  (exists u, In u (users db') /\ User.email u = e) /\
  (forall u, In u (users db') -> User.email u <> e -> In u (users db)) /\
  (forall u, In u (users db) -> User.email u <> e -> In u (users db')).
Proof.
  intros Le Lp Ln Lr. unfold upsert_user.
  destruct (store_varchar 255 (Some e)) as [e'|] eqn:Ee; try discriminate.
  destruct (store_varchar 255 (Some p)) as [p'|] eqn:Ep; try discriminate.
  destruct (store_varchar 255 (Some n)) as [n'|] eqn:En; try discriminate.
  destruct (store_varchar 50 (Some r)) as [r'|] eqn:Er; try discriminate.
  destruct (send_int4 d) as [d'|] eqn:Ed; try discriminate.
  apply store_varchar_short in Ee, Ep, En, Er; auto.
  apply send_int4_same in Ed.
  subst e' p' n' r' d'. cbv beta iota zeta.
  destruct (negb _); [discriminate|].
  destruct (existsb _ (users db)) eqn:Ex.
  - intros [= <-]. cbn [users with_users].
    apply existsb_exists in Ex. destruct Ex as (u0 & Hin0 & He0).
    apply jstring_eqb_eq in He0.
    split; [|split; [|split]].
    + intros u Hin He. apply in_map_iff in Hin.
      destruct Hin as (v & <- & Hv).
      destruct (jstring_eqb (User.email v) e) eqn:Ev.
      * cbn. auto.
      * apply jstring_eqb_eq in He. congruence.
    + exists (upsert_fields p n (Some r) d u0). split.
      * apply in_map_iff. exists u0. split; [|exact Hin0].
        rewrite (proj2 (jstring_eqb_eq _ _) He0). reflexivity.
      * exact He0.
    + intros u Hin Hne. apply in_map_iff in Hin.
      destruct Hin as (v & <- & Hv).
      destruct (jstring_eqb (User.email v) e) eqn:Ev; [|exact Hv].
      cbn in Hne. apply jstring_eqb_eq in Ev. contradiction.
    + intros u Hin Hne. apply in_map_iff. exists u. split; [|exact Hin].
      destruct (jstring_eqb (User.email u) e) eqn:Ev; [|reflexivity].
      apply jstring_eqb_eq in Ev. contradiction.
  - destruct (user_exists db (users_id_seq db)); [discriminate|].
    intros [= <-]. cbn [users with_users].
    split; [|split; [|split]].
    + intros u Hin He. apply in_app_or in Hin. destruct Hin as [Hin|[<-|[]]].
      * exfalso. assert (Hf : existsb
            (fun u => jstring_eqb (User.email u) e) (users db) = true).
        { apply existsb_exists. exists u. split; [exact Hin|].
          now apply jstring_eqb_eq. }
        congruence.
      * cbn. auto.
    + eexists. split; [apply in_or_app; right; now left | reflexivity].
    + intros u Hin Hne. apply in_app_or in Hin.
      destruct Hin as [Hin|[<-|[]]]; [exact Hin|]. now elim Hne.
    + intros u Hin _. apply in_or_app. now left.
Qed.

Lemma keeps_users_insert_lead flag now p1 p2 p3 p4 p5 p6 p7 p8 a d c :
  keeps_users (insert_lead flag now p1 p2 p3 p4 p5 p6 p7 p8 a d c).
Proof.
  intros db. unfold insert_lead.
  repeat match goal with
         | |- context [match ?x with _ => _ end] => destruct x
         end; reflexivity.
Qed.

Lemma keeps_users_insert_samples env admin dealer samples : forall k,
  keeps_users (insert_samples env admin dealer k samples).
Proof.
  induction samples as [|lead rest IH]; intros k db; [reflexivity|].
  cbn [insert_samples]. rewrite after_then.
  pose proof (keeps_users_insert_lead true (now env k)
    (Some (sl_name lead)) (Some (sl_email lead)) (Some (sl_phone lead))
    (Some (sl_vehicle lead)) (Some (sl_source lead)) (Some (sl_notes lead))
    (Some (sl_priority lead)) (Some (str "new")) (Some admin) (Some dealer)
    None db) as K.
  destruct (insert_lead _ _ _ _ _ _ _ _ _ _ _ _ _ db) as [a db1|db1];
    cbn [after] in *; [|exact K].
  now rewrite IH.
Qed.

(** A run that goes through on a table of drawn keys leaves each demo
    account with the values of that run: the hash bcrypt produced, the
    name, the role, and the dealership inserted by that same run. *)
Lemma setup_resets_demo_users env db db' :
  dealership_keys_drawn db ->
  length (adminPassword env) <= 255 -> length (repPassword env) <= 255 ->
  setup_steps env db = Resolved tt db' ->
  (exists u, In u (users db') /\ User.email u = str "admin@autoclick.com") /\
  (exists u, In u (users db') /\ User.email u = str "rep@autoclick.com") /\
  forall u, In u (users db') ->
    (User.email u = str "admin@autoclick.com" ->
     User.password u = adminPassword env /\
     User.name u = str "Admin User" /\
     User.role u = Some (str "admin") /\
     User.dealership_id u = Some (dealerships_id_seq db)) /\
    (User.email u = str "rep@autoclick.com" ->
     User.password u = repPassword env /\
     User.name u = str "Sales Representative" /\
     User.role u = Some (str "sales_rep") /\
     User.dealership_id u = Some (dealerships_id_seq db)).
Proof.
  intros Hdrawn La Lr H. unfold setup_steps in H.
  do 5 (apply then_Resolved in H; destruct H as (? & ? & [= <- <-] & H)).
  apply then_Resolved in H. destruct H as (res & db1 & Hins & H).
  rewrite (insert_seed_dealership (now env 0) db Hdrawn) in Hins.
  injection Hins as <- <-.
  apply then_Resolved in H. destruct H as (did & db1' & [= <- <-] & H).
  apply then_Resolved in H. destruct H as ([] & db2 & Hadmin & H).
  apply then_Resolved in H. destruct H as ([] & db3 & Hrep & H).
  apply then_Resolved in H. destruct H as (au & db3' & [= <- <-] & H).
  apply then_Resolved in H. destruct H as (aid & db3' & Hfirst & H).
  assert (db3' = db3) as ->
    by (destruct (map _ _) in Hfirst; [discriminate | now injection Hfirst]).
  apply then_Resolved in H. destruct H as ([] & db4 & Hsamples & H).
  do 3 (apply then_Resolved in H; destruct H as (? & ? & [= <- <-] & H)).
  injection H as <-.
  assert (Eu : users db4 = users db3).
  { pose proof (keeps_users_insert_samples env aid (dealerships_id_seq db)
                  sampleLeads 3 db3) as K.
    now rewrite Hsamples in K. }
  rewrite Eu.
  apply upsert_user_resolved in Hadmin; try (cbn; lia); auto.
  apply upsert_user_resolved in Hrep; try (cbn; lia); auto.
  destruct Hadmin as (A1 & (ua & Hua & Eua) & A3 & A4).
  destruct Hrep as (R1 & Hur & R3 & R4).
  split; [|split].
  - exists ua. split; [|exact Eua]. apply R4; [exact Hua|].
    rewrite Eua. discriminate.
  - exact Hur.
  - intros u Hin. split; intros He.
    + apply A1; [|exact He]. apply R3; [exact Hin|].
      rewrite He. discriminate.
    + now apply R1.
Qed.

End SeedUserFacts.

(* ================================================================== *)
(** * The statements behind the handlers *)
(* ================================================================== *)

Module HandlerFacts.
Import Sql Statements Seed Handlers DbSpec ExtractSpec SqlFacts.

(** ** ORDER BY keeps the rows *)

Lemma In_insert_desc l x rows :
  In x (insert_desc l rows) <-> x = l \/ In x rows.
Proof.
  induction rows as [|y rows IH]; simpl.
  - intuition.
  - destruct (later_or_equal _ _); simpl; [intuition|].
    rewrite IH. intuition.
Qed.

Lemma In_order_by x rows :
  In x (order_by_created_at_desc rows) <-> In x rows.
Proof.
  unfold order_by_created_at_desc.
  induction rows as [|y rows IH]; simpl; [reflexivity|].
  rewrite In_insert_desc, IH. intuition.
Qed.

(** ** [GET /api/leads] for a caller who is not an administrator *)

Lemma get_leads_non_admin db user status p :
  not_admin user = true ->
  get_leads db user status p
  = match select_leads (DealershipIs (Some (dealership_id user)))
            (if truthy status then status else None) db with
    | Some rows => mkResponse 200 (JLeads rows)
    | None => mkResponse 500 (JError (str "Failed to get leads"))
    end.
Proof. intros H. unfold get_leads. now rewrite H. Qed.

Lemma eq_int_true column p :
  eq_int column p = true <-> exists d, column = Some d /\ p = Some d.
Proof.
  unfold eq_int. destruct column as [a|], p as [b|]; split;
    try discriminate;
    try (intros (d & E1 & E2); discriminate).
  - intros H. apply Z.eqb_eq in H. subst. eauto.
  - intros (d & [= ->] & [= ->]). apply Z.eqb_refl.
Qed.

Lemma select_leads_by_dealership dealer status db rows :
  select_leads (DealershipIs (Some dealer)) status db = Some rows ->
  forall l, In l rows ->
    In l (leads db) /\ eq_int (Lead.dealership_id l) dealer = true.
Proof.
  unfold select_leads.
  destruct (match status with
            | Some s => _
            | None => _
            end) as [by_status|]; [|discriminate].
  intros [= <-] l Hin. apply In_order_by, filter_In in Hin.
  destruct Hin as [Hin Ht]. apply andb_true_iff in Ht. now split.
Qed.

Lemma select_leads_all_of_dealership dealer db l :
  In l (leads db) -> eq_int (Lead.dealership_id l) dealer = true ->
  exists rows,
    select_leads (DealershipIs (Some dealer)) None db = Some rows /\
    In l rows.
Proof.
  intros Hin Hd. unfold select_leads. eexists. split; [reflexivity|].
  apply In_order_by, filter_In. split; [exact Hin|].
  now rewrite Hd.
Qed.

(** ** [UPDATE leads ...] *)

Lemma set_varchar_spec n p stored new :
  set_varchar n p stored = Some new -> set_or_kept n p stored new.
Proof.
  unfold set_varchar, set_or_kept. destruct p as [v|].
  - destruct (varchar n v) as [v'|]; [|discriminate].
    intros [= <-]. eauto.
  - now intros [= <-].
Qed.

Lemma updated_row_spec now b assigned db l l' :
  updated_row now b assigned db l = Some l' ->
  updated_from now b assigned l l'.
Proof.
  unfold updated_row.
  destruct (set_varchar 255 (new_customer_name b) _) as [[n1|]|] eqn:E1;
    try discriminate.
  destruct (set_varchar 255 (new_customer_email b) _) as [n2|] eqn:E2;
    try discriminate.
  destruct (set_varchar 20 (new_customer_phone b) _) as [n3|] eqn:E3;
    try discriminate.
  destruct (set_varchar 255 (new_vehicle_interest b) _) as [n4|] eqn:E4;
    try discriminate.
  destruct (set_varchar 50 (new_status b) _) as [n5|] eqn:E5;
    try discriminate.
  destruct (set_varchar 20 (new_priority b) _) as [n6|] eqn:E6;
    try discriminate.
  destruct (match assigned with Some _ => _ | None => _ end);
    [discriminate|].
  intros [= <-]. unfold updated_from. cbn.
  repeat split; auto using set_varchar_spec.
Qed.

Lemma update_rows_spec now b assigned id dealer db : forall rows table returned,
  update_rows now b assigned id dealer db rows = Some (table, returned) ->
  Forall2 (updated_in_scope now b assigned id dealer) rows table /\
  (forall r, In r returned ->
     In r table /\
     exists l, In l rows /\ in_scope id dealer l = true /\
               updated_from now b assigned l r) /\
  (returned = [] <-> forall l, In l rows -> in_scope id dealer l = false).
Proof.
  induction rows as [|l rows IH]; intros table returned; simpl.
  - intros [= <- <-]. split; [constructor|]. split.
    + intros r [].
    + split; [intros _ l [] | reflexivity].
  - destruct (update_rows now b assigned id dealer db rows)
      as [[table0 returned0]|] eqn:E; [|discriminate].
    destruct (IH _ _ eq_refl) as (F & R & N).
    destruct (in_scope id dealer l) eqn:S.
    + destruct (updated_row now b assigned db l) as [l'|] eqn:U;
        [|discriminate].
      apply updated_row_spec in U. intros [= <- <-].
      split; [|split; [|split]].
      * constructor; [|exact F]. unfold updated_in_scope. now rewrite S.
      * intros r [<-|H].
        -- split; [now left|]. exists l. split; [now left | now split].
        -- destruct (R r H) as (Ht & l0 & Hin & Hs & Hu).
           split; [now right|]. exists l0. split; [now right | now split].
      * discriminate.
      * intros H. specialize (H l (or_introl eq_refl)). congruence.
    + intros [= <- <-]. split; [|split; [|split]].
      * constructor; [|exact F]. unfold updated_in_scope. now rewrite S.
      * intros r H. destruct (R r H) as (Ht & l0 & Hin & Hs & Hu).
        split; [now right|]. exists l0. split; [now right | now split].
      * intros -> l0 [<-|Hin]; [exact S | now apply N].
      * intros H. apply N. intros l0 Hin. apply H. now right.
Qed.

Lemma update_rows_out_of_scope now b assigned id dealer db : forall rows,
  (forall l, In l rows -> in_scope id dealer l = false) ->
  update_rows now b assigned id dealer db rows = Some (rows, []).
Proof.
  induction rows as [|l rows IH]; intros H; simpl; [reflexivity|].
  rewrite IH by (intros l0 Hin; apply H; now right).
  now rewrite (H l (or_introl eq_refl)).
Qed.


(** ** An update is carried out when its parameters are acceptable *)








Lemma with_leads_same db : with_leads db (leads db) (leads_id_seq db) = db.
Proof. now destruct db. Qed.

(** ** [INSERT INTO leads ...] *)

Lemma insert_lead_resolved now p1 p2 p3 p4 p5 p6 p7 p8 a d c db rows db' :
  insert_lead false now p1 p2 p3 p4 p5 p6 p7 p8 a d c db
    = Resolved rows db' ->
  exists l,
    rows = [l] /\ leads db' = leads db ++ [l] /\
    Lead.id l = leads_id_seq db /\
    store_varchar 255 p1 = Some (Some (Lead.customer_name l)) /\
    store_varchar 100 p5 = Some (Lead.source l) /\
    store_varchar 20 p7 = Some (Lead.priority l) /\
    store_varchar 50 p8 = Some (Lead.status l) /\
    Lead.assigned_to l = a /\ Lead.dealership_id l = d /\
    (exists t, created_at_value now c = Some t /\
               Lead.created_at l = Some t) /\
    Lead.updated_at l = Some now /\
    dealerships db' = dealerships db /\ users db' = users db.
Proof.
  unfold insert_lead.
  destruct (store_varchar 255 p1) as [[n1|]|]; try discriminate.
  all: destruct (store_varchar 255 p2) as [n2|]; try discriminate.
  all: destruct (store_varchar 20 p3) as [n3|]; try discriminate.
  all: destruct (store_varchar 255 p4) as [n4|]; try discriminate.
  all: destruct (store_varchar 100 p5) as [n5|]; try discriminate.
  all: destruct (store_text p6) as [n6|]; try discriminate.
  all: destruct (store_varchar 20 p7) as [n7|]; try discriminate.
  all: destruct (store_varchar 50 p8) as [n8|]; try discriminate.
  all: destruct (send_int4 a) as [a'|] eqn:Ea; try discriminate.
  all: destruct (send_int4 d) as [d'|] eqn:Ed; try discriminate.
  all: destruct (created_at_value now c) as [t|]; try discriminate.
  apply send_int4_same in Ea, Ed. subst a' d'.
  destruct (lead_exists db (leads_id_seq db)); [discriminate|].
  destruct (negb _); [discriminate|].
  intros [= <- <-]. eexists.
  repeat match goal with |- _ /\ _ => split end; try reflexivity.
  eexists. split; reflexivity.
Qed.

(** What an accepted INSERT has gone through. *)
Lemma insert_lead_resolved_because flag now p1 p2 p3 p4 p5 p6 p7 p8 a d c db
  l db' :
  insert_lead flag now p1 p2 p3 p4 p5 p6 p7 p8 a d c db = Resolved [l] db' ->
  store_varchar 255 p2 <> None /\ store_varchar 20 p3 <> None /\
  store_varchar 255 p4 <> None /\ store_text p6 <> None /\
  lead_exists db (leads_id_seq db) = false /\
  references (user_exists db) a = true /\
  references (dealership_exists db) d = true.
Proof.
  unfold insert_lead.
  destruct (store_varchar 255 p1) as [[n1|]|]; try discriminate.
  all: destruct (store_varchar 255 p2) as [n2|]; try discriminate.
  all: destruct (store_varchar 20 p3) as [n3|]; try discriminate.
  all: destruct (store_varchar 255 p4) as [n4|]; try discriminate.
  all: destruct (store_varchar 100 p5) as [n5|]; try discriminate.
  all: destruct (store_text p6) as [n6|]; try discriminate.
  all: destruct (store_varchar 20 p7) as [n7|]; try discriminate.
  all: destruct (store_varchar 50 p8) as [n8|]; try discriminate.
  all: destruct (send_int4 a) as [a'|] eqn:Ea; try discriminate.
  all: destruct (send_int4 d) as [d'|] eqn:Ed; try discriminate.
  all: destruct (created_at_value now c) as [t|]; try discriminate.
  apply send_int4_same in Ea, Ed. subst a' d'.
  destruct (lead_exists db (leads_id_seq db));
    [destruct flag; discriminate|].
  destruct (references (user_exists db) a); [|discriminate].
  destruct (references (dealership_exists db) d); [|discriminate].
  intros _. repeat split; discriminate.
Qed.

(** A refused INSERT changes no table and no other sequence; the sequence
    of the lead keys stands where it was or one further. *)
Lemma insert_lead_rejected flag now p1 p2 p3 p4 p5 p6 p7 p8 a d c db db' :
  insert_lead flag now p1 p2 p3 p4 p5 p6 p7 p8 a d c db = Rejected db' ->
  leads db' = leads db /\ dealerships db' = dealerships db /\
  users db' = users db /\
  dealerships_id_seq db' = dealerships_id_seq db /\
  users_id_seq db' = users_id_seq db /\
  (leads_id_seq db' = leads_id_seq db \/
   leads_id_seq db' = (leads_id_seq db + 1)%Z).
Proof.
  unfold insert_lead.
  repeat match goal with
         | |- context [match ?x with _ => _ end] => destruct x
         end; intros [= <-]; cbn; repeat split; auto.
Qed.

Lemma insert_lead_accepted now p1 p2 p3 p4 p5 p6 p7 p8 a d c db :
  (exists n1, store_varchar 255 p1 = Some (Some n1)) ->
  store_varchar 255 p2 <> None -> store_varchar 20 p3 <> None ->
  store_varchar 255 p4 <> None -> store_varchar 100 p5 <> None ->
  store_text p6 <> None -> store_varchar 20 p7 <> None ->
  store_varchar 50 p8 <> None ->
  is_integer a -> is_integer d ->
  created_at_value now c <> None ->
  lead_exists db (leads_id_seq db) = false ->
  references (user_exists db) a = true ->
  references (dealership_exists db) d = true ->
  exists rows db',
    insert_lead false now p1 p2 p3 p4 p5 p6 p7 p8 a d c db
    = Resolved rows db'.
Proof.
  intros [n1 E1] H2 H3 H4 H5 H6 H7 H8 Ia Id Hc Hl Ha Hd. unfold insert_lead.
  apply send_int4_integer in Ia, Id.
  rewrite E1, Ia, Id, Hl, Ha, Hd.
  destruct (store_varchar 255 p2); [|congruence].
  destruct (store_varchar 20 p3); [|congruence].
  destruct (store_varchar 255 p4); [|congruence].
  destruct (store_varchar 100 p5); [|congruence].
  destruct (store_text p6); [|congruence].
  destruct (store_varchar 20 p7); [|congruence].
  destruct (store_varchar 50 p8); [|congruence].
  destruct (created_at_value now c); [|congruence].
  simpl. eauto.
Qed.

(** ** The received date as a parameter *)

Lemma date_parameter_storable ms :
  date_storable ms ->
  date_parameter (Some ms) = Some (1000 * ms)%Z /\
  store_timestamp (1000 * ms) = Some (1000 * ms)%Z.
Proof.
  unfold date_storable, date_parameter, time_clip, store_timestamp,
    in_timestamp_range, min_timestamp, end_timestamp.
  intros H.
  assert (E1 : Z.leb (Z.abs ms) 8640000000000000 = true)
    by (apply Z.leb_le; lia).
  assert (E2 : Z.leb (- 210866803200000000) (1000 * ms) = true)
    by (apply Z.leb_le; lia).
  assert (E3 : Z.ltb (1000 * ms) 9224318016000000000 = true)
    by (apply Z.ltb_lt; lia).
  rewrite E1. cbn [option_map]. rewrite E2, E3. now split.
Qed.

Lemma date_parameter_stored received t t' :
  date_parameter received = Some t -> store_timestamp t = Some t' ->
  exists ms, received = Some ms /\ date_storable ms /\
             t = (1000 * ms)%Z /\ t' = t.
Proof.
  unfold date_storable, date_parameter, time_clip, store_timestamp,
    in_timestamp_range, min_timestamp, end_timestamp.
  destruct received as [ms|]; [|discriminate].
  destruct (Z.leb (Z.abs ms) 8640000000000000) eqn:E1; [|discriminate].
  cbn [option_map]. intros Ht.
  assert (E : t = (1000 * ms)%Z) by congruence. subst t. clear Ht.
  destruct (Z.leb (- 210866803200000000) (1000 * ms)) eqn:E2;
    destruct (Z.ltb (1000 * ms) 9224318016000000000) eqn:E3;
    cbn [andb]; try discriminate.
  intros Et. assert (E : t' = (1000 * ms)%Z) by congruence.
  exists ms. apply Z.leb_le in E1, E2. repeat split; lia.
Qed.

End HandlerFacts.

(* ================================================================== *)
(** * The token check *)
(* ================================================================== *)

Module AuthFacts.
Import Sql Statements Handlers Routes ExtractSpec RouteSpec ExtractFacts.

(** The first piece [split] gives, and what it leaves. *)
Lemma split_first sep s first more :
  split sep s = first :: more ->
  ~ In sep first /\
  ((more = [] /\ s = first) \/
   exists s', s = first ++ sep :: s' /\ split sep s' = more).
Proof.
  revert first more. induction s as [|c s IH]; intros first more; simpl.
  - intros [= <- <-]. split; [intros []|]. left. now split.
  - destruct (Ascii.eqb c sep) eqn:E.
    + apply Ascii.eqb_eq in E. subst c. intros [= <- <-].
      split; [intros []|]. right. now exists s.
    + assert (Hc : c <> sep) by (intros ->; now rewrite Ascii.eqb_refl in E).
      destruct (split sep s) as [|h t] eqn:Es.
      * destruct (split_nonempty sep s) as (x & y & Hxy). congruence.
      * intros [= <- <-]. destruct (IH h t eq_refl) as (Hno & Hcase).
        split.
        -- intros [Heq|Hin]; [now apply Hc | now apply Hno].
        -- destruct Hcase as [[-> ->]|(s' & -> & Hs')].
           ++ left. now split.
           ++ right. exists s'. now split.
Qed.

Lemma split_no_sep sep s : ~ In sep s -> split sep s = [s].
Proof.
  induction s as [|c s IH]; intros H; simpl; [reflexivity|].
  destruct (Ascii.eqb c sep) eqn:E.
  - apply Ascii.eqb_eq in E. subst. elim H. now left.
  - rewrite IH by (intros Hin; apply H; now right). reflexivity.
Qed.

Lemma split_app_sep sep first s :
  ~ In sep first -> split sep (first ++ sep :: s) = first :: split sep s.
Proof.
  induction first as [|c first IH]; intros H; simpl.
  - now rewrite Ascii.eqb_refl.
  - destruct (Ascii.eqb c sep) eqn:E.
    + apply Ascii.eqb_eq in E. subst. elim H. now left.
    + rewrite IH by (intros Hin; apply H; now right). reflexivity.
Qed.

Lemma split_head_word sep word rest :
  ~ In sep word -> (rest = [] \/ exists r, rest = sep :: r) ->
  exists more, split sep (word ++ rest) = word :: more.
Proof.
  intros Hw [->|(r & ->)].
  - rewrite app_nil_r, split_no_sep by assumption. eauto.
  - rewrite split_app_sep by assumption. eauto.
Qed.

Lemma bearer_token_second_word header word :
  second_word header word -> bearer_token (Some header) = Some word.
Proof.
  intros (first & rest & -> & Hf & Hw & Hne & Hrest).
  unfold bearer_token.
  destruct (first ++ " "%char :: word ++ rest) as [|c h] eqn:E.
  - destruct first; discriminate.
  - rewrite <- E, split_app_sep by assumption.
    destruct (split_head_word " "%char word rest Hw Hrest) as (more & ->).
    reflexivity.
Qed.

Lemma bearer_token_nonempty header word :
  bearer_token (Some header) = Some word -> word <> [] ->
  second_word header word.
Proof.
  unfold bearer_token. destruct header as [|c h]; [now intros [= <-] H|].
  intros H Hne.
  destruct (split_nonempty " "%char (c :: h)) as (first & more & Es).
  rewrite Es in H. destruct more as [|w more']; [discriminate|].
  injection H as ->.
  destruct (split_first _ _ _ _ Es) as (Hf & [[? _]|(s' & E1 & E2)]);
    [discriminate|].
  destruct (split_first _ _ _ _ E2) as (Hw & Hcase).
  exists first. destruct Hcase as [[-> ->]|(s'' & -> & _)].
  - exists []. rewrite app_nil_r. repeat split; auto.
  - exists (" "%char :: s''). repeat split; auto. right. now exists s''.
Qed.

Lemma authenticate_second_word (jwt_verify : jstring -> option token_payload) header word :
  second_word header word ->
  authenticateToken jwt_verify (Some header)
  = match jwt_verify word with
    | Some user => Next user
    | None => SendStatus 403
    end.
Proof.
  intros H. unfold authenticateToken.
  rewrite (bearer_token_second_word header word H).
  destruct H as (_ & _ & _ & _ & _ & Hne & _).
  destruct word; [now elim Hne | reflexivity].
Qed.

End AuthFacts.

(* ================================================================== *)
(** * Login, lead creation and analytics *)
(* ================================================================== *)

Module RouteFacts.
Import Sql Statements Seed Handlers Routes ExtractSpec DbSpec RouteSpec.
Import SeedUserFacts SqlFacts HandlerFacts.

Lemma NoDup_map_injective (A B : Type) (f : A -> B) (l : list A) x y :
  NoDup (map f l) -> In x l -> In y l -> f x = f y -> x = y.
Proof.
  induction l as [|a l IH]; simpl; [intros _ []|].
  intros Hnd Hx Hy E. inversion Hnd as [|? ? Hnotin Hnd']; subst.
  destruct Hx as [<-|Hx], Hy as [<-|Hy]; auto.
  - elim Hnotin. rewrite E. now apply in_map.
  - elim Hnotin. rewrite <- E. now apply in_map.
Qed.

Lemma store_text_nul_free e : nul_free e -> store_text (Some e) = Some (Some e).
Proof. unfold nul_free, store_text, text_in. now intros ->. Qed.

(** With unique emails the query of login finds the user, first. *)
Lemma select_users_by_email_unique db u :
  emails_unique db -> In u (users db) -> nul_free (User.email u) ->
  exists more,
    select_users_by_email (Some (User.email u)) db = Some (u :: more).
Proof.
  intros Hu Hin Hn. unfold select_users_by_email.
  rewrite (store_text_nul_free _ Hn).
  destruct (filter _ (users db)) as [|v more] eqn:E.
  - assert (Hf : In u (filter (fun w => jstring_eqb (User.email w)
                                          (User.email u)) (users db))).
    { apply filter_In. split; [exact Hin | now apply jstring_eqb_eq]. }
    rewrite E in Hf. contradiction.
  - assert (Hv : In v (filter (fun w => jstring_eqb (User.email w)
                                          (User.email u)) (users db)))
      by (rewrite E; now left).
    apply filter_In in Hv. destruct Hv as [Hv Ev].
    apply jstring_eqb_eq in Ev.
    rewrite (NoDup_map_injective _ _ User.email (users db) v u Hu Hv Hin Ev).
    eauto.
Qed.

Lemma select_users_by_email_unknown db e :
  nul_free e -> (forall u, In u (users db) -> User.email u <> e) ->
  select_users_by_email (Some e) db = Some [].
Proof.
  intros Hn Hno. unfold select_users_by_email.
  rewrite (store_text_nul_free _ Hn). f_equal.
  destruct (filter _ (users db)) as [|v more] eqn:E; [reflexivity|].
  assert (Hv : In v (filter (fun w => jstring_eqb (User.email w) e)
                       (users db))) by (rewrite E; now left).
  apply filter_In in Hv. destruct Hv as [Hv Ev].
  apply jstring_eqb_eq in Ev. now elim (Hno v Hv).
Qed.

Lemma select_users_by_email_known db e :
  nul_free e -> (exists u, In u (users db) /\ User.email u = e) ->
  exists v more, select_users_by_email (Some e) db = Some (v :: more).
Proof.
  intros Hn (u & Hin & He). unfold select_users_by_email.
  rewrite (store_text_nul_free _ Hn).
  destruct (filter _ (users db)) as [|v more] eqn:E; [|eauto].
  assert (Hf : In u (filter (fun w => jstring_eqb (User.email w) e)
                       (users db))).
  { apply filter_In. split; [exact Hin | now apply jstring_eqb_eq]. }
  rewrite E in Hf. contradiction.
Qed.

(** No lead is in the scope of a caller without a dealership. *)
Lemma nothing_in_scope_of_none id l : in_scope id None l = false.
Proof.
  unfold in_scope, eq_int. destruct (Lead.dealership_id l);
    now rewrite andb_false_r.
Qed.

(** ** ORDER BY *)

Lemma length_insert_desc l rows :
  length (insert_desc l rows) = S (length rows).
Proof.
  induction rows as [|x rows IH]; simpl; [reflexivity|].
  destruct (later_or_equal _ _); simpl; [reflexivity | now rewrite IH].
Qed.

Lemma length_order_by rows :
  length (order_by_created_at_desc rows) = length rows.
Proof.
  unfold order_by_created_at_desc.
  induction rows as [|x rows IH]; simpl; [reflexivity|].
  now rewrite length_insert_desc, IH.
Qed.

(** ** GROUP BY *)












End RouteFacts.

(* ================================================================== *)
(** * Ordering, creation and repeated updates *)
(* ================================================================== *)

Module LeadFacts.
Import Sql Statements Seed Handlers Routes ExtractSpec DbSpec RouteSpec.
Import SeedUserFacts SqlFacts HandlerFacts RouteFacts.

(** ** ORDER BY sorts *)

Lemma later_or_equal_total a b :
  later_or_equal a b = true \/ later_or_equal b a = true.
Proof.
  destruct a as [x|], b as [y|]; simpl; auto.
  rewrite !Z.leb_le. lia.
Qed.

Lemma later_or_equal_trans a b c :
  later_or_equal a b = true -> later_or_equal b c = true ->
  later_or_equal a c = true.
Proof.
  destruct a as [x|], b as [y|], c as [z|]; simpl; auto; try discriminate.
  rewrite !Z.leb_le. lia.
Qed.

Lemma insert_desc_sorted l rows :
  newest_first rows -> newest_first (insert_desc l rows).
Proof.
  unfold newest_first. induction rows as [|x rows IH]; simpl; intros H.
  - repeat constructor.
  - inversion H as [|? ? Hx Hrest]; subst.
    destruct (later_or_equal (Lead.created_at l) (Lead.created_at x)) eqn:E.
    + constructor; [|exact H]. constructor; [exact E|].
      eapply Forall_impl; [|exact Hx]. intros y Hy.
      eapply later_or_equal_trans; eauto.
    + constructor; [|now apply IH].
      apply Forall_forall. intros y Hy. apply In_insert_desc in Hy.
      destruct Hy as [->|Hy].
      * destruct (later_or_equal_total (Lead.created_at l)
                    (Lead.created_at x)); congruence.
      * rewrite Forall_forall in Hx. now apply Hx.
Qed.

Lemma order_by_sorted rows : newest_first (order_by_created_at_desc rows).
Proof.
  unfold order_by_created_at_desc.
  induction rows as [|x rows IH]; simpl; [constructor|].
  now apply insert_desc_sorted.
Qed.

(** Every list [select_leads] answers is in the order of ORDER BY. *)
Lemma select_leads_sorted dealer status db rows :
  select_leads dealer status db = Some rows -> newest_first rows.
Proof.
  unfold select_leads.
  destruct (match dealer with NoClause => _ | DealershipIs _ => _ end);
    [|discriminate].
  destruct (match status with Some _ => _ | None => _ end); [|discriminate].
  intros [= <-]. apply order_by_sorted.
Qed.

Lemma get_leads_rows db user status p rows :
  payload (get_leads db user status p) = JLeads rows ->
  exists dealer st, select_leads dealer st db = Some rows.
Proof.
  unfold get_leads.
  match goal with
  | |- context [select_leads ?d ?s db] =>
      destruct (select_leads d s db) as [rows'|] eqn:E
  end; cbn; [|discriminate].
  intros [= <-]. eauto.
Qed.

(** ** Filters *)




Lemma filter_all (A : Type) (f : A -> bool) (l : list A) :
  (forall x, f x = true) -> filter f l = l.
Proof.
  intros H. induction l as [|x l IH]; simpl; [reflexivity|].
  now rewrite H, IH.
Qed.



(** ** [INSERT INTO leads] refused *)





(** ** [UPDATE leads] applied again *)

Lemma coalesce_again (A : Type) (p x : option A) :
  coalesce p (coalesce p x) = coalesce p x.
Proof. now destruct p. Qed.

Lemma set_varchar_again n p column new :
  set_varchar n p column = Some new -> set_varchar n p new = Some new.
Proof.
  unfold set_varchar. destruct p as [v|]; [auto|]. now intros [= ->].
Qed.

Lemma updated_row_again now b assigned db db2 l l' :
  updated_row now b assigned db l = Some l' ->
  updated_row now b assigned db2 l' = Some l'.
Proof.
  unfold updated_row.
  destruct (set_varchar 255 (new_customer_name b) _) as [[n1|]|] eqn:E1;
    try discriminate.
  destruct (set_varchar 255 (new_customer_email b) _) as [n2|] eqn:E2;
    try discriminate.
  destruct (set_varchar 20 (new_customer_phone b) _) as [n3|] eqn:E3;
    try discriminate.
  destruct (set_varchar 255 (new_vehicle_interest b) _) as [n4|] eqn:E4;
    try discriminate.
  destruct (set_varchar 50 (new_status b) _) as [n5|] eqn:E5;
    try discriminate.
  destruct (set_varchar 20 (new_priority b) _) as [n6|] eqn:E6;
    try discriminate.
  destruct (match assigned with Some _ => _ | None => _ end);
    [discriminate|].
  intros [= <-]. cbn.
  rewrite (set_varchar_again _ _ _ _ E1), (set_varchar_again _ _ _ _ E2),
    (set_varchar_again _ _ _ _ E3), (set_varchar_again _ _ _ _ E4),
    (set_varchar_again _ _ _ _ E5), (set_varchar_again _ _ _ _ E6).
  rewrite !coalesce_again.
  destruct assigned as [u|]; [|reflexivity].
  cbn. now rewrite Z.eqb_refl.
Qed.

Lemma updated_row_scope now b assigned db id dealer l l' :
  updated_row now b assigned db l = Some l' ->
  in_scope id dealer l' = in_scope id dealer l.
Proof.
  intros H. apply updated_row_spec in H.
  destruct H as (Hid & _ & _ & _ & _ & _ & _ & _ & _ & _ & Hd & _).
  unfold in_scope. now rewrite Hid, Hd.
Qed.

Lemma update_rows_again now b assigned id dealer db db2 :
  forall rows table returned,
    update_rows now b assigned id dealer db rows = Some (table, returned) ->
    update_rows now b assigned id dealer db2 table = Some (table, returned).
Proof.
  induction rows as [|l rows IH]; intros table returned; simpl.
  - now intros [= <- <-].
  - destruct (update_rows now b assigned id dealer db rows)
      as [[table0 returned0]|] eqn:E; [|discriminate].
    specialize (IH _ _ eq_refl).
    destruct (in_scope id dealer l) eqn:S.
    + destruct (updated_row now b assigned db l) as [l'|] eqn:U;
        [|discriminate].
      intros [= <- <-]. simpl. rewrite IH.
      rewrite (updated_row_scope _ _ _ _ id dealer _ _ U), S.
      now rewrite (updated_row_again now b assigned db db2 l l' U).
    + intros [= <- <-]. simpl. now rewrite IH, S.
Qed.

(** ** What an update keeps in every row *)

Lemma updated_in_scope_keeps now b assigned id dealer l l' :
  updated_in_scope now b assigned id dealer l l' ->
  Lead.id l' = Lead.id l /\
  Lead.dealership_id l' = Lead.dealership_id l /\
  Lead.source l' = Lead.source l /\
  Lead.created_at l' = Lead.created_at l.
Proof.
  unfold updated_in_scope. destruct (in_scope id dealer l).
  - intros (Hid & _ & _ & _ & _ & _ & _ & _ & _ & Hs & Hd & Hc & _).
    now repeat split.
  - intros ->. now repeat split.
Qed.

Lemma Forall2_map_eq (A B : Type) (R : A -> A -> Prop) (f : A -> B) l l' :
  Forall2 R l l' -> (forall x y, R x y -> f y = f x) -> map f l' = map f l.
Proof.
  intros F H. induction F as [|x y l l' Hxy F IH]; simpl; [reflexivity|].
  now rewrite (H x y Hxy), IH.
Qed.

End LeadFacts.

(* ================================================================== *)
(** * The seed script: constraints kept, sample leads added *)
(* ================================================================== *)

Module SeedMoreFacts.
Import Sql Statements Seed Handlers Routes DbSpec RouteSpec.
Import SeedFacts SeedUserFacts RouteFacts.

Lemma preserves_ret (A : Type) P (a : A) : preserves P (ret a).
Proof. intros db H. exact H. Qed.

Lemma preserves_throw (A : Type) P : preserves P (@throw A).
Proof. intros db H. exact H. Qed.

Lemma preserves_then (A B : Type) P (m : script A) (k : A -> script B) :
  preserves P m -> (forall a, preserves P (k a)) -> preserves P (then_ m k).
Proof.
  intros Hm Hk db H. rewrite after_then. specialize (Hm db H).
  destruct (m db) as [a db'|db']; cbn [after] in *; [|exact Hm].
  now apply Hk.
Qed.

Lemma preserves_same_users (A : Type) (m : script A) :
  keeps_users m -> preserves users_unique m.
Proof.
  intros K db H. unfold users_unique in *. now rewrite (K db).
Qed.

Lemma keeps_users_insert_dealership now n a p e :
  keeps_users (insert_dealership now n a p e).
Proof.
  intros db. unfold insert_dealership.
  repeat match goal with
         | |- context [match ?x with _ => _ end] => destruct x
         end; reflexivity.
Qed.

Lemma map_upsert_email p n r d e (l : list User.t) :
  map User.email
    (map (fun u => if jstring_eqb (User.email u) e
                   then upsert_fields p n r d u else u) l)
  = map User.email l.
Proof.
  induction l as [|u l IH]; simpl; [reflexivity|].
  rewrite IH. now destruct (jstring_eqb (User.email u) e).
Qed.

Lemma map_upsert_id p n r d e (l : list User.t) :
  map User.id
    (map (fun u => if jstring_eqb (User.email u) e
                   then upsert_fields p n r d u else u) l)
  = map User.id l.
Proof.
  induction l as [|u l IH]; simpl; [reflexivity|].
  rewrite IH. now destruct (jstring_eqb (User.email u) e).
Qed.

Lemma NoDup_snoc (A : Type) (l : list A) x :
  NoDup l -> ~ In x l -> NoDup (l ++ [x]).
Proof.
  intros H Hx. apply NoDup_app; [exact H | repeat constructor; intros [] |].
  intros y Hy [<-|[]]. contradiction.
Qed.

(** The upsert keeps the keys and the emails of [users] unique. *)
Lemma preserves_upsert_user now email password name role dealer :
  preserves users_unique (upsert_user now email password name role dealer).
Proof.
  intros db [Hid Hem]. unfold upsert_user.
  destruct (store_varchar 255 email) as [[e'|]|];
    destruct (store_varchar 255 password) as [[p'|]|];
    destruct (store_varchar 255 name) as [[n'|]|];
    destruct (store_varchar 50 role) as [r'|];
    destruct (send_int4 dealer) as [dealer'|]; try (now split).
  destruct (negb _); [now split|].
  destruct (existsb _ (users db)) eqn:Ex.
  - cbn [after users with_users]. unfold users_unique.
    cbn [users with_users]. now rewrite map_upsert_email, map_upsert_id.
  - destruct (user_exists db (users_id_seq db)) eqn:Eu; [now split|].
    cbn [after]. unfold users_unique. cbn [users with_users].
    rewrite !map_app. cbn [map User.id User.email]. split.
    + apply NoDup_snoc; [exact Hid|]. intros Hin.
      apply in_map_iff in Hin. destruct Hin as (u & E & Hu).
      assert (T : user_exists db (users_id_seq db) = true).
      { unfold user_exists. apply existsb_exists. exists u.
        split; [exact Hu | now apply Z.eqb_eq]. }
      congruence.
    + apply NoDup_snoc; [exact Hem|]. intros Hin.
      apply in_map_iff in Hin. destruct Hin as (u & E & Hu).
      assert (T : existsb (fun u => jstring_eqb (User.email u) e')
                    (users db) = true).
      { apply existsb_exists. exists u.
        split; [exact Hu | now apply jstring_eqb_eq]. }
      congruence.
Qed.

Lemma preserves_setup_steps env : preserves users_unique (setup_steps env).
Proof.
  unfold setup_steps, create_if_not_exists, first_id.
  repeat first
    [ apply preserves_ret
    | apply preserves_throw
    | apply preserves_upsert_user
    | apply preserves_same_users;
      first [ apply keeps_users_insert_dealership
            | apply keeps_users_insert_samples
            | intros ?; reflexivity ]
    | apply preserves_then; [|intros ?]
    | match goal with
      | |- preserves _ (match ?x with _ => _ end) => destruct x
      end ].
Qed.

(** ** The sample leads *)

Lemma upsert_user_keeps_leads now e p n r d db :
  leads (after (upsert_user now e p n r d db)) = leads db /\
  leads_id_seq (after (upsert_user now e p n r d db)) = leads_id_seq db.
Proof.
  unfold upsert_user.
  repeat match goal with
         | |- context [match ?x with _ => _ end] => destruct x
         end; split; reflexivity.
Qed.

Lemma drawn_lead_not_stored db :
  lead_keys_drawn db -> lead_exists db (leads_id_seq db) = false.
Proof.
  unfold lead_keys_drawn, lead_exists. intros H.
  destruct (existsb _ (leads db)) eqn:E; [|reflexivity].
  apply existsb_exists in E. destruct E as (l & Hin & Heq).
  apply Z.eqb_eq in Heq. specialize (H l Hin). lia.
Qed.

Lemma insert_lead_drawn flag now p1 p2 p3 p4 p5 p6 p7 p8 a d c db rows db' :
  lead_keys_drawn db ->
  insert_lead flag now p1 p2 p3 p4 p5 p6 p7 p8 a d c db = Resolved rows db' ->
  exists l,
    leads db' = leads db ++ [l] /\
    store_varchar 255 p1 = Some (Some (Lead.customer_name l)) /\
    Lead.assigned_to l = a /\ Lead.dealership_id l = d /\
    lead_keys_drawn db'.
Proof.
  intros Hdrawn. unfold insert_lead.
  destruct (store_varchar 255 p1) as [[n1|]|]; try discriminate.
  all: destruct (store_varchar 255 p2) as [n2|]; try discriminate.
  all: destruct (store_varchar 20 p3) as [n3|]; try discriminate.
  all: destruct (store_varchar 255 p4) as [n4|]; try discriminate.
  all: destruct (store_varchar 100 p5) as [n5|]; try discriminate.
  all: destruct (store_text p6) as [n6|]; try discriminate.
  all: destruct (store_varchar 20 p7) as [n7|]; try discriminate.
  all: destruct (store_varchar 50 p8) as [n8|]; try discriminate.
  all: destruct (send_int4 a) as [a'|] eqn:Ea; try discriminate.
  all: destruct (send_int4 d) as [d'|] eqn:Ed; try discriminate.
  all: destruct (created_at_value now c) as [t|]; try discriminate.
  apply SqlFacts.send_int4_same in Ea, Ed. subst a' d'.
  rewrite (drawn_lead_not_stored db Hdrawn).
  destruct (negb _); [discriminate|].
  intros [= <- <-]. eexists. cbn [leads with_leads].
  split; [reflexivity|]. repeat split.
  unfold lead_keys_drawn. cbn [leads leads_id_seq with_leads].
  intros l Hin. apply in_app_or in Hin. destruct Hin as [Hin|[<-|[]]].
  - specialize (Hdrawn l Hin). lia.
  - cbn. lia.
Qed.

Lemma insert_samples_resolved env admin dealer : forall samples k db db',
  lead_keys_drawn db ->
  insert_samples env admin dealer k samples db = Resolved tt db' ->
  exists added,
    leads db' = leads db ++ added /\
    (Forall (fun s => length (sl_name s) <= 255) samples ->
     map Lead.customer_name added = map sl_name samples) /\
    Forall (fun l => Lead.assigned_to l = Some admin /\
                     Lead.dealership_id l = Some dealer) added.
Proof.
  induction samples as [|s samples IH]; intros k db db' Hdrawn; simpl.
  - intros [= <-]. exists []. rewrite app_nil_r.
    split; [reflexivity|]. split; [reflexivity | constructor].
  - intros H. apply then_Resolved in H. destruct H as (rows & db1 & E & H).
    apply insert_lead_drawn in E; [|exact Hdrawn].
    destruct E as (l & El & En & Ha & Hd & Hdrawn1).
    destruct (IH (S k) db1 db' Hdrawn1 H) as (added & Eadd & Enames & Hall).
    exists (l :: added). rewrite Eadd, El, <- app_assoc. simpl.
    split; [reflexivity|]. split.
    + intros Hlen. inversion Hlen as [|? ? L Hrest]; subst.
      f_equal; [|now apply Enames].
      apply store_varchar_short in En; [|exact L]. now injection En.
    + constructor; [now split | exact Hall].
Qed.

End SeedMoreFacts.

(* ================================================================== *)
(** * The extractor against its specification *)
(* ================================================================== *)

Import RegexFacts ExtractSpec ExtractFacts ExtractInversion PhoneFacts.

(** C2 (the code departs from the claim). The claim: a sender address with
    no token of the shape local-part [@] domain [.] top-level domain of at
    least two letters yields no [email]. The code: the class of the
    top-level domain is written [[A-Z|a-z]] and so lets the bar in; the
    sender [a@b.c|d] holds no token of the specified shape, and
    [extractLeadFromEmail] still reports the whole of it as [email],
    whatever the subject and the body. *)
Theorem C2_bar_accepted_in_top_level_domain :
  ~ has_token spec_email_pattern (str "a@b.c|d") /\
  forall subject body : jstring,
  exists r,
    extractLeadFromEmail (VString (str "a@b.c|d")) (VString subject)
      (VString body) = Normal (Some r) /\
    email r = Some (str "a@b.c|d").
Proof.
  split.
  - apply match0_none_iff. vm_compute. reflexivity.
  - intros subject body. rewrite extract_strings. eexists. split; [reflexivity|].
    cbn [email]. vm_compute. reflexivity.
Qed.

(** What the code does compute for [email]: nothing exactly when the sender
    holds no match of the literal as written, and otherwise a match of it
    at the leftmost offset that has one. *)
Lemma email_is_leftmost_match_of_literal from subject body r :
  extractLeadFromEmail from subject body = Normal (Some r) ->
  exists f, from = VString f /\
    (email r = None <-> ~ has_token emailRegex f) /\
    (forall tok, email r = Some tok ->
       exists i, token_at emailRegex f i tok /\
                 forall j tok', j < i -> ~ token_at emailRegex f j tok').
Proof.
  intros H. apply extract_Some_inv in H.
  destruct H as (f & b & st & vm & -> & _ & _ & _ & _ & -> & _).
  exists f. split; [reflexivity|]. split.
  - apply match0_none_iff.
  - intros tok. apply match0_some_leftmost.
Qed.

(** C3. For every subject and body string, whenever the extractor yields a
    record its [notes] are the fixed text around the literal subject and a
    prefix of the body of [min 500 (length body)] characters, the marker
    [...] coming right after that prefix, also when the body is shorter than
    500 characters (the prefix is then the whole body). *)
Theorem C3_notes_hold_subject_and_marked_body_prefix :
  forall (from : value) (subject body : jstring) (r : LeadData),
    extractLeadFromEmail from (VString subject) (VString body)
      = Normal (Some r) ->
    exists prefix rest,
      body = prefix ++ rest /\
      length prefix = Nat.min 500 (length body) /\
      (length body <= 500 -> prefix = body) /\
      notes r = str "Email Subject: " ++ subject ++ [newline; newline]
                ++ str "Email Body: " ++ prefix ++ str "..." /\
      occurs_in subject (notes r) /\
      exists before, notes r = before ++ prefix ++ str "...".
Proof.
  intros from subject body r H. apply extract_Some_inv in H.
  destruct H as (f & b & st & vm & _ & [= <-] & [= <-] & _ & _ & _ & _ & _ & N).
  exists (firstn 500 body), (skipn 500 body).
  split; [symmetry; apply firstn_skipn|].
  split; [apply length_firstn|].
  split; [intros L; now apply firstn_all2|].
  rewrite N. unfold notes_text, substring0. split; [reflexivity|]. split.
  - exists (str "Email Subject: "). eexists. reflexivity.
  - exists (str "Email Subject: " ++ subject ++ [newline; newline]
            ++ str "Email Body: ").
    now rewrite <- !app_assoc.
Qed.

Lemma C3_witness :
  exists r prefix,
    extractLeadFromEmail (VString (str "ann@mail.org")) (VString (str "Hi"))
      (VString (str "short")) = Normal (Some r) /\
    prefix = str "short" /\
    exists before, notes r = before ++ prefix ++ str "...".
Proof.
  eexists. exists (str "short"). split; [vm_compute; reflexivity|].
  split; [reflexivity|].
  destruct (C3_notes_hold_subject_and_marked_body_prefix
              (VString (str "ann@mail.org")) (str "Hi") (str "short") _
              eq_refl)
    as (prefix & rest & E & L & Hshort & N & O & B).
  rewrite <- (Hshort ltac:(vm_compute; lia)). exact B.
Defined.

(** C5. For every body string, whenever the extractor yields a record: if
    the body holds a phone token (3 digits, optional dot or hyphen, 3
    digits, optional dot or hyphen, 4 digits, between word boundaries), its
    [phone] is the token at the smallest offset; if the body holds none,
    [phone] is absent; and [phone] is the same for every sender and subject
    (only the body is searched). *)
Theorem C5_phone_is_first_phone_token_of_body :
  forall (from subject : value) (body : jstring) (r : LeadData),
    extractLeadFromEmail from subject (VString body) = Normal (Some r) ->
    (forall i tok,
       phone_at body i tok ->
       (forall j tok', j < i -> ~ phone_at body j tok') ->
       phone r = Some tok) /\
    ((forall i tok, ~ phone_at body i tok) -> phone r = None) /\
    (forall from' subject' r',
       extractLeadFromEmail from' subject' (VString body) = Normal (Some r') ->
       phone r' = phone r).
Proof.
  intros from subject body r H. apply extract_Some_inv in H.
  destruct H as (f & b & st & vm & _ & [= <-] & _ & _ & _ & _ & P & _).
  rewrite P. repeat split.
  - apply match0_phone_first.
  - apply match0_phone_none.
  - intros from' subject' r' H'. apply extract_Some_inv in H'.
    destruct H' as (f' & b' & st' & vm' & _ & [= <-] & _ & _ & _ & _ & P' & _).
    exact P'.
Qed.

Lemma C5_witness :
  exists r,
    extractLeadFromEmail (VString (str "ann@mail.org")) (VString (str "Hi"))
      (VString (str "555-123.4567 after six")) = Normal (Some r) /\
    phone r = Some (str "555-123.4567").
Proof.
  eexists. split; [vm_compute; reflexivity|].
  refine (proj1 (C5_phone_is_first_phone_token_of_body
                   (VString (str "ann@mail.org")) (VString (str "Hi"))
                   (str "555-123.4567 after six") _ eq_refl)
            0 (str "555-123.4567") _ _).
  - exists [], (str " after six"). repeat split; try reflexivity.
    exists (str "555"), (str "-"), (str "123"), (str "."), (str "4567").
    unfold digits, separator, all_in.
    split; [reflexivity|].
    split; [split; [reflexivity | repeat constructor]|].
    split; [right; eexists; split; reflexivity|].
    split; [split; [reflexivity | repeat constructor]|].
    split; [right; eexists; split; reflexivity|].
    split; [reflexivity | repeat constructor].
  - intros j tok' Lt. lia.
Defined.

(** C7. For every three values, strings or not, the call completes normally:
    it never completes by throwing, and whenever the guarded block throws
    the result is [null]. *)
Theorem C7_never_throws_outward :
  forall from subject body : value,
    exists result,
      extractLeadFromEmail from subject body = Normal result /\
      (forall e, extract_body from subject body = Throw e -> result = None).
Proof.
  intros from subject body. unfold extractLeadFromEmail.
  destruct (extract_body from subject body) as [lead|e].
  - eexists. split; [reflexivity | discriminate].
  - eexists. split; [reflexivity | reflexivity].
Qed.

Lemma C7_witness :
  extractLeadFromEmail VNull VUndefined (VObject []) = Normal None.
Proof.
  destruct (C7_never_throws_outward VNull VUndefined (VObject []))
    as (result & E & H).
  rewrite E. f_equal. apply (H TypeError). reflexivity.
Defined.

(** C6, as stated, fails: the claim takes a keyword found in the subject or
    the body to be the same thing as a keyword found in their
    concatenation. With subject [to] and body [yota] the concatenation
    reads [toyota], the first keyword of the vocabulary, while the code,
    which searches the body and the subject one after the other, finds no
    keyword and answers [Not specified]. *)
Lemma C6_counterexample :
  first_keyword (fun v => occurs_ci v (str "to" ++ str "yota")) (str "toyota")
  /\ exists r,
       extractLeadFromEmail (VString (str "ann@mail.org")) (VString (str "to"))
         (VString (str "yota")) = Normal (Some r) /\
       vehicle r = str "Not specified" /\
       vehicle r <> str "toyota".
Proof.
  split.
  - exists [], (tl vehicles). split; [reflexivity|]. split.
    + exists [], (str "toyota"), []. split; reflexivity.
    + intros k' [].
  - eexists. split; [vm_compute; reflexivity|]. split; [reflexivity|].
    discriminate.
Qed.

(** C6, amended. For every subject and body string, whenever the extractor
    yields a record its [vehicle] is the first keyword, in the order
    toyota, honda, ford, chevrolet, nissan, bmw, mercedes, audi, that occurs
    up to letter case in the body or in the subject, each searched on its
    own; it is the literal [Not specified] when no keyword occurs in
    either. *)
Theorem C6_vehicle_is_first_keyword_of_body_or_subject :
  forall (from : value) (subject body : jstring) (r : LeadData),
    extractLeadFromEmail from (VString subject) (VString body)
      = Normal (Some r) ->
    (forall k,
       first_keyword (fun v => occurs_ci v body \/ occurs_ci v subject) k ->
       vehicle r = k) /\
    ((forall k, In k vehicles ->
                ~ (occurs_ci k body \/ occurs_ci k subject)) ->
     vehicle r = str "Not specified").
Proof.
  intros from subject body r H.
  destruct from as [| | | |f| |]; try discriminate.
  rewrite extract_strings in H. apply Normal_Some_inj in H. subst r.
  cbn [vehicle]. split.
  - intros k Hk. now rewrite (vehicle_first_keyword _ _ _ Hk).
  - intros Hno. now rewrite (vehicle_no_keyword _ _ Hno).
Qed.

Lemma C6_witness :
  exists r,
    extractLeadFromEmail (VString (str "ann@mail.org"))
      (VString (str "A BMW or a Honda")) (VString (str "maybe an AUDI"))
      = Normal (Some r) /\
    vehicle r = str "honda".
Proof.
  eexists. split; [vm_compute; reflexivity|].
  refine (proj1 (C6_vehicle_is_first_keyword_of_body_or_subject
                   (VString (str "ann@mail.org")) (str "A BMW or a Honda")
                   (str "maybe an AUDI") _ eq_refl) (str "honda") _).
  exists [str "toyota"], (tl (tl vehicles)). split; [reflexivity|]. split.
  - right. exists (str "A BMW or a "), (str "Honda"), []. split; reflexivity.
  - intros k' [<-|[]]. apply mentions_false. vm_compute. reflexivity.
Defined.

(* ================================================================== *)
(** * The handlers and the seed script against their specification *)
(* ================================================================== *)

Import Sql Statements Seed Handlers DbSpec SeedFacts SqlFacts HandlerFacts.

(** C1 (the code departs from the claim). The claim: two runs of the seed
    script leave exactly one dealership named AutoClick Motors. The code:
    the row is inserted with ON CONFLICT DO NOTHING into a table whose only
    unique index is the primary key drawn from the sequence, so nothing
    ever conflicts and every run adds one more such row; two runs add two,
    and fresh tables end with two. *)
Theorem C1_each_run_adds_a_seed_dealership :
  forall (env1 env2 : run_env) (db : database),
    dealership_keys_drawn db ->
    length (seed_dealerships (setupDatabase env2 (setupDatabase env1 db)))
    = 2 + length (seed_dealerships db).
Proof.
  intros env1 env2 db H.
  rewrite setup_adds_one_seed_dealership
    by now apply setup_keeps_keys_drawn.
  now rewrite setup_adds_one_seed_dealership.
Qed.

Lemma C1_witness :
  length (seed_dealerships
            (setupDatabase second_run (setupDatabase first_run empty_database)))
  = 2.
Proof.
  apply (C1_each_run_adds_a_seed_dealership first_run second_run
           empty_database).
  intros d [].
Defined.

(** The two runs on fresh tables, in full: two dealerships of the seed
    name; the two demo users once each, with the hashes of the second run
    and attached to the second dealership; the three sample leads twice. *)
Example two_runs_on_fresh_tables :
  let db := setupDatabase second_run (setupDatabase first_run empty_database) in
  map (fun d => (Dealership.id d, Dealership.name d)) (dealerships db)
    = [(1%Z, seed_name); (2%Z, seed_name)] /\
  map (fun u => (User.email u, User.password u, User.role u,
                 User.dealership_id u)) (users db)
    = [(str "admin@autoclick.com", adminPassword second_run,
        Some (str "admin"), Some 2%Z);
       (str "rep@autoclick.com", repPassword second_run,
        Some (str "sales_rep"), Some 2%Z)] /\
  map Lead.customer_name (leads db)
    = [str "John Smith"; str "Sarah Johnson"; str "Mike Wilson";
       str "John Smith"; str "Sarah Johnson"; str "Mike Wilson"].
Proof. vm_compute. repeat split. Qed.

(** C4. For every caller whose role is not [admin]: each row of the answer
    of [GET /api/leads] is a stored lead whose [dealership_id] is the
    caller's own; the answer is the same for every value of the
    [dealership_id] query parameter; and, so that this is not said of an
    answer that is always empty, without a status filter every stored lead
    of the caller's dealership is in the answer. *)
Theorem C4_non_admin_sees_only_own_dealership :
  forall (db : database) (user : token_payload)
         (status dealership_id_param : option jstring),
    not_admin user = true ->
    (forall rows,
       payload (get_leads db user status dealership_id_param) = JLeads rows ->
       forall l, In l rows ->
         In l (leads db) /\
         exists d, dealership_id user = Some d /\
                   Lead.dealership_id l = Some d) /\
    (forall other_param,
       get_leads db user status other_param
       = get_leads db user status dealership_id_param) /\
    (forall d l,
       dealership_id user = Some d -> truthy status = false ->
       In l (leads db) -> Lead.dealership_id l = Some d ->
       exists rows,
         get_leads db user status dealership_id_param
           = mkResponse 200 (JLeads rows) /\
         In l rows).
Proof.
  intros db user status p Hna. split; [|split].
  - intros rows. rewrite (get_leads_non_admin db user status p Hna).
    destruct (select_leads _ _ db) as [rows'|] eqn:E; [|discriminate].
    cbn. intros [= <-] l Hin.
    destruct (select_leads_by_dealership _ _ _ _ E l Hin) as [Hs Hd].
    split; [exact Hs|]. apply eq_int_true in Hd.
    destruct Hd as (d & E1 & E2). eauto.
  - intros p'. now rewrite !get_leads_non_admin.
  - intros d l Hd Hst Hin Hl.
    rewrite (get_leads_non_admin db user status p Hna), Hst.
    destruct (select_leads_all_of_dealership (dealership_id user) db l Hin)
      as (rows & E & Hr).
    + apply eq_int_true. eauto.
    + rewrite E. eauto.
Qed.

Lemma C4_witness :
  get_leads seeded demo_rep None None
  = get_leads seeded demo_rep None (Some (str "7")).
Proof.
  exact (proj1 (proj2 (C4_non_admin_sees_only_own_dealership seeded
                         demo_rep None (Some (str "7")) eq_refl)) None).
Defined.

(** A token as [POST /api/auth/login] signs it carries no [dealership_id]:
    with such a token a caller who is not an administrator is answered the
    empty list. *)
Lemma login_token_non_admin_sees_nothing db u status p rows :
  not_admin (login_payload u) = true ->
  payload (get_leads db (login_payload u) status p) = JLeads rows ->
  rows = [].
Proof.
  intros Hna. rewrite (get_leads_non_admin db _ status p Hna).
  destruct (select_leads _ _ db) as [rows'|] eqn:E; [|discriminate].
  cbn. intros [= <-]. destruct rows' as [|l rows']; [reflexivity|]. exfalso.
  destruct (select_leads_by_dealership _ _ _ _ E l (or_introl eq_refl))
    as [_ Hd].
  apply eq_int_true in Hd. destruct Hd as (d & _ & Hd). discriminate.
Qed.


(** The same answer 500, and no 404, for a value too long for its column,
    also when no lead of the given id exists: the parameters are brought
    to the types of their columns before any row is looked at. *)
Example put_lead_long_phone_on_missing_lead :
  status_code
    (fst (put_lead 5000 seeded demo_rep (str "99")
            (mkUpdate None None (Some (str "555-123-4567 ext. 890")) None
               None None None None))) = 500.
Proof. vm_compute. reflexivity. Qed.



(** C9, as stated, fails: a candidate that is not [null] does not always
    give 201. On the seeded database, a sender of 256 characters yields a
    candidate whose name exceeds VARCHAR(255); the INSERT is refused, the
    handler answers 500 and no lead is stored. *)
Lemma C9_counterexample :
  (exists r,
     extractLeadFromEmail (VString long_sender) (VString (str "Enquiry"))
       (VString (str "A Toyota, please")) = Normal (Some r)) /\
  status_code
    (fst (process_email 5000 seeded
            (enquiry (VString long_sender) (Some 4000%Z)))) = 500 /\
  leads (snd (process_email 5000 seeded
                (enquiry (VString long_sender) (Some 4000%Z))))
  = leads seeded.
Proof.
  split; [eexists; vm_compute; reflexivity|].
  vm_compute. split; reflexivity.
Qed.

(** The same happens on tables that hold no dealership of key 1, to which
    the handler attaches every lead, for a request without a usable
    [receivedDate], and for a date before the first day a column TIMESTAMP
    takes, such as the first instant a JavaScript [Date] has. *)
Example process_email_without_dealership_1 :
  status_code
    (fst (process_email 5000 empty_database
            (enquiry (VString (str "ann@mail.org")) (Some 4000%Z)))) = 500.
Proof. vm_compute. reflexivity. Qed.

Example process_email_without_date :
  status_code
    (fst (process_email 5000 seeded
            (enquiry (VString (str "ann@mail.org")) None))) = 500.
Proof. vm_compute. reflexivity. Qed.

Example process_email_before_the_first_day :
  status_code
    (fst (process_email 5000 seeded
            (enquiry (VString (str "ann@mail.org"))
               (Some (- 8640000000000000)%Z)))) = 500.
Proof. vm_compute. reflexivity. Qed.

(** C9, amended. [POST /api/process-email] runs the extractor on [from],
    [subject] and [body]. When the extractor yields nothing the answer is
    400 and the database is as it was. When it yields a candidate the
    answer is either 201 with the created lead, stored last with source
    [email], priority [medium], status [new], dealership 1, no assignee and
    the received date as [created_at], or 500 with the table of leads as
    it was; it is 201 exactly when the received date is one a column
    TIMESTAMP takes, the candidate's texts are acceptable to their
    columns, dealership 1 exists and the key drawn for the lead is
    free. *)
Theorem C9_process_email_creates_or_rejects :
  forall (now : timestamp) (db : database) (req : email_request),
    let resp := fst (process_email now db req) in
    let db' := snd (process_email now db req) in
    (extractLeadFromEmail (from req) (subject req) (body req) = Normal None ->
     status_code resp = 400 /\ db' = db) /\
    (forall r,
       extractLeadFromEmail (from req) (subject req) (body req)
         = Normal (Some r) ->
       (status_code resp = 201 /\
        exists l ms,
          payload resp = JCreated (Some l) /\
          receivedDate req = Some ms /\ date_storable ms /\
          leads db' = leads db ++ [l] /\
          Lead.source l = Some (str "email") /\
          Lead.priority l = Some (str "medium") /\
          Lead.status l = Some (str "new") /\
          Lead.dealership_id l = Some 1%Z /\
          Lead.assigned_to l = None /\
          Lead.created_at l = Some (1000 * ms)%Z /\
          store_varchar 255 (Some (name r))
            = Some (Some (Lead.customer_name l)) /\
          candidate_fits r /\
          dealership_exists db 1 = true /\
          lead_exists db (leads_id_seq db) = false)
       \/ (status_code resp = 500 /\ leads db' = leads db)) /\
    (forall r ms,
       extractLeadFromEmail (from req) (subject req) (body req)
         = Normal (Some r) ->
       receivedDate req = Some ms ->
       date_storable ms ->
       candidate_fits r ->
       dealership_exists db 1 = true ->
       lead_exists db (leads_id_seq db) = false ->
       status_code resp = 201).
Proof.
  intros now db req. unfold process_email. split; [|split].
  - intros ->. cbn. now split.
  - intros r ->.
    destruct (date_parameter (receivedDate req)) as [date|] eqn:Ed;
      [|right; now split].
    destruct (insert_lead false now _ _ _ _ _ _ _ _ _ _ (Some date) db)
      as [rows db1|db1] eqn:E.
    + left. pose proof E as E0. apply insert_lead_resolved in E.
      destruct E as (l & -> & El & _ & Hn & Hs & Hp & Hst & Ha & Hd & Hc & _).
      apply insert_lead_resolved_because in E0.
      destruct E0 as (B2 & B3 & B4 & B6 & Bl & _ & Bd).
      cbn. split; [reflexivity|].
      destruct Hc as (t & Et & Hc). cbn [created_at_value] in Et.
      destruct (date_parameter_stored _ _ _ Ed Et)
        as (ms & Er & Hms & -> & ->).
      exists l, ms.
      cbv in Hs, Hp, Hst. injection Hs as Hs. injection Hp as Hp.
      injection Hst as Hst.
      split; [reflexivity|]. split; [exact Er|]. split; [exact Hms|].
      split; [exact El|]. split; [now symmetry|]. split; [now symmetry|].
      split; [now symmetry|]. split; [exact Hd|]. split; [exact Ha|].
      split; [exact Hc|]. split; [exact Hn|].
      split; [|split; [exact Bd | exact Bl]].
      unfold candidate_fits. rewrite Hn.
      split; [discriminate|]. now repeat split.
    + right. apply insert_lead_rejected in E. cbn. now split.
  - intros r ms -> -> Hms (F1 & F2 & F3 & F4 & F5) Hd Hl.
    destruct (date_parameter_storable ms Hms) as [-> Et].
    destruct (insert_lead_accepted now
                (Some (name r)) (email r) (phone r) (Some (vehicle r))
                (Some (str "email")) (Some (notes r)) (Some (str "medium"))
                (Some (str "new")) None (Some 1%Z) (Some (1000 * ms)%Z) db)
      as (rows & db1 & E); auto; try discriminate;
      try (intros z Hz; discriminate);
      try (intros z Hz; assert (z = 1%Z) by congruence; lia).
    + unfold store_varchar in *. destruct (text_in (name r)); [|congruence].
      destruct (varchar 255 j); [|now elim F1]. cbn. eauto.
    + cbn [created_at_value]. rewrite Et. discriminate.
    + cbv beta iota.
      match goal with
      | |- context [match ?x with Resolved _ _ => _ | Rejected _ => _ end] =>
          destruct x as [rows' db'|db'] eqn:E'
      end; [reflexivity|].
      pose proof (eq_trans (eq_sym E) E') as F. discriminate.
Qed.

Lemma C9_witness :
  status_code
    (fst (process_email 5000 seeded
            (enquiry (VString (str "ann@mail.org")) (Some 4000%Z)))) = 201.
Proof.
  refine (proj2 (proj2 (C9_process_email_creates_or_rejects 5000 seeded
            (enquiry (VString (str "ann@mail.org")) (Some 4000%Z))))
            _ 4000%Z _ eq_refl _ _ eq_refl eq_refl).
  - vm_compute. reflexivity.
  - unfold date_storable. lia.
  - unfold candidate_fits. vm_compute. repeat split; discriminate.
Defined.

(** C10. On three strings the extractor always yields a record, whose name
    is the sender's part before its first [@] with dots and underscores
    turned into spaces, whose notes are the composed text and whose vehicle
    is [Not specified] when no keyword occurs, whether or not an email or a
    phone number was found;
    hence a [null] result, and with it the answer 400 of
    [POST /api/process-email], is only possible when one of the three
    values is not a string. *)
Theorem C10_null_only_for_non_strings :
  (forall from subject body : jstring,
     exists r,
       extractLeadFromEmail (VString from) (VString subject) (VString body)
         = Normal (Some r) /\
       (exists local, local_part from local /\
                      name r = replace_dots_underscores local) /\
       notes r = notes_text subject (substring0 500 body) /\
       ((forall k, In k vehicles ->
                   ~ (occurs_ci k body \/ occurs_ci k subject)) ->
        vehicle r = str "Not specified")) /\
  (forall from subject body : value,
     extractLeadFromEmail from subject body = Normal None ->
     ~ (is_string from /\ is_string subject /\ is_string body)) /\
  (forall (now : timestamp) (db : database) (req : email_request),
     status_code (fst (process_email now db req)) = 400 ->
     ~ (is_string (from req) /\ is_string (subject req) /\
        is_string (body req))).
Proof.
  split; [|split].
  - intros from subject body. rewrite extract_strings. eexists.
    split; [reflexivity|].
    split; [eexists; split; [apply split_first_is_local_part|reflexivity]|].
    split; [reflexivity|].
    intros Hno. cbn [vehicle]. now rewrite (vehicle_no_keyword _ _ Hno).
  - exact extract_null_not_strings.
  - intros now db req. unfold process_email.
    destruct (extractLeadFromEmail (from req) (subject req) (body req))
      as [[r|]|e] eqn:E.
    + destruct (date_parameter (receivedDate req)); [|discriminate].
      destruct (insert_lead _ _ _ _ _ _ _ _ _ _ _ _ _ _); discriminate.
    + intros _. now apply extract_null_not_strings.
    + discriminate.
Qed.

Lemma C10_witness :
  status_code
    (fst (process_email 5000 seeded (enquiry VUndefined (Some 4000%Z)))) = 400
  /\ ~ (is_string VUndefined /\ is_string (VString (str "Enquiry")) /\
        is_string (VString (str "A Toyota, please"))).
Proof.
  split; [vm_compute; reflexivity|].
  exact (proj2 (proj2 C10_null_only_for_non_strings) 5000%Z seeded
           (enquiry VUndefined (Some 4000%Z)) eq_refl).
Defined.

(* ================================================================== *)
(** * Further properties: the token check and login *)
(* ================================================================== *)

Import Routes RouteSpec AuthFacts RouteFacts SeedUserFacts.

(** X1. [authenticateToken] looks at nothing but the second of the pieces
    that single spaces cut the Authorization header into: when that piece
    is not empty it alone is verified (403 if it fails, [next()] with its
    payload otherwise), whatever the first piece (the scheme, which need
    not be [Bearer]) and whatever follows. *)
Theorem X1_token_is_second_word_whatever_the_scheme :
  forall (jwt_verify : jstring -> option token_payload)
         (header word : jstring),
    second_word header word ->
    authenticateToken jwt_verify (Some header)
    = match jwt_verify word with
      | Some user => Next user
      | None => SendStatus 403
      end.
Proof.
  intros jwt_verify header word H. now apply authenticate_second_word.
Qed.

Lemma X1_witness :
  authenticateToken toy_verify
    (Some (str "Basic tok.rep@autoclick.com trailing words"))
  = Next (login_payload demo_rep_user).
Proof.
  refine (X1_token_is_second_word_whatever_the_scheme toy_verify
            (str "Basic tok.rep@autoclick.com trailing words")
            (str "tok.rep@autoclick.com") _).
  exists (str "Basic"), (str " trailing words").
  split; [reflexivity|].
  split; [vm_compute; intuition discriminate|].
  split; [vm_compute; intuition discriminate|].
  split; [discriminate|]. right. eexists. reflexivity.
Defined.

(** X2. [authenticateToken] answers 401 exactly when the request has no
    Authorization header or the header has no second piece that is not
    empty (no space at all, or a space followed by another space or by
    nothing). *)
Theorem X2_status_401_iff_no_second_word :
  forall (jwt_verify : jstring -> option token_payload)
         (authHeader : option jstring),
    authenticateToken jwt_verify authHeader = SendStatus 401 <->
    (forall header word,
       authHeader = Some header -> ~ second_word header word).
Proof.
  intros jwt_verify authHeader. split.
  - intros H header word -> Hw.
    rewrite (authenticate_second_word jwt_verify header word Hw) in H.
    destruct (jwt_verify word); discriminate.
  - intros H. unfold authenticateToken.
    destruct authHeader as [header|]; [|reflexivity].
    destruct (bearer_token (Some header)) as [[|c w]|] eqn:E;
      try reflexivity.
    elim (H header (c :: w) eq_refl).
    apply bearer_token_nonempty; [exact E | discriminate].
Qed.

Lemma X2_witness :
  authenticateToken toy_verify (Some (str "Bearer")) = SendStatus 401.
Proof.
  apply (proj2 (X2_status_401_iff_no_second_word toy_verify
                  (Some (str "Bearer")))).
  intros header word [= <-] (first & rest & E & _).
  assert (Hin : In " "%char (first ++ " "%char :: word ++ rest))
    by (apply in_or_app; right; now left).
  rewrite <- E in Hin. vm_compute in Hin. intuition discriminate.
Defined.

(** X3. Login tells a known email from an unknown one when the request
    carries no password. For an email without the character of code 0
    (which the database refuses): if no user has it the answer is 401,
    whatever the password and even without one, because the password is
    never looked at; if it is the email of a user, a request without a
    password makes [bcrypt.compare] reject and the answer is 500. *)
Theorem X3_login_without_password_reveals_known_emails :
  forall (jwt_sign : token_payload -> jstring)
         (bcrypt_compare : jstring -> jstring -> bool)
         (db : database) (email : jstring),
    nul_free email ->
    ((forall u, In u (users db) -> User.email u <> email) ->
     forall password,
       login jwt_sign bcrypt_compare db (mkLogin (Some email) password)
       = LoginRefused) /\
    ((exists u, In u (users db) /\ User.email u = email) ->
     login jwt_sign bcrypt_compare db (mkLogin (Some email) None)
     = LoginFailed).
Proof.
  intros jwt_sign bcrypt_compare db email Hn. split.
  - intros Hno password. unfold login. cbn [login_email].
    now rewrite (select_users_by_email_unknown db email Hn Hno).
  - intros Hex. unfold login. cbn [login_email login_password].
    destruct (select_users_by_email_known db email Hn Hex) as (v & more & ->).
    reflexivity.
Qed.

Lemma X3_witness :
  login toy_sign toy_compare seeded
    (mkLogin (Some (str "nobody@autoclick.com")) None) = LoginRefused /\
  login toy_sign toy_compare seeded
    (mkLogin (Some (str "rep@autoclick.com")) None) = LoginFailed.
Proof.
  split.
  - refine (proj1 (X3_login_without_password_reveals_known_emails
                     toy_sign toy_compare seeded
                     (str "nobody@autoclick.com") eq_refl) _ None).
    intros u Hin. vm_compute in Hin.
    destruct Hin as [<-|[<-|[]]]; discriminate.
  - refine (proj2 (X3_login_without_password_reveals_known_emails
                     toy_sign toy_compare seeded
                     (str "rep@autoclick.com") eq_refl) _).
    exists demo_rep_user. split; [vm_compute; auto | reflexivity].
Defined.

(** X4. Login and the token check fit together. When emails are unique, a
    user who gives the email and a password that [bcrypt.compare] accepts
    against the stored hash is answered 200 with the public columns of the
    user's row and the token signed for [userId], [email] and [role];
    presented as [Bearer <token>], a token that verifies to what was signed
    and holds no space makes [authenticateToken] set [req.user] to that
    payload, in which [dealership_id] is missing. *)
Theorem X4_login_token_authenticates_as_the_user :
  forall (jwt_verify : jstring -> option token_payload)
         (jwt_sign : token_payload -> jstring)
         (bcrypt_compare : jstring -> jstring -> bool)
         (db : database) (u : User.t) (password : jstring),
    emails_unique db -> In u (users db) -> nul_free (User.email u) ->
    bcrypt_compare password (User.password u) = true ->
    jwt_verify (jwt_sign (login_payload u)) = Some (login_payload u) ->
    jwt_sign (login_payload u) <> [] ->
    ~ In " "%char (jwt_sign (login_payload u)) ->
    login jwt_sign bcrypt_compare db
      (mkLogin (Some (User.email u)) (Some password))
    = LoginOk (jwt_sign (login_payload u)) (public u) /\
    authenticateToken jwt_verify
      (Some (str "Bearer " ++ jwt_sign (login_payload u)))
    = Next (login_payload u) /\
    userId (login_payload u) = User.id u /\
    role (login_payload u) = User.role u /\
    dealership_id (login_payload u) = None.
Proof.
  intros jwt_verify jwt_sign bcrypt_compare db u password
         Hu Hin Hn Hc Hv Hne Hsp.
  split; [|split; [|repeat split]].
  - unfold login. cbn [login_email login_password].
    destruct (select_users_by_email_unique db u Hu Hin Hn) as (more & ->).
    now rewrite Hc.
  - rewrite (authenticate_second_word jwt_verify _ (jwt_sign (login_payload u))).
    + now rewrite Hv.
    + exists (str "Bearer"), []. rewrite app_nil_r.
      split; [reflexivity|].
      split; [vm_compute; intuition discriminate|].
      repeat split; auto.
Qed.

Lemma X4_witness :
  login toy_sign toy_compare seeded
    (mkLogin (Some (str "rep@autoclick.com")) (Some (str "password123")))
  = LoginOk (str "tok.rep@autoclick.com") (public demo_rep_user) /\
  authenticateToken toy_verify (Some (str "Bearer tok.rep@autoclick.com"))
  = Next (login_payload demo_rep_user).
Proof.
  destruct (X4_login_token_authenticates_as_the_user toy_verify toy_sign
              toy_compare seeded demo_rep_user (str "password123"))
    as (H1 & H2 & _).
  - vm_compute. repeat constructor; simpl; intuition discriminate.
  - vm_compute. auto.
  - reflexivity.
  - reflexivity.
  - reflexivity.
  - discriminate.
  - vm_compute. intuition discriminate.
  - split; [exact H1 | exact H2].
Defined.

(** X5. A token as login signs it carries no [dealership_id]; with it, a
    caller whose role is not [admin] is never answered a lead by
    [GET /api/leads]: whatever the database holds and whatever the query
    parameters, a list that is answered is the empty list. *)
Theorem X5_login_token_lists_no_lead :
  forall (db : database) (u : User.t)
         (status dealership_id_param : option jstring) (rows : list Lead.t),
    not_admin (login_payload u) = true ->
    payload (get_leads db (login_payload u) status dealership_id_param)
      = JLeads rows ->
    rows = [].
Proof.
  intros db u status p rows. apply login_token_non_admin_sees_nothing.
Qed.

Lemma X5_witness :
  get_leads seeded (login_payload demo_rep_user) None None
  = mkResponse 200 (JLeads []).
Proof.
  assert (E : exists rows,
             get_leads seeded (login_payload demo_rep_user) None None
             = mkResponse 200 (JLeads rows))
    by (eexists; vm_compute; reflexivity).
  destruct E as (rows & E). rewrite E. do 2 f_equal.
  apply (X5_login_token_lists_no_lead seeded demo_rep_user None None rows
           eq_refl).
  now rewrite E.
Defined.

(** X6. With a token as login signs it, [PUT /api/leads/:id] never answers
    200 and never changes the database: no lead is in the scope of a
    caller without a dealership, administrators included (the handler has
    no branch for them). *)
Theorem X6_login_token_updates_no_lead :
  forall (now : timestamp) (db : database) (u : User.t) (id : jstring)
         (b : lead_update),
    status_code (fst (put_lead now db (login_payload u) id b)) <> 200 /\
    snd (put_lead now db (login_payload u) id b) = db.
Proof.
  intros now db u id b. unfold put_lead, update_lead.
  destruct (negb _); [cbn; split; [discriminate | reflexivity]|].
  destruct (store_int4 (new_assigned_to b)) as [assigned|];
    [|cbn; split; [discriminate | reflexivity]].
  destruct (int4_in id) as [n|];
    [|cbn; split; [discriminate | reflexivity]].
  cbn [dealership_id login_payload send_int4].
  rewrite (update_rows_out_of_scope now b assigned n None db (leads db))
    by (intros l _; apply nothing_in_scope_of_none).
  cbn. rewrite with_leads_same. split; [discriminate | reflexivity].
Qed.

(* ================================================================== *)
(** * Further properties: updating, creating and listing leads *)
(* ================================================================== *)

Import LeadFacts.

(** X7. [PUT /api/leads/:id] is idempotent at a given time: sending the
    same request again, to the database the first one left, gives the same
    answer and leaves the same database. *)
Theorem X7_put_lead_twice_is_put_lead_once :
  forall (now : timestamp) (db : database) (user : token_payload)
         (id : jstring) (b : lead_update),
    put_lead now (snd (put_lead now db user id b)) user id b
    = put_lead now db user id b.
Proof.
  intros now db user id b.
  assert (U : forall d,
            put_lead now d user id b
            = match (if negb (text_parameters_accepted b) then Rejected d
                     else match store_int4 (new_assigned_to b), int4_in id,
                                send_int4 (dealership_id user) with
                          | Some assigned_to, Some id', Some dealer' =>
                              match update_rows now b assigned_to id'
                                      dealer' d (leads d) with
                              | Some (table, returned) =>
                                  Resolved returned
                                    (with_leads d table (leads_id_seq d))
                              | None => Rejected d
                              end
                          | _, _, _ => Rejected d
                          end) with
              | Resolved [] db' =>
                  (mkResponse 404 (JError (str "Lead not found")), db')
              | Resolved (row :: _) db' => (mkResponse 200 (JLead row), db')
              | Rejected db' =>
                  (mkResponse 500 (JError (str "Failed to update lead")), db')
              end) by reflexivity.
  assert (Same : forall r, put_lead now db user id b = (r, db) ->
            put_lead now (snd (put_lead now db user id b)) user id b
            = put_lead now db user id b)
    by (intros r E; now rewrite E).
  destruct (negb (text_parameters_accepted b)) eqn:Ht.
  { apply (Same (mkResponse 500 (JError (str "Failed to update lead")))).
    rewrite U, ?Ht. reflexivity. }
  destruct (store_int4 (new_assigned_to b)) as [assigned|] eqn:Ea.
  2:{ apply (Same (mkResponse 500 (JError (str "Failed to update lead")))).
      rewrite U, ?Ht, ?Ea. reflexivity. }
  destruct (int4_in id) as [n|] eqn:Ei.
  2:{ apply (Same (mkResponse 500 (JError (str "Failed to update lead")))).
      rewrite U, ?Ht, ?Ea, ?Ei. reflexivity. }
  destruct (send_int4 (dealership_id user)) as [dealer|] eqn:Ed.
  2:{ apply (Same (mkResponse 500 (JError (str "Failed to update lead")))).
      rewrite U, ?Ht, ?Ea, ?Ei, ?Ed. reflexivity. }
  destruct (update_rows now b assigned n dealer db (leads db))
    as [[table returned]|] eqn:Eu.
  2:{ apply (Same (mkResponse 500 (JError (str "Failed to update lead")))).
      rewrite U, ?Ht, ?Ea, ?Ei, ?Ed, Eu. reflexivity. }
  set (db1 := with_leads db table (leads_id_seq db)).
  assert (E1 : put_lead now db user id b
               = match returned with
                 | [] => (mkResponse 404 (JError (str "Lead not found")), db1)
                 | row :: _ => (mkResponse 200 (JLead row), db1)
                 end)
    by (rewrite U, ?Ht, ?Ea, ?Ei, ?Ed, Eu; reflexivity).
  assert (E2 : put_lead now db1 user id b
               = match returned with
                 | [] => (mkResponse 404 (JError (str "Lead not found")), db1)
                 | row :: _ => (mkResponse 200 (JLead row), db1)
                 end).
  { rewrite U, ?Ht, ?Ea, ?Ei, ?Ed.
    change (leads db1) with table.
    rewrite (update_rows_again now b assigned n dealer db db1 _ _ _ Eu).
    reflexivity. }
  rewrite E1. destruct returned; cbn [snd]; exact E2.
Qed.

(** X8. Whatever the request and its outcome, [PUT /api/leads/:id] keeps,
    row by row, the key, the dealership, the source and the creation date
    of every lead: it creates and deletes no lead and moves none to another
    dealership. *)
Theorem X8_put_lead_keeps_keys_and_owners :
  forall (now : timestamp) (db : database) (user : token_payload)
         (id : jstring) (b : lead_update),
    let db' := snd (put_lead now db user id b) in
    map Lead.id (leads db') = map Lead.id (leads db) /\
    map Lead.dealership_id (leads db') = map Lead.dealership_id (leads db) /\
    map Lead.source (leads db') = map Lead.source (leads db) /\
    map Lead.created_at (leads db') = map Lead.created_at (leads db).
Proof.
  intros now db user id b. unfold put_lead, update_lead.
  destruct (negb _); [cbn; now repeat split|].
  destruct (store_int4 (new_assigned_to b)) as [assigned|];
    [|cbn; now repeat split].
  destruct (int4_in id) as [n|]; [|cbn; now repeat split].
  destruct (send_int4 (dealership_id user)) as [dealer|];
    [|cbn; now repeat split].
  destruct (update_rows now b assigned n dealer db (leads db))
    as [[table returned]|] eqn:Eu; [|cbn; now repeat split].
  destruct (update_rows_spec _ _ _ _ _ _ _ _ _ Eu) as (F & _ & _).
  assert (K : forall x y,
            updated_in_scope now b assigned n dealer x y ->
            Lead.id y = Lead.id x /\
            Lead.dealership_id y = Lead.dealership_id x /\
            Lead.source y = Lead.source x /\
            Lead.created_at y = Lead.created_at x)
    by (intros x y; apply updated_in_scope_keeps).
  assert (G : leads (snd (match returned with
               | [] => (mkResponse 404 (JError (str "Lead not found")),
                        with_leads db table (leads_id_seq db))
               | row :: _ => (mkResponse 200 (JLead row),
                              with_leads db table (leads_id_seq db))
               end)) = table) by (destruct returned; reflexivity).
  cbv zeta. rewrite G.
  repeat split; eapply Forall2_map_eq; try exact F; intros x y Hxy;
    apply K in Hxy; tauto.
Qed.



(** A request without [customer_name] is refused once its key is drawn: on
    the seeded tables the sequence moves from 4 to 5 and no row is
    stored. *)
Example create_lead_without_name_draws_a_key :
  fst (create_lead 5000 seeded demo_rep nameless_lead) = CreateFailed /\
  leads_id_seq seeded = 4%Z /\
  leads_id_seq (snd (create_lead 5000 seeded demo_rep nameless_lead)) = 5%Z /\
  leads (snd (create_lead 5000 seeded demo_rep nameless_lead))
  = leads seeded.
Proof. vm_compute. repeat split. Qed.

(** X10. Creating then listing. A lead created by a caller who is not an
    administrator and whose token names a dealership is in that caller's
    next [GET /api/leads] (without status filter); a lead created with a
    token that names none, as login signs them, belongs to no dealership
    and is in no list answered to anyone who is not an administrator. *)
Theorem X10_created_lead_listed_only_with_a_dealership :
  forall (now : timestamp) (db : database) (user : token_payload)
         (b : lead_input) (l : Lead.t),
    fst (create_lead now db user b) = Created (Some l) ->
    let db' := snd (create_lead now db user b) in
    (forall d p,
       not_admin user = true -> dealership_id user = Some d ->
       exists rows,
         get_leads db' user None p = mkResponse 200 (JLeads rows) /\
         In l rows) /\
    (dealership_id user = None ->
     forall viewer status p rows,
       not_admin viewer = true ->
       payload (get_leads db' viewer status p) = JLeads rows ->
       ~ In l rows).
Proof.
  intros now db user b l. unfold create_lead.
  destruct (insert_lead false now _ _ _ _ _ _ _ _ _ _ None db)
    as [rows0 db1|db1] eqn:E; [|discriminate].
  cbn. intros H. apply insert_lead_resolved in E.
  destruct E as (l0 & -> & El & _ & _ & _ & _ & _ & _ & Hd & _).
  cbn in H. injection H as ->. split.
  - intros d p Hna Hud. rewrite (get_leads_non_admin db1 user None p Hna).
    cbn [truthy].
    destruct (select_leads_all_of_dealership (dealership_id user) db1 l)
      as (rows & -> & Hin).
    + rewrite El. apply in_or_app. right. now left.
    + rewrite Hd, Hud. cbn. apply Z.eqb_refl.
    + eauto.
  - intros Hnone viewer status p rows Hna.
    rewrite (get_leads_non_admin db1 viewer status p Hna).
    destruct (select_leads _ _ db1) as [rows'|] eqn:Es; [|discriminate].
    cbn. intros [= <-] Hin.
    destruct (select_leads_by_dealership _ _ _ _ Es l Hin) as [_ Ht].
    rewrite Hd, Hnone in Ht. discriminate.
Qed.

Lemma X10_witness :
  exists l rows,
    fst (create_lead 5000 seeded demo_rep
           (mkInput (Some (str "Ann")) None None None None None None))
      = Created (Some l) /\
    get_leads
      (snd (create_lead 5000 seeded demo_rep
              (mkInput (Some (str "Ann")) None None None None None None)))
      demo_rep None None = mkResponse 200 (JLeads rows) /\
    In l rows.
Proof.
  eexists.
  destruct (proj1 (X10_created_lead_listed_only_with_a_dealership 5000 seeded
                     demo_rep
                     (mkInput (Some (str "Ann")) None None None None None None)
                     _ eq_refl) 1%Z None eq_refl eq_refl)
    as (rows & E & Hin).
  exists rows. split; [reflexivity|]. split; [exact E | exact Hin].
Defined.

(* ================================================================== *)
(** * Further properties: analytics and the order of the lead list *)
(* ================================================================== *)




(** X13. Every list [GET /api/leads] answers is ordered newest first: each
    row is at least as recent as every row after it, rows without creation
    date coming first. *)
Theorem X13_lead_list_is_newest_first :
  forall (db : database) (user : token_payload)
         (status dealership_id_param : option jstring) (rows : list Lead.t),
    payload (get_leads db user status dealership_id_param) = JLeads rows ->
    newest_first rows.
Proof.
  intros db user status p rows H.
  destruct (get_leads_rows db user status p rows H) as (dealer & st & E).
  exact (select_leads_sorted dealer st db rows E).
Qed.

Lemma X13_witness :
  newest_first
    (order_by_created_at_desc (leads seeded)).
Proof.
  apply (X13_lead_list_is_newest_first seeded
           (mkPayload 1 (str "admin@autoclick.com") (Some (str "admin")) None)
           None None).
  reflexivity.
Defined.

(** X14. The lead list of an administrator. Without a [dealership_id]
    parameter (or with an empty one) and without status filter it holds
    every stored lead and as many rows as there are leads; with a parameter
    that reads as the integer [d] it holds exactly the leads of dealership
    [d]; with a parameter the INTEGER input refuses the answer is 500. *)
Theorem X14_admin_lead_list :
  forall (db : database) (user : token_payload) (p : option jstring),
    not_admin user = false ->
    (truthy p = false ->
     exists rows,
       get_leads db user None p = mkResponse 200 (JLeads rows) /\
       length rows = length (leads db) /\
       forall l, In l rows <-> In l (leads db)) /\
    (forall text d,
       p = Some text -> text <> [] -> int4_in text = Some d ->
       exists rows,
         get_leads db user None p = mkResponse 200 (JLeads rows) /\
         forall l, In l rows <->
                   In l (leads db) /\ Lead.dealership_id l = Some d) /\
    (forall text,
       p = Some text -> text <> [] -> int4_in text = None ->
       status_code (get_leads db user None p) = 500).
Proof.
  intros db user p Hadm. unfold get_leads. rewrite Hadm.
  cbn [truthy]. split; [|split].
  - intros ->. unfold select_leads. eexists. split; [reflexivity|].
    rewrite filter_all by reflexivity. split; [apply length_order_by|].
    intros l. apply In_order_by.
  - intros text d -> Hne Hd. destruct text as [|c t]; [now elim Hne|].
    cbn [truthy store_int4]. rewrite Hd. cbn [option_map].
    unfold select_leads. eexists. split; [reflexivity|].
    intros l. rewrite In_order_by, filter_In, andb_true_r, eq_int_true.
    split.
    + intros (Hin & d' & E1 & [= <-]). now split.
    + intros (Hin & E1). split; [exact Hin|]. eauto.
  - intros text -> Hne Hd. destruct text as [|c t]; [now elim Hne|].
    cbn [truthy store_int4]. rewrite Hd. reflexivity.
Qed.

Lemma X14_witness :
  status_code
    (get_leads seeded
       (mkPayload 1 (str "admin@autoclick.com") (Some (str "admin")) None)
       None (Some (str "north"))) = 500.
Proof.
  refine (proj2 (proj2 (X14_admin_lead_list seeded
            (mkPayload 1 (str "admin@autoclick.com") (Some (str "admin")) None)
            (Some (str "north")) eq_refl)) (str "north") eq_refl _ eq_refl).
  discriminate.
Defined.

(** The INTEGER input is the one of PostgreSQL 16 and later: a parameter
    written in hexadecimal or with an underscore between its digits names a
    dealership as well. *)
Example admin_list_reads_other_integer_forms :
  int4_in (str "0x1") = Some 1%Z /\ int4_in (str "0_1") = Some 1%Z /\
  map Lead.id
    (match payload
             (get_leads seeded
                (mkPayload 1 (str "admin@autoclick.com") (Some (str "admin"))
                   None)
                None (Some (str "0x1"))) with
     | JLeads rows => rows
     | _ => []
     end) = [3%Z; 2%Z; 1%Z].
Proof. vm_compute. repeat split. Qed.



(* ================================================================== *)
(** * Further properties: the extractor and the ingestion of emails *)
(* ================================================================== *)

Import FieldSpec EmailFacts FieldFacts.

(** X15. The [email] field for the literal as it is written. Whenever the
    extractor yields a record, the sender is a string; [email] is absent
    exactly when the sender holds no text of the shape
    local-part [@] domain [.] two or more characters of [[A-Z|a-z]]
    between two word boundaries; and when present it is such a text, at the
    smallest offset at which one starts. *)
Theorem X15_email_is_leftmost_match_of_the_literal :
  forall (from subject body : value) (r : LeadData),
    extractLeadFromEmail from subject body = Normal (Some r) ->
    exists f,
      from = VString f /\
      (email r = None <-> forall i tok, ~ email_at f i tok) /\
      (forall tok, email r = Some tok ->
         occurs_in tok f /\
         exists i, email_at f i tok /\
                   forall j tok', j < i -> ~ email_at f j tok').
Proof.
  intros from subject body r H. apply extract_Some_inv in H.
  destruct H as (f & b & st & vm & -> & _ & _ & _ & _ & -> & _).
  exists f. split; [reflexivity|]. split.
  - rewrite match0_none_iff, has_token_email_at. split.
    + intros Hn i tok Hat. apply Hn. eauto.
    + intros Hn (i & tok & Hat). exact (Hn i tok Hat).
  - intros tok Htok. split; [now apply match0_occurs in Htok|].
    apply match0_some_leftmost in Htok. destruct Htok as (i & Hat & Hmin).
    exists i. split; [now apply email_at_token_at|].
    intros j tok' Lt Hj. apply email_at_token_at in Hj.
    exact (Hmin j tok' Lt Hj).
Qed.

Lemma X15_witness :
  exists r,
    extractLeadFromEmail (VString (str "Ann <ann@mail.org>"))
      (VString (str "Hi")) (VString (str "short")) = Normal (Some r) /\
    occurs_in (str "ann@mail.org") (str "Ann <ann@mail.org>").
Proof.
  eexists. split; [vm_compute; reflexivity|].
  destruct (X15_email_is_leftmost_match_of_the_literal
              (VString (str "Ann <ann@mail.org>")) (VString (str "Hi"))
              (VString (str "short")) _ eq_refl) as (f & E & _ & H).
  injection E as <-.
  exact (proj1 (H (str "ann@mail.org") eq_refl)).
Defined.

(** X16. A subject that is not a string. The callback of [find] lower-cases
    the subject only when the body does not hold the keyword at hand, and
    the first keyword is [toyota]: with a string sender and a string body,
    a subject that is not a string makes the extractor answer [null]
    whenever the body does not mention toyota; when the body mentions it
    and the subject is one a template literal prints ([null], [undefined],
    a number, ...), the extractor answers a record whose vehicle is
    [toyota] and whose notes hold the subject as printed. *)
Theorem X16_non_string_subject :
  forall (from body : jstring) (subject : value),
    ~ is_string subject ->
    (~ occurs_ci (str "toyota") body ->
     extractLeadFromEmail (VString from) subject (VString body)
     = Normal None) /\
    (occurs_ci (str "toyota") body ->
     forall text, ToString subject = Normal text ->
       exists r,
         extractLeadFromEmail (VString from) subject (VString body)
           = Normal (Some r) /\
         vehicle r = str "toyota" /\
         notes r = notes_text text (substring0 500 body) /\
         email r = match0 emailRegex from /\
         phone r = match0 phoneRegex body).
Proof.
  intros from body subject Hns.
  assert (T : forall (A : Type) (m : jstring -> A),
            string_method subject m = Throw TypeError).
  { intros A m. destruct subject; try reflexivity.
    elim Hns. eexists. reflexivity. }
  unfold extractLeadFromEmail, extract_body.
  cbn [string_method bind].
  destruct (split_nonempty "@" from) as (first & rest & ->). cbn [bind].
  change vehicles with (str "toyota" :: tl vehicles).
  cbn [find_vehicle string_method bind]. split.
  - intros Hno.
    destruct (includes (toLowerCase body) (str "toyota")) eqn:E.
    + apply includes_lower in E. contradiction.
    + now rewrite T.
  - intros Hyes text Ht. apply includes_lower in Hyes. rewrite Hyes.
    cbn [bind]. rewrite Ht. cbn [bind]. eexists.
    split; [reflexivity|]. cbn. repeat split.
Qed.

Lemma X16_witness :
  extractLeadFromEmail (VString (str "ann@mail.org")) VNull
    (VString (str "A Honda, please")) = Normal None.
Proof.
  refine (proj1 (X16_non_string_subject (str "ann@mail.org")
                   (str "A Honda, please") VNull _) _).
  - intros [s E]. discriminate.
  - intros H. apply includes_lower in H. vm_compute in H. discriminate.
Defined.

(** X17. What the fields of a record can hold. The phone, when present, is
    a run of the body of 10 to 12 characters, all digits, dots or hyphens;
    the email, when present, is a run of the sender; the vehicle is a
    keyword of the vocabulary or [Not specified]; the name is no longer
    than the sender and holds no [@], no dot and no underscore. *)
Theorem X17_extracted_fields_are_bounded :
  forall (from subject body : jstring) (r : LeadData),
    extractLeadFromEmail (VString from) (VString subject) (VString body)
      = Normal (Some r) ->
    (forall tok, phone r = Some tok ->
       occurs_in tok body /\ 10 <= length tok <= 12 /\
       all_in (fun c => is_digit c || is_sep c) tok) /\
    (forall tok, email r = Some tok ->
       occurs_in tok from /\ In "@"%char tok) /\
    (In (vehicle r) vehicles \/ vehicle r = str "Not specified") /\
    length (name r) <= length from /\
    ~ In "@"%char (name r) /\ ~ In "."%char (name r) /\
    ~ In "_"%char (name r).
Proof.
  intros from subject body r H. rewrite extract_strings in H.
  apply Normal_Some_inj in H. subst r.
  cbn [phone email vehicle name]. split; [|split; [|split; [|split]]].
  - intros tok Ht. split; [now apply match0_occurs in Ht|].
    apply match0_phone_shape in Ht.
    split; [now apply phone_shape_length | now apply phone_shape_chars].
  - intros tok Ht. split; [now apply match0_occurs in Ht|].
    apply match0_some_leftmost in Ht. destruct Ht as (i & Hat & _).
    apply email_at_token_at in Hat.
    destruct Hat as (_ & _ & _ & _ & (l & d & t & -> & _) & _).
    apply in_or_app. right. now left.
  - pose proof (vehicle_in_vocabulary body subject) as V.
    destruct (find (mentions body subject) vehicles); auto.
  - unfold replace_dots_underscores. rewrite length_map.
    destruct (local_part_facts _ _ (split_first_is_local_part from))
      as (_ & L & _).
    exact L.
  - destruct (local_part_facts _ _ (split_first_is_local_part from))
      as (Hno & _ & _).
    split; [|apply replace_removes].
    apply replace_keeps_out; [exact Hno | discriminate].
Qed.

Lemma X17_witness :
  exists r,
    extractLeadFromEmail (VString (str "john_doe@mail.org"))
      (VString (str "Hi")) (VString (str "call 555.123.4567"))
      = Normal (Some r) /\
    ~ In "_"%char (name r).
Proof.
  eexists. split; [vm_compute; reflexivity|].
  exact (proj2 (proj2 (proj2 (proj2 (proj2 (proj2
    (X17_extracted_fields_are_bounded (str "john_doe@mail.org") (str "Hi")
       (str "call 555.123.4567") _ eq_refl))))))).
Defined.

(** X18. When [POST /api/process-email] stores a lead. If the three texts
    are strings without the character of code 0, the sender has at most
    255 characters, the received date is a date a column TIMESTAMP takes
    (not before 4714-11-24 BC, and a date JavaScript has), a dealership of
    key 1 exists and the key the sequence hands out is free, the answer is
    201: whatever the subject and the body say, the name and the email fit
    their columns because they come out of the sender, and so do the phone
    and the vehicle because of their shape. *)
Theorem X18_process_email_accepts_short_clean_input :
  forall (now : timestamp) (db : database) (from subject body : jstring)
         (ms : Z),
    nul_free from -> nul_free subject -> nul_free body ->
    length from <= 255 ->
    date_storable ms ->
    dealership_exists db 1 = true ->
    lead_exists db (leads_id_seq db) = false ->
    status_code
      (fst (process_email now db
              (mkEmail (VString from) (VString subject) (VString body)
                 (Some ms)))) = 201.
Proof.
  intros now db from subject body ms Nf Ns Nb Lf Hms Hd Hl.
  unfold process_email. cbn [Handlers.from Handlers.subject Handlers.body
                             receivedDate].
  rewrite extract_strings.
  cbn [name email phone vehicle notes].
  destruct (date_parameter_storable ms Hms) as [-> Hst]. cbv beta iota.
  destruct (local_part_facts _ _ (split_first_is_local_part from))
    as (_ & Ll & Nl).
  match goal with
  | |- context [insert_lead false now ?p1 ?p2 ?p3 ?p4 ?p5 ?p6 ?p7 ?p8
                  ?a ?d ?c db] =>
      destruct (insert_lead_accepted now p1 p2 p3 p4 p5 p6 p7 p8 a d c db)
        as (rows & db1 & E)
  end; try discriminate; auto;
    try (intros z Hz; discriminate);
    try (intros z Hz; assert (z = 1%Z) by congruence; lia);
    try (cbn [created_at_value]; intros F;
         pose proof (eq_trans (eq_sym Hst) F); discriminate).
  - eexists. apply store_varchar_accepts.
    + apply nul_free_replace. now apply Nl.
    + unfold replace_dots_underscores. rewrite length_map. lia.
  - destruct (match0 emailRegex from) as [tok|] eqn:Et; [|discriminate].
    apply match0_occurs in Et. rewrite store_varchar_accepts; try discriminate.
    + eapply nul_free_occurs; eauto.
    + apply occurs_length in Et. lia.
  - destruct (match0 phoneRegex body) as [tok|] eqn:Et; [|discriminate].
    pose proof (match0_phone_shape _ _ Et) as Sh.
    apply match0_occurs in Et. rewrite store_varchar_accepts; try discriminate.
    + eapply nul_free_occurs; eauto.
    + apply phone_shape_length in Sh. lia.
  - pose proof (vehicle_in_vocabulary body subject) as V.
    destruct (find (mentions body subject) vehicles) as [v|].
    + rewrite (vocabulary_fits v V). discriminate.
    + discriminate.
  - unfold store_text, text_in.
    assert (N : nul_free (notes_text subject (substring0 500 body))).
    { unfold notes_text, substring0.
      repeat (apply nul_free_app; split); auto; try reflexivity.
      now apply nul_free_firstn. }
    unfold nul_free in N. rewrite N. discriminate.
  - rewrite E. reflexivity.
Qed.

Lemma X18_witness :
  status_code
    (fst (process_email 5000 seeded
            (mkEmail (VString (str "ann@mail.org")) (VString (str "Enquiry"))
               (VString (str "A Toyota, please")) (Some 4000%Z)))) = 201.
Proof.
  apply X18_process_email_accepts_short_clean_input; try reflexivity.
  - vm_compute. lia.
  - unfold date_storable. lia.
Defined.

(* ================================================================== *)
(** * Further properties: the seed script *)
(* ================================================================== *)

Import SeedMoreFacts.

(** X19. The demo accounts after a run. When a run of the seed script goes
    through on a table of dealerships whose keys were drawn from the
    sequence, with hashes that fit the column, both demo accounts exist,
    and every row of either email carries the values of that run: the hash
    bcrypt just produced, the name, the role, and the key of the dealership
    this run inserted (not the one of an earlier run). *)
Theorem X19_run_resets_demo_accounts :
  forall (env : run_env) (db db' : database),
    dealership_keys_drawn db ->
    length (adminPassword env) <= 255 -> length (repPassword env) <= 255 ->
    setup_steps env db = Resolved tt db' ->
    (exists u, In u (users db') /\ User.email u = str "admin@autoclick.com")
    /\ (exists u, In u (users db') /\ User.email u = str "rep@autoclick.com")
    /\ forall u, In u (users db') ->
         (User.email u = str "admin@autoclick.com" ->
          User.password u = adminPassword env /\
          User.name u = str "Admin User" /\
          User.role u = Some (str "admin") /\
          User.dealership_id u = Some (dealerships_id_seq db)) /\
         (User.email u = str "rep@autoclick.com" ->
          User.password u = repPassword env /\
          User.name u = str "Sales Representative" /\
          User.role u = Some (str "sales_rep") /\
          User.dealership_id u = Some (dealerships_id_seq db)).
Proof. exact setup_resets_demo_users. Qed.

Lemma X19_witness :
  exists u,
    In u (users (setupDatabase second_run seeded)) /\
    User.email u = str "admin@autoclick.com" /\
    User.password u = adminPassword second_run /\
    User.dealership_id u = Some 2%Z.
Proof.
  assert (D : dealership_keys_drawn seeded).
  { intros d Hin. vm_compute in Hin. destruct Hin as [<-|[]]. reflexivity. }
  destruct (X19_run_resets_demo_accounts second_run seeded
              (setupDatabase second_run seeded) D)
    as ((u & Hin & He) & _ & H).
  - vm_compute. lia.
  - vm_compute. lia.
  - vm_compute. reflexivity.
  - exists u. destruct (proj1 (H u Hin) He) as (Hp & _ & _ & Hd).
    repeat split; assumption.
Defined.

(** X20. The seed script keeps the table of users consistent with its
    constraints whatever happens: if no two users share a key and no two
    share an email before a run, the same holds after it, whether the run
    goes through or stops at a failing statement. *)
Theorem X20_run_keeps_users_unique :
  forall (env : run_env) (db : database),
    users_unique db -> users_unique (setupDatabase env db).
Proof.
  intros env db H. exact (preserves_setup_steps env db H).
Qed.

Lemma X20_witness :
  users_unique (setupDatabase second_run (setupDatabase first_run
                                            empty_database)).
Proof.
  apply X20_run_keeps_users_unique. apply X20_run_keeps_users_unique.
  split; constructor.
Defined.

(** X21. The sample leads are inserted again by every run. The table of
    leads has no unique constraint besides its key, so ON CONFLICT DO
    NOTHING skips nothing: a run that goes through on tables whose keys
    were drawn from their sequences appends three leads, John Smith, Sarah
    Johnson and Mike Wilson, attached to the dealership this run inserted,
    and keeps every lead that was there. *)
Theorem X21_run_appends_the_three_sample_leads :
  forall (env : run_env) (db db' : database),
    dealership_keys_drawn db -> lead_keys_drawn db ->
    setup_steps env db = Resolved tt db' ->
    exists added,
      leads db' = leads db ++ added /\
      map Lead.customer_name added
        = [str "John Smith"; str "Sarah Johnson"; str "Mike Wilson"] /\
      Forall (fun l => Lead.dealership_id l = Some (dealerships_id_seq db))
        added.
Proof.
  intros env db db' Hdrawn Hleads H. unfold setup_steps in H.
  do 5 (apply then_Resolved in H; destruct H as (? & ? & [= <- <-] & H)).
  apply then_Resolved in H. destruct H as (res & db1 & Hins & H).
  rewrite (insert_seed_dealership (now env 0) db Hdrawn) in Hins.
  injection Hins as <- <-.
  apply then_Resolved in H. destruct H as (did & db1' & [= <- <-] & H).
  apply then_Resolved in H. destruct H as ([] & db2 & Hadmin & H).
  apply then_Resolved in H. destruct H as ([] & db3 & Hrep & H).
  apply then_Resolved in H. destruct H as (au & db3' & [= <- <-] & H).
  apply then_Resolved in H. destruct H as (aid & db3' & Hfirst & H).
  assert (db3' = db3) as ->
    by (destruct (map _ _) in Hfirst; [discriminate | now injection Hfirst]).
  apply then_Resolved in H. destruct H as ([] & db4 & Hsamples & H).
  do 3 (apply then_Resolved in H; destruct H as (? & ? & [= <- <-] & H)).
  injection H as <-.
  match type of Hadmin with
  | upsert_user ?n ?e ?p ?nm ?r ?d ?base = _ =>
      pose proof (upsert_user_keeps_leads n e p nm r d base) as K2;
      rewrite Hadmin in K2; cbn [after leads leads_id_seq with_dealerships]
        in K2
  end.
  match type of Hrep with
  | upsert_user ?n ?e ?p ?nm ?r ?d ?base = _ =>
      pose proof (upsert_user_keeps_leads n e p nm r d base) as K3;
      rewrite Hrep in K3; cbn [after] in K3
  end.
  destruct K2 as [K2 S2], K3 as [K3 S3].
  assert (Hdrawn3 : lead_keys_drawn db3).
  { unfold lead_keys_drawn. rewrite K3, K2, S3, S2. exact Hleads. }
  destruct (insert_samples_resolved env aid (dealerships_id_seq db)
              sampleLeads 3 db3 db4 Hdrawn3 Hsamples)
    as (added & Eadd & Enames & Hall).
  exists added. rewrite Eadd, K3, K2. split; [reflexivity|]. split.
  - apply Enames. repeat constructor; cbn; lia.
  - eapply Forall_impl; [|exact Hall]. intros l [_ Hd]. exact Hd.
Qed.

Lemma X21_witness :
  exists added,
    leads (setupDatabase second_run seeded) = leads seeded ++ added /\
    map Lead.customer_name added
      = [str "John Smith"; str "Sarah Johnson"; str "Mike Wilson"].
Proof.
  destruct (X21_run_appends_the_three_sample_leads second_run seeded
              (setupDatabase second_run seeded))
    as (added & E & N & _).
  - intros d Hin. vm_compute in Hin. destruct Hin as [<-|[]]. reflexivity.
  - intros l Hin. vm_compute in Hin.
    destruct Hin as [<-|[<-|[<-|[]]]]; reflexivity.
  - vm_compute. reflexivity.
  - exists added. split; assumption.
Defined.

(** X22. The fallback of the seed script cannot fail where it stands. The
    insertion of the dealership returns no row only when the key drawn is
    already taken, and then the table is not empty: the query for an
    existing dealership that follows finds a row, [existing.rows[0]] is
    defined, and the key used is the one of the first stored dealership. *)
Theorem X22_existing_dealership_is_found_when_looked_for :
  forall (now : timestamp) (name address phone email : Sql.param)
         (db db' : database),
    insert_dealership now name address phone email db = Resolved [] db' ->
    exists first others,
      dealerships db' = first :: others /\
      then_ select_first_dealership_id first_id db'
      = Resolved (Dealership.id first) db'.
Proof.
  intros now name address phone email db db'. unfold insert_dealership.
  destruct (store_varchar 255 name) as [[n'|]|];
    destruct (store_text address) as [a'|];
    destruct (store_varchar 20 phone) as [p'|];
    destruct (store_varchar 255 email) as [e'|]; try discriminate.
  destruct (dealership_exists db (dealerships_id_seq db)) eqn:E;
    [|discriminate].
  intros [= <-]. unfold dealership_exists in E.
  destruct (dealerships db) as [|first others] eqn:Ed; [discriminate|].
  exists first, others. split; reflexivity.
Qed.

Lemma X22_witness :
  exists first others,
    dealerships (setupDatabase first_run hand_keyed) = first :: others /\
    Dealership.id first = 1%Z.
Proof.
  destruct (X22_existing_dealership_is_found_when_looked_for 1000
              (Some seed_name) (Some (str "123 Main Street, Anytown, USA"))
              (Some (str "(555) 123-4567")) (Some (str "info@autoclick.com"))
              hand_keyed
              (with_dealerships hand_keyed (dealerships hand_keyed) 2)
              eq_refl)
    as (first & others & E & _).
  exists first, others. split.
  - vm_compute in E. injection E as <- <-. vm_compute. reflexivity.
  - vm_compute in E. injection E as <- <-. reflexivity.
Defined.
